(** * inventory-rdbms: the query parser, the storage engine and the executor

    A shallow embedding of [backend/rdbms/query_parser.py],
    [rdbms/storage_engine.py] and [backend/rdbms/query_executor.py], and
    the properties of the engine's specification settled against it.

    Conventions of the embedding.
    - A Python [str] is a [string]; the characters are the code points
      below 128 (the helpers leave the others alone: they are neither
      white space nor word characters and have no case).
    - A Python [dict] is an association list in insertion order: assigning
      to a key that is present keeps its position, a new key goes last.
    - Raising is explicit: a computation ends in [Return] or in [Raise],
      and a method of the storage engine threads the engine's state, which
      a raise leaves as it was at the point of the raise.
    - Python's [float] is an interface ([PyFloat]): the engine parses,
      stores, compares and prints floats but never computes with them.
    - The two files are the last state written by [_save_tables];
      [_load_tables] reads them back at start-up as [json.load] reads
      what [json.dump] wrote, the keys of an index as texts. *)

From Stdlib Require Import List String Ascii ZArith Bool Lia Arith.
From Stdlib Require Import DecimalString DecimalPos.
Import ListNotations.
Local Open Scope string_scope.
Local Open Scope list_scope.

(** ** Exceptions and outcomes *)

Inductive exn_kind : Type :=
| ValueError | TypeError | KeyError | IndexError | OverflowError.

(** An exception instance: its class and [str(e)]. Every class above
    derives from [Exception]. *)
Record exn : Type := Exn { exn_class : exn_kind; exn_str : string }.

Inductive outcome (A : Type) : Type :=
| Return (a : A)
| Raise (e : exn).
Arguments Return {A} a.
Arguments Raise {A} e.

Definition obind {A B} (o : outcome A) (f : A -> outcome B) : outcome B :=
  match o with
  | Return a => f a
  | Raise e => Raise e
  end.

Declare Scope py_scope.
Delimit Scope py_scope with py.
Notation "x <- c ;; k" := (obind c (fun x => k))
  (at level 61, c at next level, right associativity) : py_scope.

(** ** Characters and strings *)

Module Str.

Definition code (c : ascii) : nat := nat_of_ascii c.

(** [str.isspace] on the ASCII range, which is also the class [\s]. *)
Definition is_space (c : ascii) : bool :=
  let n := code c in
  ((9 <=? n)%nat && (n <=? 13)%nat) || ((28 <=? n)%nat && (n <=? 32)%nat).

Definition is_digit (c : ascii) : bool :=
  let n := code c in (48 <=? n)%nat && (n <=? 57)%nat.

Definition is_upper (c : ascii) : bool :=
  let n := code c in (65 <=? n)%nat && (n <=? 90)%nat.

Definition is_lower (c : ascii) : bool :=
  let n := code c in (97 <=? n)%nat && (n <=? 122)%nat.

(** The class [\w]. *)
Definition is_word (c : ascii) : bool :=
  is_digit c || is_upper c || is_lower c || Ascii.eqb c "_"%char.

Definition upper_char (c : ascii) : ascii :=
  if is_lower c then ascii_of_nat (code c - 32) else c.

Definition lower_char (c : ascii) : ascii :=
  if is_upper c then ascii_of_nat (code c + 32) else c.

Fixpoint map_chars (f : ascii -> ascii) (s : string) : string :=
  match s with
  | EmptyString => EmptyString
  | String c s' => String (f c) (map_chars f s')
  end.

Definition upper : string -> string := map_chars upper_char.
Definition lower : string -> string := map_chars lower_char.

Fixpoint lstrip_by (p : ascii -> bool) (s : string) : string :=
  match s with
  | EmptyString => EmptyString
  | String c s' => if p c then lstrip_by p s' else s
  end.

Fixpoint rev_onto (s acc : string) : string :=
  match s with
  | EmptyString => acc
  | String c s' => rev_onto s' (String c acc)
  end.

Definition rev (s : string) : string := rev_onto s EmptyString.

Definition rstrip_by (p : ascii -> bool) (s : string) : string :=
  rev (lstrip_by p (rev s)).

(** [s.strip()] *)
Definition strip (s : string) : string :=
  rstrip_by is_space (lstrip_by is_space s).

(** [s.rstrip(';')] *)
Definition rstrip_char (c : ascii) (s : string) : string :=
  rstrip_by (Ascii.eqb c) s.

(** [s.startswith(p)] *)
Fixpoint startswith (p s : string) : bool :=
  match p, s with
  | EmptyString, _ => true
  | String a p', String b s' => Ascii.eqb a b && startswith p' s'
  | String _ _, EmptyString => false
  end.

(** [s.endswith(p)] *)
Definition endswith (p s : string) : bool := startswith (rev p) (rev s).

(** [sub in s] *)
Fixpoint contains (sub s : string) : bool :=
  startswith sub s ||
  match s with
  | EmptyString => false
  | String _ s' => contains sub s'
  end.

Fixpoint drop (n : nat) (s : string) : string :=
  match n, s with
  | O, _ => s
  | S n', String _ s' => drop n' s'
  | S _, EmptyString => EmptyString
  end.

(** [s.split(sep, 1)] for a non-empty [sep]: the text before the first
    occurrence of [sep] and the text after it, when there is one. *)
Fixpoint split_once (sep s : string) : option (string * string) :=
  if startswith sep s then Some (EmptyString, drop (String.length sep) s)
  else
    match s with
    | EmptyString => None
    | String c s' =>
        match split_once sep s' with
        | Some (l, r) => Some (String c l, r)
        | None => None
        end
    end.

(** [s.split(sep)] for a one-character [sep]. *)
Fixpoint split_char (sep : ascii) (s : string) : list string :=
  match s with
  | EmptyString => [EmptyString]
  | String c s' =>
      if Ascii.eqb c sep then EmptyString :: split_char sep s'
      else
        match split_char sep s' with
        | [] => [String c EmptyString]
        | w :: ws => String c w :: ws
        end
  end.

(** [s.split()]: the maximal runs of characters that are not white space. *)
Fixpoint split_ws_aux (s : string) (cur : string) : list string :=
  match s with
  | EmptyString =>
      match cur with
      | EmptyString => []
      | _ => [rev cur]
      end
  | String c s' =>
      if is_space c then
        match cur with
        | EmptyString => split_ws_aux s' EmptyString
        | _ => rev cur :: split_ws_aux s' EmptyString
        end
      else split_ws_aux s' (String c cur)
  end.

Definition split_ws (s : string) : list string := split_ws_aux s EmptyString.

(** [sep.join(l)] *)
Definition join (sep : string) (l : list string) : string := String.concat sep l.

Fixpoint remove_last (s : string) : string :=
  match s with
  | EmptyString => EmptyString
  | String c EmptyString => EmptyString
  | String c s' => String c (remove_last s')
  end.

(** [s[1:-1]] *)
Definition slice_1_m1 (s : string) : string :=
  remove_last (drop 1 s).

(** The first [n] characters. *)
Fixpoint take (n : nat) (s : string) : string :=
  match n, s with
  | O, _ => EmptyString
  | S n', String c s' => String c (take n' s')
  | S _, EmptyString => EmptyString
  end.

(** The most digits a numeral may have for [int] to convert it and for
    [str] to print it ([sys.int_info.default_max_str_digits]). *)
Definition max_str_digits : nat := 4300.

(** The decimal numeral of an [int]: what [str(n)] gives for an [int] of
    at most [max_str_digits] digits. *)
Definition of_Z (z : Z) : string := NilZero.string_of_int (Z.to_int z).

Definition of_nat (n : nat) : string := of_Z (Z.of_nat n).

(** [repr(s)] for a [str] without quotes, backslashes or control
    characters. *)
Definition repr (s : string) : string := "'" ++ s ++ "'".

Definition digit_val (c : ascii) : Z := Z.of_nat (code c - 48).

Fixpoint digits_from (acc : Z) (s : string) : option Z :=
  match s with
  | EmptyString => Some acc
  | String c s' =>
      if is_digit c then digits_from (10 * acc + digit_val c) s'
      else if Ascii.eqb c "_"%char then
        match s' with
        | String d s'' =>
            if is_digit d then digits_from (10 * acc + digit_val d) s''
            else None
        | EmptyString => None
        end
      else None
  end.

Definition digits (s : string) : option Z :=
  match s with
  | String c s' => if is_digit c then digits_from (digit_val c) s' else None
  | EmptyString => None
  end.

(** The white space [int] skips around a numeral: tab to carriage
    return, and the space. The separators 28 to 31, which [str.strip]
    removes, are no white space for [int]. *)
Definition is_int_space (c : ascii) : bool :=
  let n := code c in
  ((9 <=? n)%nat && (n <=? 13)%nat) || (n =? 32)%nat.

Definition int_strip (s : string) : string :=
  rstrip_by is_int_space (lstrip_by is_int_space s).

Fixpoint count_digits (s : string) : nat :=
  match s with
  | EmptyString => 0
  | String c s' => (if is_digit c then 1 else 0) + count_digits s'
  end.

(** [int(s)] for a [str]: surrounding white space, an optional sign, then
    decimal digits, single underscores allowed between digits, and no
    more than [max_str_digits] digits. [None] is the [ValueError]. *)
Definition to_int (s : string) : option Z :=
  let numeral := int_strip s in
  if (max_str_digits <? count_digits numeral)%nat then None
  else
    match numeral with
    | String "-" s' => option_map Z.opp (digits s')
    | String "+" s' => digits s'
    | s' => digits s'
    end.

(** The digits and underscores a text begins with. *)
Fixpoint digit_run (s : string) : string :=
  match s with
  | EmptyString => EmptyString
  | String c s' =>
      if is_digit c || Ascii.eqb c "_"%char then String c (digit_run s')
      else EmptyString
  end.

(** When [int(s)] fails on the limit: the number of digits it reports.
    [int] counts the digits of the run the numeral begins with, once it
    has checked the underscores of the run and before it looks at what
    follows. *)
Definition over_limit (s : string) : option nat :=
  let run :=
    digit_run
      match lstrip_by is_int_space s with
      | String "-" s' => s'
      | String "+" s' => s'
      | s' => s'
      end in
  if negb (startswith "_" run) && negb (contains "__" run)
     && negb (endswith "_" run)
     && (max_str_digits <? count_digits run)%nat
  then Some (count_digits run)
  else None.

End Str.

(** ** Dictionaries

    An association list in insertion order, over a key equality given as a
    boolean function (string equality for names, Python's [==] for the
    values that key an index). *)

Module Dict.
Section Dict.
Context {K V : Type} (eqb : K -> K -> bool).

(** [d.get(k)] *)
Fixpoint get (k : K) (d : list (K * V)) : option V :=
  match d with
  | [] => None
  | (k', v) :: d' => if eqb k k' then Some v else get k d'
  end.

(** [k in d] *)
Definition mem (k : K) (d : list (K * V)) : bool :=
  match get k d with
  | Some _ => true
  | None => false
  end.

(** [d[k] = v] *)
Fixpoint set (k : K) (v : V) (d : list (K * V)) : list (K * V) :=
  match d with
  | [] => [(k, v)]
  | (k', v') :: d' =>
      if eqb k k' then (k', v) :: d' else (k', v') :: set k v d'
  end.

(** [del d[k]], for a key that is present *)
Fixpoint del (k : K) (d : list (K * V)) : list (K * V) :=
  match d with
  | [] => []
  | (k', v') :: d' => if eqb k k' then d' else (k', v') :: del k d'
  end.

Definition keys (d : list (K * V)) : list K := map fst d.
End Dict.
End Dict.

(** [d[k]] on a dictionary keyed by names: a [KeyError] when absent. *)
Definition getitem {V} (k : string) (d : list (string * V)) : outcome V :=
  match Dict.get String.eqb k d with
  | Some v => Return v
  | None => Raise (Exn KeyError (Str.repr k))
  end.

(** ** Regular expressions

    The fragment of Python's [re] the parser uses, matched the way [re]
    matches: by backtracking, alternatives tried in priority order (a
    greedy repetition tries one more iteration first, a lazy one tries to
    stop first), the first success wins. Every pattern of the parser is
    compiled with [re.IGNORECASE], so a literal matches either case. *)

Module Re.

Inductive regex : Type :=
| Eps                                   (* the empty pattern *)
| Chr (c : ascii)                       (* a literal character *)
| Cls (p : ascii -> bool)               (* a character class *)
| Cat (r1 r2 : regex)                   (* r1 r2 *)
| Star (greedy : bool) (r : regex)      (* r* and r*? *)
| Opt (r : regex)                       (* (?:r)? *)
| Grp (n : nat) (r : regex)             (* the n-th capturing group *)
| Eos.                                  (* $ *)

Definition Plus (greedy : bool) (r : regex) : regex := Cat r (Star greedy r).

Fixpoint Lit (s : string) : regex :=
  match s with
  | EmptyString => Eps
  | String c s' => Cat (Chr c) (Lit s')
  end.

Fixpoint Seq (rs : list regex) : regex :=
  match rs with
  | [] => Eps
  | r :: rs' => Cat r (Seq rs')
  end.

(** The groups that took part in a match, the last binding first. *)
Definition captures := list (nat * string).

Definition ci_eqb (a c : ascii) : bool :=
  Ascii.eqb (Str.upper_char a) (Str.upper_char c).

(** [$] matches at the end of the text and before a final newline. *)
Definition at_end (s : string) : bool :=
  match s with
  | EmptyString => true
  | String c EmptyString => Ascii.eqb c "010"%char
  | _ => false
  end.

(** The text [s] gave up to reach its suffix [s']. *)
Definition consumed (s s' : string) : string :=
  Str.take (String.length s - String.length s') s.

(** [run r s cs k]: match [r] at the head of [s], then hand the rest of
    the text and the captures to [k]; when [k] fails, backtrack. *)
Fixpoint run {R : Type} (r : regex) (s : string) (cs : captures)
    (k : string -> captures -> option R) {struct r} : option R :=
  match r with
  | Eps => k s cs
  | Chr c =>
      match s with
      | String a s' => if ci_eqb a c then k s' cs else None
      | EmptyString => None
      end
  | Cls p =>
      match s with
      | String a s' => if p a then k s' cs else None
      | EmptyString => None
      end
  | Cat r1 r2 => run r1 s cs (fun s1 c1 => run r2 s1 c1 k)
  | Opt r1 =>
      match run r1 s cs k with
      | Some x => Some x
      | None => k s cs
      end
  | Grp n r1 => run r1 s cs (fun s1 c1 => k s1 ((n, consumed s s1) :: c1))
  | Eos => if at_end s then k s cs else None
  | Star greedy r1 =>
      (fix loop (fuel : nat) (s : string) (cs : captures) : option R :=
         match fuel with
         | O => k s cs
         | S fuel' =>
             let again (_ : unit) :=
               run r1 s cs (fun s1 c1 =>
                 if (String.length s1 <? String.length s)%nat
                 then loop fuel' s1 c1 else None) in
             if greedy then
               match again tt with
               | Some x => Some x
               | None => k s cs
               end
             else
               match k s cs with
               | Some x => Some x
               | None => again tt
               end
         end) (String.length s) s cs
  end.

(** [re.match(r, s)]: the captures of the match at the start of [s]. *)
Definition rmatch (r : regex) (s : string) : option captures :=
  run r s [] (fun _ cs => Some cs).

(** [m.group(n)]: [None] for a group that took no part in the match. *)
Fixpoint group (n : nat) (cs : captures) : option string :=
  match cs with
  | [] => None
  | (m, s) :: cs' => if Nat.eqb n m then Some s else group n cs'
  end.

(** [re.split(r, s)] for a pattern without groups that matches no empty
    text: cut [s] at the leftmost matches, left to right. *)
Fixpoint split_aux (fuel : nat) (r : regex) (cur : string) (s : string)
  : list string :=
  match fuel with
  | O => [(Str.rev cur ++ s)%string]
  | S fuel' =>
      match s with
      | EmptyString => [Str.rev cur]
      | String a s' =>
          match run r s [] (fun rest _ => Some rest) with
          | Some rest =>
              if (String.length rest <? String.length s)%nat
              then Str.rev cur :: split_aux fuel' r EmptyString rest
              else split_aux fuel' r (String a cur) s'
          | None => split_aux fuel' r (String a cur) s'
          end
      end
  end.

Definition split (r : regex) (s : string) : list string :=
  split_aux (S (String.length s)) r EmptyString s.

(** The numbers of the capturing groups of a pattern. *)
Fixpoint groups (r : regex) : list nat :=
  match r with
  | Eps | Chr _ | Cls _ | Eos => []
  | Cat r1 r2 => groups r1 ++ groups r2
  | Star _ r1 | Opt r1 => groups r1
  | Grp n r1 => n :: groups r1
  end.

(** [Q] holds of the result of a match, when there is one. *)
Definition post {R : Type} (Q : R -> Prop) (o : option R) : Prop :=
  forall x, o = Some x -> Q x.

(** The text begins with white space. *)
Definition starts_with_space (s : string) : bool :=
  match s with
  | String a _ => Str.is_space a
  | EmptyString => false
  end.

Definition ws : regex := Cls Str.is_space.           (* \s *)
Definition word : regex := Cls Str.is_word.          (* \w *)
Definition any : regex := Cls (fun _ => true).       (* . under re.DOTALL *)

End Re.

(** ** Values

    What a cell, a literal or an index key can be: [None], a [bool], an
    [int], a [float] or a [str]. *)

(** Python's [float], as far as the engine uses it: comparison with a
    float and with an int (exact, [None] when a NaN makes the two
    unordered), the conversions [float(int)], [float(str)] and
    [int(float)], and [repr]. *)
Class PyFloat : Type := {
  pyfloat : Type;
  float_compare : pyfloat -> pyfloat -> option comparison;
  float_compare_int : pyfloat -> Z -> option comparison;
  float_of_int : Z -> option pyfloat;        (* None: OverflowError *)
  float_of_str : string -> option pyfloat;   (* None: ValueError *)
  float_to_int : pyfloat -> outcome Z;
  float_repr : pyfloat -> string
}.

(** The runtime in which no text denotes a float: enough to run statements
    that hold no float literal and touch no FLOAT column. *)
#[export] Instance no_float_text : PyFloat := {|
  pyfloat := Empty_set;
  float_compare := fun f _ => match f with end;
  float_compare_int := fun f _ => match f with end;
  float_of_int := fun _ => None;
  float_of_str := fun _ => None;
  float_to_int := fun f => match f with end;
  float_repr := fun f => match f with end
|}.

Section Values.
Context {PF : PyFloat}.

Inductive Value : Type :=
| VNone
| VBool (b : bool)
| VInt (z : Z)
| VFloat (f : pyfloat)
| VStr (s : string).

(** [v is None] *)
Definition is_None (v : Value) : bool :=
  match v with
  | VNone => true
  | _ => false
  end.

Definition type_name (v : Value) : string :=
  match v with
  | VNone => "NoneType"
  | VBool _ => "bool"
  | VInt _ => "int"
  | VFloat _ => "float"
  | VStr _ => "str"
  end.

(** The numbers: a [bool] counts as the int 0 or 1. *)
Definition as_number (v : Value) : option (Z + pyfloat) :=
  match v with
  | VBool b => Some (inl (Z.b2z b))
  | VInt z => Some (inl z)
  | VFloat f => Some (inr f)
  | _ => None
  end.

Definition num_compare (a b : Z + pyfloat) : option comparison :=
  match a, b with
  | inl x, inl y => Some (Z.compare x y)
  | inr f, inr g => float_compare f g
  | inr f, inl y => float_compare_int f y
  | inl x, inr g => option_map CompOpp (float_compare_int g x)
  end.

(** How two values compare: [None] when Python has no order between
    their types, [Some None] when they are numbers that a NaN leaves
    unordered. *)
Definition py_compare (a b : Value) : option (option comparison) :=
  match a, b with
  | VStr s, VStr t => Some (Some (String.compare s t))
  | _, _ =>
      match as_number a, as_number b with
      | Some x, Some y => Some (num_compare x y)
      | _, _ => None
      end
  end.

(** [a == b] *)
Definition py_eq (a b : Value) : bool :=
  match a, b with
  | VNone, VNone => true
  | _, _ =>
      match py_compare a b with
      | Some (Some Eq) => true
      | _ => false
      end
  end.

(** [a != b] *)
Definition py_ne (a b : Value) : bool := negb (py_eq a b).

Definition order_error (op : string) (a b : Value) : exn :=
  Exn TypeError ("'" ++ op ++ "' not supported between instances of '"
                 ++ type_name a ++ "' and '" ++ type_name b ++ "'").

Definition py_order (op : string) (holds : comparison -> bool)
    (a b : Value) : outcome bool :=
  match py_compare a b with
  | Some (Some c) => Return (holds c)
  | Some None => Return false
  | None => Raise (order_error op a b)
  end.

Definition is_Lt (c : comparison) : bool :=
  match c with Lt => true | _ => false end.
Definition is_Gt (c : comparison) : bool :=
  match c with Gt => true | _ => false end.
Definition is_Le (c : comparison) : bool :=
  match c with Gt => false | _ => true end.
Definition is_Ge (c : comparison) : bool :=
  match c with Lt => false | _ => true end.

(** [a < b], [a <= b], [a > b], [a >= b] *)
Definition py_lt : Value -> Value -> outcome bool := py_order "<" is_Lt.
Definition py_le : Value -> Value -> outcome bool := py_order "<=" is_Le.
Definition py_gt : Value -> Value -> outcome bool := py_order ">" is_Gt.
Definition py_ge : Value -> Value -> outcome bool := py_order ">=" is_Ge.

(** [bool(v)] *)
Definition truthy (v : Value) : bool :=
  match v with
  | VNone => false
  | VBool b => b
  | VInt z => negb (Z.eqb z 0)
  | VFloat f =>
      match float_compare_int f 0 with
      | Some Eq => false
      | _ => true
      end
  | VStr s => negb (String.eqb s "")
  end.

(** [str(v)] *)
Definition py_str (v : Value) : string :=
  match v with
  | VNone => "None"
  | VBool true => "True"
  | VBool false => "False"
  | VInt z => Str.of_Z z
  | VFloat f => float_repr f
  | VStr s => s
  end.

(** [int(v)]. The message of an invalid literal shows at most 200
    characters of the text's [repr]; the message of a numeral over the
    limit is worded as CPython 3.11 words it. *)
Definition py_int (v : Value) : outcome Z :=
  match v with
  | VNone =>
      Raise (Exn TypeError
        "int() argument must be a string, a bytes-like object or a real number, not 'NoneType'")
  | VBool b => Return (Z.b2z b)
  | VInt z => Return z
  | VFloat f => float_to_int f
  | VStr s =>
      match Str.to_int s with
      | Some z => Return z
      | None =>
          match Str.over_limit s with
          | Some n =>
              Raise (Exn ValueError
                ("Exceeds the limit (" ++ Str.of_nat Str.max_str_digits
                 ++ ") for integer string conversion: value has "
                 ++ Str.of_nat n
                 ++ " digits; use sys.set_int_max_str_digits() to increase the limit"))
          | None =>
              Raise (Exn ValueError
                ("invalid literal for int() with base 10: "
                 ++ Str.take 200 (Str.repr s)))
          end
      end
  end.

(** [float(v)] *)
Definition py_float (v : Value) : outcome pyfloat :=
  let of_int z :=
    match float_of_int z with
    | Some f => Return f
    | None => Raise (Exn OverflowError "int too large to convert to float")
    end in
  match v with
  | VNone =>
      Raise (Exn TypeError
        "float() argument must be a string or a real number, not 'NoneType'")
  | VBool b => of_int (Z.b2z b)
  | VInt z => of_int z
  | VFloat f => Return f
  | VStr s =>
      match float_of_str s with
      | Some f => Return f
      | None =>
          Raise (Exn ValueError
            ("could not convert string to float: " ++ Str.repr s))
      end
  end.

(** A row: column name to value, the internal [_row_id] among them. *)
Definition Row : Type := list (string * Value).

(** [row.get(col)] *)
Definition row_get (col : string) (row : Row) : Value :=
  match Dict.get String.eqb col row with
  | Some v => v
  | None => VNone
  end.

(** One entry of a WHERE dictionary: a plain literal (equality) or a
    dictionary from operator to literal. *)
Inductive Condition : Type :=
| CLit (v : Value)
| COps (ops : list (string * Value)).

Definition Where : Type := list (string * Condition).

(** A column definition, as the parser builds it. *)
Record ColumnDef : Type := {
  col_type : string;
  not_null : bool;
  primary_key : bool;
  unique : bool
}.

Definition Columns : Type := list (string * ColumnDef).

(** The dictionary the parser returns, by its ['type']. A key the
    parser sets only sometimes (['where'], ['columns'] of an INSERT) is
    an [option]. *)
Inductive ParsedQuery : Type :=
| CREATE_TABLE (table : string) (columns : Columns)
| INSERT (table : string) (columns : option (list string))
         (values : list Value)
| SELECT (columns : list string) (table : string) (where_ : option Where)
| SELECT_JOIN (table1 table2 : string) (join_condition : string * string)
              (columns : list string) (where_ : option Where)
| UPDATE (table : string) (updates : list (string * Value))
         (where_ : option Where)
| DELETE (table : string) (where_ : option Where)
| SHOW_TABLES
| DESCRIBE (table : string).

End Values.

(** ** The query parser ([query_parser.py]) *)

Module QueryParser.
Section Parser.
Context {PF : PyFloat}.
Import Re.

Definition squote : ascii := "'"%char.
Definition dquote : ascii := ascii_of_nat 34.
Definition str1 (c : ascii) : string := String c EmptyString.

Definition ws1 : regex := Plus true ws.          (* \s+ *)
Definition ws0 : regex := Star true ws.          (* \s* *)
Definition word1 : regex := Plus true word.      (* \w+ *)
Definition rest : regex := Star true any.        (* .* *)
Definition lazy : regex := Star false any.       (* .*? *)

(** [(?: \s+ WHERE \s+ ( .* ) )?], the group numbered [n] (the patterns
    are quoted token by token) *)
Definition where_tail (n : nat) : regex :=
  Opt (Seq [ws1; Lit "WHERE"; ws1; Grp n rest]).

(** The text of a group that is part of every match of its pattern. *)
Definition group_text (n : nat) (cs : captures) : string :=
  match group n cs with
  | Some s => s
  | None => ""
  end.

(** [if where_str:] *)
Definition nonempty (where_str : option string) : option string :=
  match where_str with
  | Some "" => None
  | other => other
  end.

Definition _parse_value (value_str : string) : Value :=
  let value_str := Str.strip value_str in
  if String.eqb (Str.upper value_str) "NULL" then VNone
  else if (Str.startswith (str1 squote) value_str
           && Str.endswith (str1 squote) value_str)
          || (Str.startswith (str1 dquote) value_str
              && Str.endswith (str1 dquote) value_str)
  then VStr (Str.slice_1_m1 value_str)
  else if String.eqb (Str.upper value_str) "TRUE"
          || String.eqb (Str.upper value_str) "FALSE"
  then VBool (String.eqb (Str.upper value_str) "TRUE")
  else
    let number :=
      if Str.contains "." value_str
      then option_map VFloat (float_of_str value_str)
      else option_map VInt (Str.to_int value_str) in
    match number with
    | Some v => v
    | None => VStr value_str
    end.

Definition add_char (current : string) (char : ascii) : string :=
  (current ++ str1 char)%string.

Definition same_quote (quote_char : option ascii) (char : ascii) : bool :=
  match quote_char with
  | Some q => Ascii.eqb char q
  | None => false
  end.

Fixpoint split_by_comma_loop (text : string) (parts : list string)
    (current : string) (in_quotes : bool) (quote_char : option ascii)
    (paren_depth : Z) : list string :=
  match text with
  | EmptyString =>
      if negb (String.eqb (Str.strip current) "")
      then parts ++ [Str.strip current]
      else parts
  | String char text' =>
      if (Ascii.eqb char dquote || Ascii.eqb char squote) && negb in_quotes
      then split_by_comma_loop text' parts (add_char current char)
             true (Some char) paren_depth
      else if same_quote quote_char char && in_quotes
      then split_by_comma_loop text' parts (add_char current char)
             false None paren_depth
      else if Ascii.eqb char "("%char && negb in_quotes
      then split_by_comma_loop text' parts (add_char current char)
             in_quotes quote_char (paren_depth + 1)
      else if Ascii.eqb char ")"%char && negb in_quotes
      then split_by_comma_loop text' parts (add_char current char)
             in_quotes quote_char (paren_depth - 1)
      else if Ascii.eqb char ","%char && negb in_quotes
              && Z.eqb paren_depth 0
      then split_by_comma_loop text' (parts ++ [Str.strip current]) ""
             in_quotes quote_char paren_depth
      else split_by_comma_loop text' parts (add_char current char)
             in_quotes quote_char paren_depth
  end.

Definition _split_by_comma (text : string) : list string :=
  split_by_comma_loop text [] "" false None 0.

Definition column_definition (col_def : string) (columns : Columns)
  : outcome Columns :=
  let col_def := Str.strip col_def in
  match Str.split_ws col_def with
  | col_name :: col_type :: constraints =>
      let remaining := Str.upper (Str.join " " constraints) in
      let pk := Str.contains "PRIMARY KEY" remaining in
      let column_info := {|
        col_type := col_type;
        not_null := pk || Str.contains "NOT NULL" remaining;
        primary_key := pk;
        unique := Str.contains "UNIQUE" remaining && negb pk |} in
      Return (Dict.set String.eqb col_name column_info columns)
  | _ =>
      Raise (Exn ValueError ("Invalid column definition: " ++ col_def))
  end.

Fixpoint column_definitions (col_defs : list string) (columns : Columns)
  : outcome Columns :=
  match col_defs with
  | [] => Return columns
  | col_def :: col_defs' =>
      (columns' <- column_definition col_def columns ;;
       column_definitions col_defs' columns')%py
  end.

Definition _parse_column_definitions (columns_str : string)
  : outcome Columns :=
  column_definitions (_split_by_comma columns_str) [].

(** [CREATE \s+ TABLE \s+ (\w+) \s* \( ( .* ) \)] *)
Definition create_table_pattern : regex :=
  Seq [Lit "CREATE"; ws1; Lit "TABLE"; ws1; Grp 1 word1; ws0;
       Lit "("; Grp 2 rest; Lit ")"].

Definition _parse_create_table (query : string) : outcome ParsedQuery :=
  match rmatch create_table_pattern query with
  | None => Raise (Exn ValueError "Invalid CREATE TABLE syntax")
  | Some m =>
      let table_name := group_text 1 m in
      let columns_str := group_text 2 m in
      (columns <- _parse_column_definitions columns_str ;;
       Return (CREATE_TABLE table_name columns))%py
  end.

Definition _parse_values (values_str : string) : list Value :=
  map (fun part => _parse_value (Str.strip part))
      (_split_by_comma values_str).

(** [INSERT \s+ INTO \s+ (\w+) \s+ VALUES \s* \( ( .* ) \)] *)
Definition insert_pattern1 : regex :=
  Seq [Lit "INSERT"; ws1; Lit "INTO"; ws1; Grp 1 word1; ws1;
       Lit "VALUES"; ws0; Lit "("; Grp 2 rest; Lit ")"].

(** [INSERT \s+ INTO \s+ (\w+) \s* \( ( .*? ) \) \s+ VALUES \s* \( ( .* ) \)] *)
Definition insert_pattern2 : regex :=
  Seq [Lit "INSERT"; ws1; Lit "INTO"; ws1; Grp 1 word1; ws0;
       Lit "("; Grp 2 lazy; Lit ")"; ws1;
       Lit "VALUES"; ws0; Lit "("; Grp 3 rest; Lit ")"].

Definition _parse_insert (query : string) : outcome ParsedQuery :=
  match rmatch insert_pattern1 query with
  | Some match1 =>
      let table_name := group_text 1 match1 in
      let values_str := group_text 2 match1 in
      Return (INSERT table_name None (_parse_values values_str))
  | None =>
      match rmatch insert_pattern2 query with
      | Some match2 =>
          let table_name := group_text 1 match2 in
          let columns_str := group_text 2 match2 in
          let values_str := group_text 3 match2 in
          let columns := map Str.strip (Str.split_char "," columns_str) in
          Return (INSERT table_name (Some columns)
                    (_parse_values values_str))
      | None => Raise (Exn ValueError "Invalid INSERT syntax")
      end
  end.

Definition operators : list string := [">="; "<="; "!="; "="; ">"; "<"].

(** The body of the loop over the AND parts: the first operator of
    [operators] that occurs in the part splits it. *)
Definition where_condition (part : string) (conditions : Where) : Where :=
  let part := Str.strip part in
  match find (fun op => Str.contains op part) operators with
  | Some op =>
      match Str.split_once op part with
      | Some (col_name, value_str) =>
          let col_name := Str.strip col_name in
          let value := _parse_value (Str.strip value_str) in
          if String.eqb op "="
          then Dict.set String.eqb col_name (CLit value) conditions
          else Dict.set String.eqb col_name (COps [(op, value)]) conditions
      | None => conditions
      end
  | None => conditions
  end.

(** [\s+ AND \s+] *)
Definition and_pattern : regex := Seq [ws1; Lit "AND"; ws1].

Definition _parse_where_clause (where_str : string) : Where :=
  fold_left (fun conditions part => where_condition part conditions)
            (split and_pattern where_str) [].

Definition projection (columns_str : string) : list string :=
  if String.eqb columns_str "*" then ["*"]
  else map Str.strip (Str.split_char "," columns_str).

Definition _parse_join_condition (condition_str : string)
  : outcome (string * string) :=
  let condition_str := Str.strip condition_str in
  match Str.split_once "=" condition_str with
  | None => Raise (Exn ValueError "Invalid JOIN condition")
  | Some (lhs, rhs) => Return (Str.strip lhs, Str.strip rhs)
  end.

(** [SELECT \s+ ( .*? ) \s+ FROM \s+ (\w+) \s+ JOIN \s+ (\w+) \s+ ON \s+
    ( .*? ) (?: \s+ WHERE \s+ ( .* ) )? $] *)
Definition select_join_pattern : regex :=
  Seq [Lit "SELECT"; ws1; Grp 1 lazy; ws1; Lit "FROM"; ws1; Grp 2 word1;
       ws1; Lit "JOIN"; ws1; Grp 3 word1; ws1; Lit "ON"; ws1; Grp 4 lazy;
       where_tail 5; Eos].

Definition _parse_select_with_join (query : string) : outcome ParsedQuery :=
  match rmatch select_join_pattern query with
  | None => Raise (Exn ValueError "Invalid SELECT with JOIN syntax")
  | Some m =>
      let columns_str := Str.strip (group_text 1 m) in
      let table1 := group_text 2 m in
      let table2 := group_text 3 m in
      let join_condition := Str.strip (group_text 4 m) in
      let where_str := group 5 m in
      (condition <- _parse_join_condition join_condition ;;
       Return (SELECT_JOIN table1 table2 condition (projection columns_str)
                 (option_map _parse_where_clause (nonempty where_str))))%py
  end.

(** [SELECT \s+ ( .*? ) \s+ FROM \s+ (\w+) (?: \s+ WHERE \s+ ( .* ) )?] *)
Definition select_pattern : regex :=
  Seq [Lit "SELECT"; ws1; Grp 1 lazy; ws1; Lit "FROM"; ws1; Grp 2 word1;
       where_tail 3].

Definition _parse_select (query : string) : outcome ParsedQuery :=
  if Str.contains " JOIN " (Str.upper query)
  then _parse_select_with_join query
  else
    match rmatch select_pattern query with
    | None => Raise (Exn ValueError "Invalid SELECT syntax")
    | Some m =>
        let columns_str := Str.strip (group_text 1 m) in
        let table_name := group_text 2 m in
        let where_str := group 3 m in
        Return (SELECT (projection columns_str) table_name
                  (option_map _parse_where_clause (nonempty where_str)))
    end.

Fixpoint set_assignments (assignments : list string)
    (updates : list (string * Value)) : outcome (list (string * Value)) :=
  match assignments with
  | [] => Return updates
  | assignment :: assignments' =>
      let assignment := Str.strip assignment in
      match Str.split_once "=" assignment with
      | None =>
          Raise (Exn ValueError ("Invalid assignment: " ++ assignment))
      | Some (col_name, value_str) =>
          let col_name := Str.strip col_name in
          let value := _parse_value (Str.strip value_str) in
          set_assignments assignments'
            (Dict.set String.eqb col_name value updates)
      end
  end.

Definition _parse_set_clause (set_str : string)
  : outcome (list (string * Value)) :=
  set_assignments (_split_by_comma set_str) [].

(** [UPDATE \s+ (\w+) \s+ SET \s+ ( .*? ) (?: \s+ WHERE \s+ ( .* ) )?] *)
Definition update_pattern : regex :=
  Seq [Lit "UPDATE"; ws1; Grp 1 word1; ws1; Lit "SET"; ws1; Grp 2 lazy;
       where_tail 3].

Definition _parse_update (query : string) : outcome ParsedQuery :=
  match rmatch update_pattern query with
  | None => Raise (Exn ValueError "Invalid UPDATE syntax")
  | Some m =>
      let table_name := group_text 1 m in
      let set_str := group_text 2 m in
      let where_str := group 3 m in
      (updates <- _parse_set_clause set_str ;;
       Return (UPDATE table_name updates
                 (option_map _parse_where_clause (nonempty where_str))))%py
  end.

(** [DELETE \s+ FROM \s+ (\w+) (?: \s+ WHERE \s+ ( .* ) )?] *)
Definition delete_pattern : regex :=
  Seq [Lit "DELETE"; ws1; Lit "FROM"; ws1; Grp 1 word1; where_tail 2].

Definition _parse_delete (query : string) : outcome ParsedQuery :=
  match rmatch delete_pattern query with
  | None => Raise (Exn ValueError "Invalid DELETE syntax")
  | Some m =>
      let table_name := group_text 1 m in
      let where_str := group 2 m in
      match nonempty where_str with
      | Some where_str =>
          Return (DELETE table_name (Some (_parse_where_clause where_str)))
      | None =>
          Raise (Exn ValueError
                   "DELETE without WHERE clause not allowed for safety")
      end
  end.

Definition _parse_show (query : string) : outcome ParsedQuery :=
  if String.eqb (Str.upper query) "SHOW TABLES" then Return SHOW_TABLES
  else Raise (Exn ValueError "Invalid SHOW syntax").

(** [DESCRIBE \s+ (\w+)] *)
Definition describe_pattern : regex :=
  Seq [Lit "DESCRIBE"; ws1; Grp 1 word1].

Definition _parse_describe (query : string) : outcome ParsedQuery :=
  match rmatch describe_pattern query with
  | None => Raise (Exn ValueError "Invalid DESCRIBE syntax")
  | Some m => Return (DESCRIBE (group_text 1 m))
  end.

Definition parse (query : string) : outcome ParsedQuery :=
  let query := Str.rstrip_char ";" (Str.strip query) in
  match Str.split_ws query with
  | [] => Raise (Exn IndexError "list index out of range")
  | word0 :: _ =>
      let first_word := Str.upper word0 in
      if String.eqb first_word "CREATE" then _parse_create_table query
      else if String.eqb first_word "INSERT" then _parse_insert query
      else if String.eqb first_word "SELECT" then _parse_select query
      else if String.eqb first_word "UPDATE" then _parse_update query
      else if String.eqb first_word "DELETE" then _parse_delete query
      else if String.eqb first_word "SHOW" then _parse_show query
      else if String.eqb first_word "DESCRIBE" then _parse_describe query
      else Raise (Exn ValueError ("Unsupported query type: " ++ first_word))
  end.

End Parser.
End QueryParser.

(** ** The storage engine ([storage_engine.py]) *)

Module StorageEngine.

Declare Scope engine_scope.
Delimit Scope engine_scope with M.

Section Storage.
Context {PF : PyFloat}.

(** An index: value to row ordinal, keyed by Python's [==]. *)
Definition Index : Type := list (Value * nat).

(** The indexes of one table: indexed column to index. *)
Definition TableIndexes : Type := list (string * Index).

(** A table: the keys ['columns'], ['rows'], ['primary_key'] and
    ['unique_keys'] of its dictionary. *)
Record Table : Type := {
  tbl_columns : Columns;
  tbl_rows : list Row;
  tbl_primary_key : option string;
  tbl_unique_keys : list string
}.

(** The engine: [self.tables], [self.indexes], and what
    [tables.json] and [indexes.json] hold. *)
Record Engine : Type := {
  tables : list (string * Table);
  indexes : list (string * TableIndexes);
  tables_json : list (string * Table);
  indexes_json : list (string * TableIndexes)
}.

Definition empty_engine : Engine :=
  {| tables := []; indexes := []; tables_json := []; indexes_json := [] |}.

(** A method of the engine: it ends in a value or in an exception, and
    in either case leaves a state behind. *)
Definition M (A : Type) : Type := Engine -> outcome A * Engine.

Definition ret {A} (a : A) : M A := fun st => (Return a, st).
Definition raise {A} (e : exn) : M A := fun st => (Raise e, st).
Definition lift {A} (o : outcome A) : M A := fun st => (o, st).
Definition read {A} (f : Engine -> A) : M A := fun st => (Return (f st), st).
Definition modify (f : Engine -> Engine) : M unit :=
  fun st => (Return tt, f st).

Definition bind {A B} (m : M A) (f : A -> M B) : M B :=
  fun st =>
    match m st with
    | (Return a, st') => f a st'
    | (Raise e, st') => (Raise e, st')
    end.

Notation "x <- c ;; k" := (bind c (fun x => k))
  (at level 61, c at next level, right associativity) : engine_scope.
Notation "c ;;; k" := (bind c (fun _ => k))
  (at level 61, right associativity) : engine_scope.

(** [for x in l: body(x)] *)
Fixpoint for_each {A} (body : A -> M unit) (l : list A) : M unit :=
  match l with
  | [] => ret tt
  | x :: l' => (body x ;;; for_each body l')%M
  end.

Definition set_tables (t : list (string * Table)) (st : Engine) : Engine :=
  {| tables := t; indexes := indexes st;
     tables_json := tables_json st; indexes_json := indexes_json st |}.

Definition set_indexes (ix : list (string * TableIndexes)) (st : Engine)
  : Engine :=
  {| tables := tables st; indexes := ix;
     tables_json := tables_json st; indexes_json := indexes_json st |}.

(** [self.tables[table_name] = table] *)
Definition store_table (table_name : string) (table : Table) : M unit :=
  modify (fun st =>
    set_tables (Dict.set String.eqb table_name table (tables st)) st).

(** [self.indexes[table_name] = table_indexes] *)
Definition store_table_indexes (table_name : string)
    (table_indexes : TableIndexes) : M unit :=
  modify (fun st =>
    set_indexes (Dict.set String.eqb table_name table_indexes (indexes st))
                st).

(** [self.tables[table_name]] *)
Definition the_table (table_name : string) : M Table :=
  (tbls <- read tables ;; lift (getitem table_name tbls))%M.

(** [self.indexes[table_name]] *)
Definition the_table_indexes (table_name : string) : M TableIndexes :=
  (ix <- read indexes ;; lift (getitem table_name ix))%M.

(** [self.indexes[table_name][col]] *)
Definition the_index (table_name col : string) : M Index :=
  (table_indexes <- the_table_indexes table_name ;;
   lift (getitem col table_indexes))%M.

(** [self.indexes[table_name][col] = index] *)
Definition store_index (table_name col : string) (index : Index) : M unit :=
  (table_indexes <- the_table_indexes table_name ;;
   store_table_indexes table_name
     (Dict.set String.eqb col index table_indexes))%M.

Definition with_rows (table : Table) (rows : list Row) : Table :=
  {| tbl_columns := tbl_columns table; tbl_rows := rows;
     tbl_primary_key := tbl_primary_key table;
     tbl_unique_keys := tbl_unique_keys table |}.

(** The write of both files; a failure to write is only printed. *)
Definition _save_tables : M unit :=
  modify (fun st =>
    {| tables := tables st; indexes := indexes st;
       tables_json := tables st; indexes_json := indexes st |}).

(** *** Start-up

    [json.dump] writes a number as [repr] prints it, which fails for an
    [int] of more than [Str.max_str_digits] digits; the file is then
    left cut short, and [json.load] fails on it. *)
Definition json_int (z : Z) : bool :=
  (Str.count_digits (Str.of_Z z) <=? Str.max_str_digits)%nat.

Definition json_value (v : Value) : bool :=
  match v with
  | VInt z => json_int z
  | _ => true
  end.

Definition json_tables (tbls : list (string * Table)) : bool :=
  forallb
    (fun t =>
       forallb (fun row : Row => forallb (fun kv => json_value (snd kv)) row)
               (tbl_rows (snd t)))
    tbls.

Definition json_indexes (ixs : list (string * TableIndexes)) : bool :=
  forallb
    (fun t =>
       forallb
         (fun c : string * Index =>
            forallb (fun kv => json_value (fst kv)
                               && json_int (Z.of_nat (snd kv)))
                    (snd c))
         (snd t))
    ixs.

(** The key of a JSON object is a text. [json.dump] writes the key of an
    index as [str] prints it: [true], [false] and [null] for the
    constants, [NaN], [Infinity] and [-Infinity] for the floats that are
    no finite numbers. [json.load] gives that text back as the key. *)
Definition json_key (v : Value) : string :=
  match v with
  | VNone => "null"
  | VBool true => "true"
  | VBool false => "false"
  | VInt z => Str.of_Z z
  | VFloat f =>
      let text := float_repr f in
      if String.eqb text "nan" then "NaN"
      else if String.eqb text "inf" then "Infinity"
      else if String.eqb text "-inf" then "-Infinity"
      else text
  | VStr s => s
  end.

(** An index as it is read back: of two keys written as the same text,
    the first gives the position and the last the row. *)
Definition loaded_index (index : Index) : Index :=
  fold_left
    (fun loaded kv => Dict.set py_eq (VStr (json_key (fst kv))) (snd kv) loaded)
    index [].

Definition loaded_indexes (ixs : list (string * TableIndexes))
  : list (string * TableIndexes) :=
  map (fun t =>
         (fst t, map (fun c : string * Index => (fst c, loaded_index (snd c)))
                     (snd t)))
      ixs.

(** Both files are read when both were written in full; the tables come
    back as they were written. Otherwise the failure is printed and the
    engine starts empty. *)
Definition _load_tables : M unit :=
  modify (fun st =>
    if json_tables (tables_json st) && json_indexes (indexes_json st)
    then {| tables := tables_json st;
            indexes := loaded_indexes (indexes_json st);
            tables_json := tables_json st;
            indexes_json := indexes_json st |}
    else {| tables := []; indexes := [];
            tables_json := tables_json st;
            indexes_json := indexes_json st |}).

(** [StorageEngine(data_dir)] on the directory in which [files] left
    its two files. *)
Definition __init__ (files : Engine) : Engine :=
  snd (_load_tables {| tables := []; indexes := [];
                       tables_json := tables_json files;
                       indexes_json := indexes_json files |}).

Definition no_such_table {A} (table_name : string) : M A :=
  raise (Exn ValueError ("Table '" ++ table_name ++ "' does not exist")).

(** [if table_name not in self.tables: raise ...], then
    [self.tables[table_name]] *)
Definition existing_table (table_name : string) : M Table :=
  (tbls <- read tables ;;
   match Dict.get String.eqb table_name tbls with
   | Some table => ret table
   | None => no_such_table table_name
   end)%M.

Definition create_table (table_name : string) (columns : Columns) : M bool :=
  (tbls <- read tables ;;
   if Dict.mem String.eqb table_name tbls
   then raise (Exn ValueError
                 ("Table '" ++ table_name ++ "' already exists"))
   else
     let primary_keys :=
       map fst (filter (fun c => primary_key (snd c)) columns) in
     let unique_keys :=
       map fst (filter (fun c => unique (snd c)) columns) in
     if (1 <? List.length primary_keys)%nat
     then raise (Exn ValueError "Multiple primary keys not supported")
     else
       store_table table_name
         {| tbl_columns := columns; tbl_rows := [];
            tbl_primary_key := hd_error primary_keys;
            tbl_unique_keys := unique_keys |} ;;;
       store_table_indexes table_name [] ;;;
       for_each (fun key => store_index table_name key [])
                (primary_keys ++ unique_keys) ;;;
       _save_tables ;;;
       ret true)%M.

Definition wrap_invalid (value : Value) (data_type : string)
    (attempt : outcome Value) : outcome Value :=
  match attempt with
  | Return v => Return v
  | Raise (Exn cls msg) =>
      match cls with
      | ValueError | TypeError =>
          Raise (Exn ValueError
                   ("Invalid value '" ++ py_str value ++ "' for type '"
                    ++ data_type ++ "': " ++ msg))
      | _ => Raise (Exn cls msg)
      end
  end.

(** [int(data_type.split('(')[1].split(')')[0])] *)
Definition varchar_max_len (data_type : string) : outcome Z :=
  py_int (VStr (hd "" (Str.split_char ")"
                        (nth 1 (Str.split_char "(" data_type) "")))).

Definition _validate_type (value : Value) (data_type : string)
  : outcome Value :=
  if is_None value then Return VNone
  else
    wrap_invalid value data_type
      (if String.eqb data_type "INT" then
         (z <- py_int value ;; Return (VInt z))%py
       else if Str.startswith "VARCHAR" data_type then
         let str_val := py_str value in
         if Str.contains "(" data_type then
           (max_len <- varchar_max_len data_type ;;
            if (max_len <? Z.of_nat (String.length str_val))%Z
            then Raise (Exn ValueError
                   ("String too long: "
                    ++ Str.of_nat (String.length str_val)
                    ++ " > " ++ Str.of_Z max_len))
            else Return (VStr str_val))%py
         else Return (VStr str_val)
       else if String.eqb data_type "FLOAT" then
         (f <- py_float value ;; Return (VFloat f))%py
       else if String.eqb data_type "BOOLEAN" then
         match value with
         | VBool _ => Return value
         | _ =>
             Return (VBool (existsb (String.eqb (Str.lower (py_str value)))
                                    ["true"; "1"; "yes"; "on"]))
         end
       else if String.eqb data_type "DATETIME" then
         match value with
         | VStr _ => Return value
         | _ => Return (VStr (py_str value))
         end
       else Return value).

(** One test of the operator chain: does [row_value op value] rule the
    row out? The operators are distinct, so at most one guard of the
    chain holds; an operator outside the six rules nothing out. *)
Definition rules_out (op : string) (row_value value : Value)
  : outcome bool :=
  if String.eqb op "=" then Return (py_ne row_value value)
  else if String.eqb op ">" then
    if is_None row_value then Return true else py_le row_value value
  else if String.eqb op "<" then
    if is_None row_value then Return true else py_ge row_value value
  else if String.eqb op ">=" then
    if is_None row_value then Return true else py_lt row_value value
  else if String.eqb op "<=" then
    if is_None row_value then Return true else py_gt row_value value
  else if String.eqb op "!=" then Return (py_eq row_value value)
  else Return false.

(** [for op, value in condition.items()]: [false] is the early
    [return False]. *)
Fixpoint operators_hold (row_value : Value) (ops : list (string * Value))
  : outcome bool :=
  match ops with
  | [] => Return true
  | (op, value) :: ops' =>
      (out <- rules_out op row_value value ;;
       if out then Return false else operators_hold row_value ops')%py
  end.

Definition condition_holds (row_value : Value) (condition : Condition)
  : outcome bool :=
  match condition with
  | COps ops => operators_hold row_value ops
  | CLit literal => Return (negb (py_ne row_value literal))
  end.

Fixpoint _matches_where_clause (row : Row) (where_clause : Where)
  : outcome bool :=
  match where_clause with
  | [] => Return true
  | (col_name, condition) :: where_clause' =>
      let row_value := row_get col_name row in
      (ok <- condition_holds row_value condition ;;
       if ok then _matches_where_clause row where_clause'
       else Return false)%py
  end.

(** [if table['primary_key']:] *)
Definition named (key : option string) : option string :=
  match key with
  | Some "" => None
  | other => other
  end.

(** The loop of [insert_row] over the declared columns. *)
Fixpoint validate_row (columns : Columns) (row_data : Row)
    (validated_row : Row) : outcome Row :=
  match columns with
  | [] => Return validated_row
  | (col_name, col_def) :: columns' =>
      let value := row_get col_name row_data in
      if not_null col_def && is_None value
      then Raise (Exn ValueError
                    ("Column '" ++ col_name ++ "' cannot be NULL"))
      else
        (v <- (if negb (is_None value)
               then _validate_type value (col_type col_def)
               else Return VNone) ;;
         validate_row columns' row_data
           (Dict.set String.eqb col_name v validated_row))%py
  end.

Definition check_primary_key (table_name : string) (table : Table)
    (validated_row : Row) : M unit :=
  match named (tbl_primary_key table) with
  | Some pk =>
      (pk_value <- lift (getitem pk validated_row) ;;
       index <- the_index table_name pk ;;
       if Dict.mem py_eq pk_value index
       then raise (Exn ValueError
                     ("Primary key violation: " ++ py_str pk_value
                      ++ " already exists"))
       else ret tt)%M
  | None => ret tt
  end.

Definition check_unique_key (table_name : string) (table : Table)
    (validated_row : Row) (unique_key : string) : M unit :=
  if negb (match tbl_primary_key table with
           | Some pk => String.eqb unique_key pk
           | None => false
           end)
  then
    (uk_value <- lift (getitem unique_key validated_row) ;;
     if truthy uk_value
     then
       (index <- the_index table_name unique_key ;;
        if Dict.mem py_eq uk_value index
        then raise (Exn ValueError
                      ("Unique constraint violation: " ++ py_str uk_value
                       ++ " already exists"))
        else ret tt)
     else ret tt)%M
  else ret tt.

(** [self.indexes[table_name][index_col][value] = row_id], for a value
    that is not [None] *)
Definition index_row (table_name : string) (row : Row) (row_id : nat)
    (index_col : string) : M unit :=
  let value := row_get index_col row in
  if negb (is_None value)
  then
    (index <- the_index table_name index_col ;;
     store_index table_name index_col (Dict.set py_eq value row_id index))%M
  else ret tt.

Definition insert_row (table_name : string) (row_data : Row) : M nat :=
  (table <- existing_table table_name ;;
   validated_row <- lift (validate_row (tbl_columns table) row_data []) ;;
   check_primary_key table_name table validated_row ;;;
   for_each (check_unique_key table_name table validated_row)
            (tbl_unique_keys table) ;;;
   let row_id := List.length (tbl_rows table) in
   let validated_row :=
     Dict.set String.eqb "_row_id" (VInt (Z.of_nat row_id)) validated_row in
   store_table table_name
     (with_rows table (tbl_rows table ++ [validated_row])) ;;;
   table_indexes <- the_table_indexes table_name ;;
   for_each (index_row table_name validated_row row_id)
            (Dict.keys table_indexes) ;;;
   _save_tables ;;;
   ret row_id)%M.

Fixpoint filter_rows (rows : list Row) (where_clause : Where)
  : outcome (list Row) :=
  match rows with
  | [] => Return []
  | row :: rows' =>
      (ok <- _matches_where_clause row where_clause ;;
       filtered <- filter_rows rows' where_clause ;;
       Return (if ok then row :: filtered else filtered))%py
  end.

(** [if not where_clause:] holds of [None] and of the empty dictionary. *)
Definition no_conditions (where_clause : option Where) : bool :=
  match where_clause with
  | None | Some [] => true
  | Some _ => false
  end.

Definition select_rows (table_name : string) (where_clause : option Where)
  : M (list Row) :=
  (table <- existing_table table_name ;;
   let rows := tbl_rows table in
   match where_clause with
   | None | Some [] => ret rows
   | Some where_clause => lift (filter_rows rows where_clause)
   end)%M.

(** [table['rows'][i]]; the loops that use it run [i] over the
    positions of the list. *)
Definition row_at (table : Table) (i : nat) : Row :=
  nth i (tbl_rows table) [].

Fixpoint replace_nth {A} (i : nat) (x : A) (l : list A) : list A :=
  match l, i with
  | [], _ => []
  | _ :: l', O => x :: l'
  | y :: l', S i' => y :: replace_nth i' x l'
  end.

Fixpoint remove_nth {A} (i : nat) (l : list A) : list A :=
  match l, i with
  | [], _ => []
  | _ :: l', O => l'
  | y :: l', S i' => y :: remove_nth i' l'
  end.

(** [for j, other_row in enumerate(rows): if i != j and
    other_row.get(col_name) == new_value], from position [j] on *)
Fixpoint conflicts_from (j i : nat) (col_name : string) (new_value : Value)
    (rows : list Row) : bool :=
  match rows with
  | [] => false
  | other_row :: rows' =>
      (negb (Nat.eqb i j) && py_eq (row_get col_name other_row) new_value)
      || conflicts_from (S j) i col_name new_value rows'
  end.

(** The body of the loop over [updates.items()], for row [i]. The row
    is a dictionary shared with the table: assigning to it changes the
    table. *)
Definition update_column (table_name : string) (i : nat)
    (update : string * Value) : M unit :=
  let (col_name, new_value) := update in
  (table <- the_table table_name ;;
   match Dict.get String.eqb col_name (tbl_columns table) with
   | None => ret tt
   | Some col_def =>
       (if primary_key col_def
           || existsb (String.eqb col_name) (tbl_unique_keys table)
        then
          if conflicts_from 0 i col_name new_value (tbl_rows table)
          then raise (Exn ValueError
                        ("Constraint violation: " ++ py_str new_value
                         ++ " already exists"))
          else ret tt
        else ret tt) ;;;
       let row := row_at table i in
       let old_value := row_get col_name row in
       v <- lift (_validate_type new_value (col_type col_def)) ;;
       store_table table_name
         (with_rows table
            (replace_nth i (Dict.set String.eqb col_name v row)
                         (tbl_rows table))) ;;;
       table_indexes <- the_table_indexes table_name ;;
       match Dict.get String.eqb col_name table_indexes with
       | Some index =>
           let index :=
             if Dict.mem py_eq old_value index
             then Dict.del py_eq old_value index else index in
           store_index table_name col_name
             (Dict.set py_eq new_value i index)
       | None => ret tt
       end
   end)%M.

(** The loop of [update_rows] over [enumerate(table['rows'])]; [count]
    is [updated_count]. *)
Fixpoint update_loop (table_name : string) (updates : list (string * Value))
    (where_clause : Where) (positions : list nat) (count : nat) : M nat :=
  match positions with
  | [] => ret count
  | i :: positions' =>
      (table <- the_table table_name ;;
       hit <- lift (_matches_where_clause (row_at table i) where_clause) ;;
       if hit
       then
         for_each (update_column table_name i) updates ;;;
         update_loop table_name updates where_clause positions' (S count)
       else update_loop table_name updates where_clause positions' count)%M
  end.

Definition update_rows (table_name : string)
    (updates : list (string * Value)) (where_clause : Where) : M nat :=
  (table <- existing_table table_name ;;
   updated_count <-
     update_loop table_name updates where_clause
       (seq 0 (List.length (tbl_rows table))) 0 ;;
   _save_tables ;;;
   ret updated_count)%M.

(** The positions of the rows that match, in increasing order. *)
Fixpoint matching_from (i : nat) (rows : list Row) (where_clause : Where)
  : outcome (list nat) :=
  match rows with
  | [] => Return []
  | row :: rows' =>
      (hit <- _matches_where_clause row where_clause ;;
       found <- matching_from (S i) rows' where_clause ;;
       Return (if hit then i :: found else found))%py
  end.

(** [if value in index: del index[value]] *)
Definition unindex_row (table_name : string) (row : Row)
    (index_col : string) : M unit :=
  let value := row_get index_col row in
  (index <- the_index table_name index_col ;;
   if Dict.mem py_eq value index
   then store_index table_name index_col (Dict.del py_eq value index)
   else ret tt)%M.

(** The body of the loop over [reversed(rows_to_delete)]. *)
Definition delete_row (table_name : string) (i : nat) : M unit :=
  (table <- the_table table_name ;;
   let row := row_at table i in
   table_indexes <- the_table_indexes table_name ;;
   for_each (unindex_row table_name row) (Dict.keys table_indexes) ;;;
   store_table table_name
     (with_rows table (remove_nth i (tbl_rows table))))%M.

(** The second loop of [_rebuild_indexes]: row [i] gets [_row_id = i]
    and every indexed column whose value is not [None] maps it to [i]. *)
Definition reindex_value (row : Row) (i : nat)
    (table_indexes : TableIndexes) (index_col : string) : TableIndexes :=
  let value := row_get index_col row in
  if negb (is_None value)
  then
    match Dict.get String.eqb index_col table_indexes with
    | Some index =>
        Dict.set String.eqb index_col (Dict.set py_eq value i index)
                 table_indexes
    | None => table_indexes
    end
  else table_indexes.

Fixpoint reindex_rows (i : nat) (rows : list Row)
    (table_indexes : TableIndexes) : list Row * TableIndexes :=
  match rows with
  | [] => ([], table_indexes)
  | row :: rows' =>
      let row := Dict.set String.eqb "_row_id" (VInt (Z.of_nat i)) row in
      let table_indexes :=
        fold_left (reindex_value row i) (Dict.keys table_indexes)
                  table_indexes in
      let (rows'', table_indexes') :=
        reindex_rows (S i) rows' table_indexes in
      (row :: rows'', table_indexes')
  end.

(** The first loop of [_rebuild_indexes]: an empty index for each
    PRIMARY KEY or UNIQUE column, in declaration order. *)
Definition fresh_indexes (columns : Columns) : TableIndexes :=
  fold_left
    (fun table_indexes c =>
       if primary_key (snd c) || unique (snd c)
       then Dict.set String.eqb (fst c) [] table_indexes
       else table_indexes)
    columns [].

Definition _rebuild_indexes (table_name : string) : M unit :=
  (table <- the_table table_name ;;
   store_table_indexes table_name [] ;;;
   let (rows, table_indexes) :=
     reindex_rows 0 (tbl_rows table) (fresh_indexes (tbl_columns table)) in
   store_table_indexes table_name table_indexes ;;;
   store_table table_name (with_rows table rows))%M.

Definition delete_rows (table_name : string) (where_clause : Where)
  : M nat :=
  (table <- existing_table table_name ;;
   rows_to_delete <-
     lift (matching_from 0 (tbl_rows table) where_clause) ;;
   for_each (delete_row table_name) (List.rev rows_to_delete) ;;;
   _rebuild_indexes table_name ;;;
   _save_tables ;;;
   ret (List.length rows_to_delete))%M.

(** What [get_table_schema] returns. *)
Record Schema : Type := {
  schema_columns : Columns;
  schema_primary_key : option string;
  schema_unique_keys : list string;
  row_count : nat
}.

Definition get_table_schema (table_name : string) : M Schema :=
  (table <- existing_table table_name ;;
   ret {| schema_columns := tbl_columns table;
          schema_primary_key := tbl_primary_key table;
          schema_unique_keys := tbl_unique_keys table;
          row_count := List.length (tbl_rows table) |})%M.

Definition list_tables : M (list string) :=
  (tbls <- read tables ;; ret (Dict.keys tbls))%M.


End Storage.

Notation "x <- c ;; k" := (bind c (fun x => k))
  (at level 61, c at next level, right associativity) : engine_scope.
Notation "c ;;; k" := (bind c (fun _ => k))
  (at level 61, right associativity) : engine_scope.

End StorageEngine.

(** ** The query executor ([query_executor.py]) *)

Module QueryExecutor.
Section Executor.
Context {PF : PyFloat}.
Import StorageEngine.
Local Open Scope engine_scope.

(** One entry of the list under ['columns'] of a DESCRIBE result. *)
Record ColumnInfo : Type := {
  column : string;
  type : string;
  constraints : option string
}.

(** What a key of a result dictionary can hold. *)
Inductive Payload : Type :=
| PBool (b : bool)
| PInt (n : nat)
| PStr (s : string)
| PRows (rows : list Row)
| PNames (names : list string)
| PColumns (infos : list ColumnInfo).

(** The dictionary [execute] returns. *)
Definition Result : Type := list (string * Payload).

Definition failure (e : exn) : Result :=
  [("success", PBool false); ("error", PStr (exn_str e))].

(** [try: body  except Exception as e: return {'success': False,
    'error': str(e)}] *)
Definition guarded (body : M Result) : M Result :=
  fun st =>
    match body st with
    | (Return r, st') => (Return r, st')
    | (Raise e, st') => (Return (failure e), st')
    end.

Definition _execute_create_table (table : string) (columns : Columns)
  : M Result :=
  guarded
    (create_table table columns ;;;
     ret [("success", PBool true);
          ("message", PStr ("Table '" ++ table ++ "' created successfully"))]).

(** [for col, val in zip(names, values): row_data[col] = val] *)
Definition zip_row (names : list string) (values : list Value) : Row :=
  fold_left (fun row_data cv => Dict.set String.eqb (fst cv) (snd cv) row_data)
            (combine names values) [].

Definition _execute_insert (table_name : string)
    (specified : option (list string)) (values : list Value) : M Result :=
  guarded
    (schema <- get_table_schema table_name ;;
     let columns := Dict.keys (schema_columns schema) in
     row_data <-
       match specified with
       | Some specified_columns =>
           if negb (Nat.eqb (List.length specified_columns)
                            (List.length values))
           then raise (Exn ValueError
                         "Column count doesn't match value count")
           else ret (zip_row specified_columns values)
       | None =>
           if negb (Nat.eqb (List.length values) (List.length columns))
           then raise (Exn ValueError
                         ("Expected " ++ Str.of_nat (List.length columns)
                          ++ " values, got "
                          ++ Str.of_nat (List.length values)))
           else ret (zip_row columns values)
       end ;;
     row_id <- insert_row table_name row_data ;;
     ret [("success", PBool true);
          ("message", PStr ("Row inserted with ID " ++ Str.of_nat row_id));
          ("row_id", PInt row_id)]).

(** [columns == ['*']] *)
Definition is_star (columns : list string) : bool :=
  match columns with
  | [c] => String.eqb c "*"
  | _ => false
  end.

(** [{k: v for k, v in row.items() if not k.startswith('_')}] *)
Definition clean_row (row : Row) : Row :=
  filter (fun kv => negb (Str.startswith "_" (fst kv))) row.

(** [for col in columns: if col in row: projected_row[col] = row[col]] *)
Definition copy_field (row projected_row : Row) (col : string) : Row :=
  match Dict.get String.eqb col row with
  | Some v => Dict.set String.eqb col v projected_row
  | None => projected_row
  end.

Definition project_row (columns : list string) (row : Row) : Row :=
  fold_left (copy_field row) columns [].

Definition rows_result (result_rows : list Row) : Result :=
  [("success", PBool true);
   ("rows", PRows result_rows);
   ("count", PInt (List.length result_rows))].

Definition _execute_select (columns : list string) (table_name : string)
    (where_clause : option Where) : M Result :=
  guarded
    (rows <- select_rows table_name where_clause ;;
     let result_rows :=
       if is_star columns then map clean_row rows
       else map (project_row columns) rows in
     ret (rows_result result_rows)).

(** [table, col = name.split('.', 1)] when the name has a dot *)
Definition qualified (name default_table : string) : string * string :=
  match Str.split_once "." name with
  | Some (table, col) => (table, col)
  | None => (default_table, name)
  end.

Definition _evaluate_join_condition (row1 row2 : Row)
    (condition : string * string) (table1 table2 : string) : bool :=
  let (left_table, left_col) := qualified (fst condition) table1 in
  let (right_table, right_col) := qualified (snd condition) table2 in
  let left_val :=
    if String.eqb left_table table1 then row_get left_col row1
    else row_get left_col row2 in
  let right_val :=
    if String.eqb right_table table2 then row_get right_col row2
    else row_get right_col row1 in
  py_eq left_val right_val.

(** The columns of one side of a joined row, prefixed by the table. *)
Definition add_prefixed (table : string) (row joined_row : Row) : Row :=
  fold_left
    (fun joined_row cv =>
       if negb (Str.startswith "_" (fst cv))
       then Dict.set String.eqb (table ++ "." ++ fst cv)%string (snd cv)
                     joined_row
       else joined_row)
    row joined_row.

Definition join_rows (table1 table2 : string) (condition : string * string)
    (rows1 rows2 : list Row) : list Row :=
  flat_map
    (fun row1 =>
       flat_map
         (fun row2 =>
            if _evaluate_join_condition row1 row2 condition table1 table2
            then [add_prefixed table2 row2 (add_prefixed table1 row1 [])]
            else [])
         rows2)
    rows1.

(** [for row_col in row: if row_col.endswith(f".{col}"): ...; break] *)
Definition by_suffix (col : string) (row : Row) : option Value :=
  option_map snd
    (find (fun kv => Str.endswith ("." ++ col) (fst kv)) row).

(** The value [_matches_where_clause_join] tests for a column name. *)
Definition join_row_value (col_name : string) (row : Row) : Value :=
  match Dict.get String.eqb col_name row with
  | Some v => v
  | None =>
      match by_suffix col_name row with
      | Some v => v
      | None => VNone
      end
  end.

Fixpoint _matches_where_clause_join (row : Row) (where_clause : Where)
  : outcome bool :=
  match where_clause with
  | [] => Return true
  | (col_name, condition) :: where_clause' =>
      let row_value := join_row_value col_name row in
      (ok <- condition_holds row_value condition ;;
       if ok then _matches_where_clause_join row where_clause'
       else Return false)%py
  end.

Fixpoint filter_joined (rows : list Row) (where_clause : Where)
  : outcome (list Row) :=
  match rows with
  | [] => Return []
  | row :: rows' =>
      (ok <- _matches_where_clause_join row where_clause ;;
       filtered <- filter_joined rows' where_clause ;;
       Return (if ok then row :: filtered else filtered))%py
  end.

Definition project_joined (columns : list string) (row : Row) : Row :=
  fold_left
    (fun projected_row col =>
       let col := Str.strip col in
       match Dict.get String.eqb col row with
       | Some v => Dict.set String.eqb col v projected_row
       | None =>
           match by_suffix col row with
           | Some v => Dict.set String.eqb col v projected_row
           | None => projected_row
           end
       end)
    columns [].

Definition _execute_select_join (table1 table2 : string)
    (join_condition : string * string) (columns : list string)
    (where_clause : option Where) : M Result :=
  guarded
    (rows1 <- select_rows table1 None ;;
     rows2 <- select_rows table2 None ;;
     let joined_rows := join_rows table1 table2 join_condition rows1 rows2 in
     joined_rows <-
       (if no_conditions where_clause then ret joined_rows
        else
          match where_clause with
          | Some where_clause =>
              lift (filter_joined joined_rows where_clause)
          | None => ret joined_rows
          end) ;;
     let result_rows :=
       if is_star columns then joined_rows
       else map (project_joined columns) joined_rows in
     ret (rows_result result_rows)).

Definition _execute_update (table_name : string)
    (updates : list (string * Value)) (where_clause : option Where)
  : M Result :=
  guarded
    (where_clause <-
       match where_clause with
       | Some ((_ :: _) as where_clause) => ret where_clause
       | _ => raise (Exn ValueError
                       "UPDATE without WHERE clause not allowed for safety")
       end ;;
     updated_count <- update_rows table_name updates where_clause ;;
     ret [("success", PBool true);
          ("message",
           PStr ("Updated " ++ Str.of_nat updated_count ++ " row(s)"));
          ("updated_count", PInt updated_count)]).

Definition _execute_delete (table_name : string)
    (where_clause : option Where) : M Result :=
  guarded
    (where_clause <- lift (match where_clause with
                           | Some w => Return w
                           | None => Raise (Exn KeyError (Str.repr "where"))
                           end) ;;
     deleted_count <- delete_rows table_name where_clause ;;
     ret [("success", PBool true);
          ("message",
           PStr ("Deleted " ++ Str.of_nat deleted_count ++ " row(s)"));
          ("deleted_count", PInt deleted_count)]).

Definition _execute_show_tables : M Result :=
  guarded
    (tables <- list_tables ;;
     ret [("success", PBool true);
          ("tables", PNames tables);
          ("count", PInt (List.length tables))]).

Definition column_info (c : string * ColumnDef) : ColumnInfo :=
  let (col_name, col_def) := c in
  let constraints :=
    (if primary_key col_def then ["PRIMARY KEY"] else [])
    ++ (if unique col_def && negb (primary_key col_def)
        then ["UNIQUE"] else [])
    ++ (if not_null col_def then ["NOT NULL"] else []) in
  {| column := col_name;
     type := col_type col_def;
     constraints :=
       match constraints with
       | [] => None
       | _ => Some (Str.join ", " constraints)
       end |}.

Definition _execute_describe (table_name : string) : M Result :=
  guarded
    (schema <- get_table_schema table_name ;;
     let columns_info := map column_info (schema_columns schema) in
     ret [("success", PBool true);
          ("table", PStr table_name);
          ("columns", PColumns columns_info);
          ("row_count", PInt (row_count schema))]).

(** The dispatch on [parsed_query['type']]. *)
Definition dispatch (parsed_query : ParsedQuery) : M Result :=
  match parsed_query with
  | CREATE_TABLE table columns => _execute_create_table table columns
  | INSERT table columns values => _execute_insert table columns values
  | SELECT columns table where_clause =>
      _execute_select columns table where_clause
  | SELECT_JOIN table1 table2 join_condition columns where_clause =>
      _execute_select_join table1 table2 join_condition columns where_clause
  | UPDATE table updates where_clause =>
      _execute_update table updates where_clause
  | DELETE table where_clause => _execute_delete table where_clause
  | SHOW_TABLES => _execute_show_tables
  | DESCRIBE table => _execute_describe table
  end.

Definition execute (query : string) : M Result :=
  guarded
    (parsed_query <- lift (QueryParser.parse query) ;;
     dispatch parsed_query).

(** [show_tables] and [describe_table], the convenience methods *)
Definition show_tables : M Result := _execute_show_tables.

Definition describe_table (table_name : string) : M Result :=
  _execute_describe table_name.

(** Running a list of statements, the results in order. *)
Fixpoint run_all (queries : list string) (st : Engine)
  : list (outcome Result) * Engine :=
  match queries with
  | [] => ([], st)
  | q :: queries' =>
      let (r, st') := execute q st in
      let (rs, st'') := run_all queries' st' in
      (r :: rs, st'')
  end.

End Executor.
End QueryExecutor.

(** ** The inventory application ([backend/main.py])

    The web application talks to the engine through [execute] only. Two
    of its functions are modelled: the helper that prepares a text for a
    statement, and the initialization of the schema at start-up (what it
    prints is left out). *)

Module Inventory.
Section Inventory.
Context {PF : PyFloat}.
Import StorageEngine QueryExecutor.
Local Open Scope engine_scope.

(** [s.replace(old, new)] for a one-character [old] *)
Fixpoint replace_char (old : ascii) (new s : string) : string :=
  match s with
  | EmptyString => EmptyString
  | String c s' =>
      if Ascii.eqb c old then (new ++ replace_char old new s')%string
      else String c (replace_char old new s')
  end.

Definition escape_string (value : option string) : string :=
  match value with
  | None => ""
  | Some value => replace_char "'" "''" value
  end.

Definition nl : string := String (ascii_of_nat 10) "".

(** The two statements of [initialize_schema], line by line as the
    source writes them between triple quotes. *)
Definition create_categories : string :=
  String.concat nl
    [""; "            CREATE TABLE categories (";
     "                id INT PRIMARY KEY,";
     "                name VARCHAR(100) NOT NULL,";
     "                description VARCHAR(500)";
     "            )";
     "            "].

Definition create_products : string :=
  String.concat nl
    [""; "            CREATE TABLE products (";
     "                id INT PRIMARY KEY,";
     "                name VARCHAR(200) NOT NULL,";
     "                description VARCHAR(1000),";
     "                price FLOAT NOT NULL,";
     "                quantity INT NOT NULL,";
     "                category_id INT NOT NULL,";
     "                sku VARCHAR(50) UNIQUE,";
     "                created_at DATETIME";
     "            )";
     "            "].

(** [tables.get('tables', [])] *)
Definition listed (result : Result) : list string :=
  match Dict.get String.eqb "tables" result with
  | Some (PNames names) => names
  | _ => []
  end.

(** [try: body  except Exception as e: print(...)] *)
Definition attempt (body : M unit) : M unit :=
  fun st =>
    match body st with
    | (Return _, st') => (Return tt, st')
    | (Raise _, st') => (Return tt, st')
    end.

Definition initialize_schema : M unit :=
  attempt
    (tables <- show_tables ;;
     (if negb (existsb (String.eqb "categories") (listed tables))
      then execute create_categories ;;; ret tt
      else ret tt) ;;;
     (if negb (existsb (String.eqb "products") (listed tables))
      then execute create_products ;;; ret tt
      else ret tt)).

End Inventory.
End Inventory.

(** ** Databases built by running statements

    Each is the state [execute] leaves after a list of statements run
    against the empty engine, written out in full; the lemmas
    [*_is_run] below tie each to its statements. *)

Module Scenario.
Import StorageEngine QueryExecutor.

(** The categories table of the specification's scenarios 1 and 2. *)
Definition categories_statements : list string :=
  ["CREATE TABLE categories (id INT PRIMARY KEY, name VARCHAR(100) NOT NULL)";
   "INSERT INTO categories VALUES (1, 'Books')"].

Definition categories_db : Engine :=
  Eval vm_compute in snd (run_all categories_statements empty_engine).

(** The same database after a restart: a new engine on the files the
    first one left. *)
Definition categories_reloaded : Engine :=
  Eval vm_compute in __init__ categories_db.

(** A table with a nullable column, one row NULL in it. *)
Definition notes_statements : list string :=
  ["CREATE TABLE t (id INT PRIMARY KEY, note VARCHAR(10))";
   "INSERT INTO t VALUES (1, NULL)";
   "INSERT INTO t VALUES (2, 'b')"].

Definition notes_db : Engine :=
  Eval vm_compute in snd (run_all notes_statements empty_engine).

(** A table with a UNIQUE column besides its primary key. *)
Definition items_statements : list string :=
  ["CREATE TABLE items (id INT PRIMARY KEY, code INT UNIQUE)";
   "INSERT INTO items VALUES (1, 10)";
   "INSERT INTO items VALUES (2, 20)"].

Definition items_db : Engine :=
  Eval vm_compute in snd (run_all items_statements empty_engine).

(** The same table, the value 0 inserted twice in the UNIQUE column. *)
Definition zeros_statements : list string :=
  ["CREATE TABLE items (id INT PRIMARY KEY, code INT UNIQUE)";
   "INSERT INTO items VALUES (1, 0)";
   "INSERT INTO items VALUES (2, 0)"].

Definition zeros_results : list (outcome Result) :=
  Eval vm_compute in fst (run_all zeros_statements empty_engine).

Definition zeros_db : Engine :=
  Eval vm_compute in snd (run_all zeros_statements empty_engine).

(** [update_rows('items', {'code': 99}, {'id': {'>': 0}})] on [items_db]:
    the state it leaves when it raises at the second row. *)
Definition items_half_updated : Engine :=
  Eval vm_compute in
    snd (update_rows "items" [("code", VInt 99)]
           [("id", COps [(">", VInt 0)])] items_db).

(** [update_rows('items', {'code': None}, {'id': 1})] on [items_db]. *)
Definition items_code_null : Engine :=
  Eval vm_compute in
    snd (update_rows "items" [("code", VNone)] [("id", CLit (VInt 1))]
           items_db).

End Scenario.

(** * Properties *)

Import StorageEngine QueryExecutor.

(** ** Vocabulary of the statements *)

Section Vocabulary.
Context {PF : PyFloat}.

(** The four ordering operators of a WHERE conjunct. *)
Definition ordering_operator (op : string) : Prop :=
  In op [">"; "<"; ">="; "<="].

(** The conjunct [col op literal] occurs in a WHERE dictionary. *)
Definition has_test (col op : string) (literal : Value)
    (where_clause : Where) : Prop :=
  exists ops, In (col, COps ops) where_clause /\ In (op, literal) ops.

(** What the two matchers of the engine share: they test, conjunct by
    conjunct, the value [tested] finds. *)
Definition walks (matcher : Row -> Where -> outcome bool)
    (tested : string -> Row -> Value) : Prop :=
  (forall row, matcher row [] = Return true)
  /\ (forall row col cond rest,
        matcher row ((col, cond) :: rest)
        = obind (condition_holds (tested col row) cond)
                (fun ok => if ok then matcher row rest else Return false)).

(** How a matcher treats NULL, [tested col row] being the value it tests
    for the column [col] of [row]:
    - a conjunct with an ordering operator is never satisfied when the
      tested value is NULL or the literal is NULL, whatever else the
      predicate holds;
    - on a NULL tested value, equality (plain or keyed by [=]) holds
      exactly for the NULL literal, and [!=] exactly for the others;
    - against the NULL literal, equality holds exactly for a NULL tested
      value, and [!=] exactly for the others. *)
Definition null_semantics (matcher : Row -> Where -> outcome bool)
    (tested : string -> Row -> Value) : Prop :=
  forall (row : Row) (col : string),
    (forall where_clause op literal,
        ordering_operator op ->
        has_test col op literal where_clause ->
        tested col row = VNone \/ literal = VNone ->
        matcher row where_clause <> Return true)
    /\ (forall literal,
          tested col row = VNone ->
          matcher row [(col, CLit literal)] = Return (is_None literal)
          /\ matcher row [(col, COps [("=", literal)])]
             = Return (is_None literal)
          /\ matcher row [(col, COps [("!=", literal)])]
             = Return (negb (is_None literal)))
    /\ (matcher row [(col, CLit VNone)] = Return (is_None (tested col row))
        /\ matcher row [(col, COps [("=", VNone)])]
           = Return (is_None (tested col row))
        /\ matcher row [(col, COps [("!=", VNone)])]
           = Return (negb (is_None (tested col row)))).

(** The boolean under ['success'] of a result, when there is one. *)
Definition success_flag (r : Result) : option bool :=
  match Dict.get String.eqb "success" r with
  | Some (PBool b) => Some b
  | _ => None
  end.

(** The failure shape: [{success: False, error: <string>}]. *)
Definition failure_record (r : Result) : Prop :=
  exists error, r = [("success", PBool false); ("error", PStr error)].

(** The success shape, by plan variant. *)
Definition success_record (q : ParsedQuery) (r : Result) : Prop :=
  match q with
  | CREATE_TABLE table _ =>
      r = [("success", PBool true);
           ("message",
            PStr ("Table '" ++ table ++ "' created successfully"))]
  | INSERT _ _ _ =>
      exists n,
        r = [("success", PBool true);
             ("message", PStr ("Row inserted with ID " ++ Str.of_nat n));
             ("row_id", PInt n)]
  | SELECT _ _ _ | SELECT_JOIN _ _ _ _ _ =>
      exists rows,
        r = [("success", PBool true);
             ("rows", PRows rows);
             ("count", PInt (List.length rows))]
  | UPDATE _ _ _ =>
      exists n,
        r = [("success", PBool true);
             ("message", PStr ("Updated " ++ Str.of_nat n ++ " row(s)"));
             ("updated_count", PInt n)]
  | DELETE _ _ =>
      exists n,
        r = [("success", PBool true);
             ("message", PStr ("Deleted " ++ Str.of_nat n ++ " row(s)"));
             ("deleted_count", PInt n)]
  | SHOW_TABLES =>
      exists names,
        r = [("success", PBool true);
             ("tables", PNames names);
             ("count", PInt (List.length names))]
  | DESCRIBE table =>
      exists infos n,
        r = [("success", PBool true);
             ("table", PStr table);
             ("columns", PColumns infos);
             ("row_count", PInt n)]
  end.


(** A conjunct that holds none of the six comparison operators. *)
Definition operator_free (part : string) : Prop :=
  forall op, In op QueryParser.operators -> Str.contains op part = false.

(** The AND-separated conjuncts of a WHERE text, trimmed. *)
Definition conjuncts (where_str : string) : list string :=
  map Str.strip (Re.split QueryParser.and_pattern where_str).


(** The table and its indexes are in the engine. *)
Definition present (table_name : string) (st : Engine) : Prop :=
  (exists table, Dict.get String.eqb table_name (tables st) = Some table)
  /\ (exists table_indexes,
        Dict.get String.eqb table_name (indexes st) = Some table_indexes).

(** The two files hold in [st'] what they hold in [st]. *)
Definition same_files (st st' : Engine) : Prop :=
  tables_json st' = tables_json st /\ indexes_json st' = indexes_json st.

(** How [update_rows] fails at row [i], from the state [st_i] in which
    it reaches that row, ending in [st']: the WHERE test of the row
    raises, nothing changed; or the row matches, some of the assignments
    are applied, giving [st'], and the next one raises, changing
    nothing. *)
Definition failed_at (table_name : string)
    (updates : list (string * Value)) (where_clause : Where)
    (i : nat) (e : exn) (st_i st' : Engine) : Prop :=
  (exists table_i,
     Dict.get String.eqb table_name (tables st_i) = Some table_i
     /\ _matches_where_clause (row_at table_i i) where_clause = Raise e
     /\ st' = st_i)
  \/
  (exists table_i applied failing rest,
     Dict.get String.eqb table_name (tables st_i) = Some table_i
     /\ _matches_where_clause (row_at table_i i) where_clause = Return true
     /\ updates = applied ++ failing :: rest
     /\ for_each (update_column table_name i) applied st_i
        = (Return tt, st')
     /\ update_column table_name i failing st' = (Raise e, st')).


(** [self.tables[table_name]['rows']], empty for a table that is not
    there. *)
Definition rows_of (table_name : string) (st : Engine) : list Row :=
  match Dict.get String.eqb table_name (tables st) with
  | Some table => tbl_rows table
  | None => []
  end.

(** [self.indexes[table_name][col]], empty when there is none. *)
Definition index_of (table_name col : string) (st : Engine) : Index :=
  match Dict.get String.eqb table_name (indexes st) with
  | Some table_indexes =>
      match Dict.get String.eqb col table_indexes with
      | Some index => index
      | None => []
      end
  | None => []
  end.



(** Looking up in [index] a value equal to what a row holds, not NULL,
    in the column [col] finds an entry: the half of the index invariant
    that the duplicate check relies on. *)
Definition index_covers (col : string) (rows : list Row) (index : Index)
  : Prop :=
  forall row v,
    In row rows -> is_None (row_get col row) = false ->
    py_eq v (row_get col row) = true ->
    Dict.mem py_eq v index = true.


(** The values of the column [col], row by row. *)
Definition values_in (col : string) (rows : list Row) : list Value :=
  map (row_get col) rows.

(** Two values, the second from a later row: when neither is NULL the
    later one does not equal the earlier one. *)
Definition differ (earlier later : Value) : Prop :=
  is_None later = false -> is_None earlier = false ->
  py_eq later earlier = false.

(** Along the rows, a value of the column [col] that is not NULL differs
    from those of the rows before it. *)
Definition later_differs (col : string) (rows : list Row) : Prop :=
  ForallOrdPairs differ (values_in col rows).

(** Every value among [values] that is not NULL is a key of the index. *)
Definition covered (values : list Value) (index : Index) : Prop :=
  forall v, In v values -> is_None v = false -> In v (Dict.keys index).

(** Every value of the column [col] that is not NULL is a key of the
    index. *)
Definition keys_cover (col : string) (rows : list Row) (index : Index)
  : Prop :=
  covered (values_in col rows) index.

(** The positions [from], [from + 1], ... as the engine writes them in
    the field [_row_id]. *)
Definition ordinal (i : nat) : Value := VInt (Z.of_nat i).

Definition ordinals (from n : nat) : list Value := map ordinal (seq from n).

(** The field [_row_id] of each row is its position, and the index has
    no key besides these positions. *)
Definition numbered (rows : list Row) (index : Index) : Prop :=
  values_in "_row_id" rows = ordinals 0 (List.length rows)
  /\ forall k, In k (Dict.keys index) ->
               In k (ordinals 0 (List.length rows)).

(** What the engine keeps of a table with a primary key: the column is
    declared PRIMARY KEY, its values differ along the rows, and its index
    holds each of them.  A primary key named [_row_id] is the one column
    the engine writes itself; its index is then the index of the row
    positions. *)
Definition pk_invariant (table : Table) (table_indexes : TableIndexes)
  : Prop :=
  forall pk,
    named (tbl_primary_key table) = Some pk ->
    (exists col_def,
        In (pk, col_def) (tbl_columns table) /\ primary_key col_def = true)
    /\ later_differs pk (tbl_rows table)
    /\ exists index,
         Dict.get String.eqb pk table_indexes = Some index
         /\ keys_cover pk (tbl_rows table) index
         /\ (pk = "_row_id" -> numbered (tbl_rows table) index).

Definition engine_invariant (st : Engine) : Prop :=
  forall table_name table,
    Dict.get String.eqb table_name (tables st) = Some table ->
    exists table_indexes,
      Dict.get String.eqb table_name (indexes st) = Some table_indexes
      /\ pk_invariant table table_indexes.

(** The states the engine reaches from the empty one by [create_table],
    [insert_row] and [delete_rows], whatever their arguments and whether
    they return or raise. *)
Inductive built : Engine -> Prop :=
| built_empty : built empty_engine
| built_create (st : Engine) (table_name : string) (columns : Columns) :
    built st -> built (snd (create_table table_name columns st))
| built_insert (st : Engine) (table_name : string) (row_data : Row) :
    built st -> built (snd (insert_row table_name row_data st))
| built_delete (st : Engine) (table_name : string) (where_clause : Where) :
    built st -> built (snd (delete_rows table_name where_clause st)).


(** From [st] to [st'] the tables other than [table_name] and their
    indexes stay as they are. *)
Definition others_kept (table_name : string) (st st' : Engine) : Prop :=
  forall other,
    other <> table_name ->
    Dict.get String.eqb other (tables st')
    = Dict.get String.eqb other (tables st)
    /\ Dict.get String.eqb other (indexes st')
       = Dict.get String.eqb other (indexes st).

(** The two files hold what the memory holds. *)
Definition saved (st : Engine) : Prop :=
  tables_json st = tables st /\ indexes_json st = indexes st.

(** The PRIMARY KEY columns and the UNIQUE columns of a declaration, in
    declaration order. *)
Definition primary_keys_of (columns : Columns) : list string :=
  map fst (filter (fun c => primary_key (snd c)) columns).

Definition unique_keys_of (columns : Columns) : list string :=
  map fst (filter (fun c => unique (snd c)) columns).

(** The table [create_table] stores for a declaration. *)
Definition new_table (columns : Columns) : Table :=
  {| tbl_columns := columns; tbl_rows := [];
     tbl_primary_key := hd_error (primary_keys_of columns);
     tbl_unique_keys := unique_keys_of columns |}.

(** The indexes [create_table] stores: an empty one per key column. *)
Definition new_indexes (columns : Columns) : TableIndexes :=
  fold_left (fun t key => Dict.set String.eqb key ([] : Index) t)
            (primary_keys_of columns ++ unique_keys_of columns) [].

(** Two tables with the same declaration: columns and keys. *)
Definition same_schema (table table' : Table) : Prop :=
  tbl_columns table' = tbl_columns table
  /\ tbl_primary_key table' = tbl_primary_key table
  /\ tbl_unique_keys table' = tbl_unique_keys table.

(** The predicate a statement runs with: none is the empty one. *)
Definition where_of (where_clause : option Where) : Where :=
  match where_clause with
  | Some w => w
  | None => []
  end.

(** The WHERE test of the row returns [True]. *)
Definition matches (where_clause : Where) (row : Row) : bool :=
  match _matches_where_clause row where_clause with
  | Return true => true
  | _ => false
  end.

(** The rows with [_row_id] set to their positions, counted from [i]. *)
Fixpoint renumbered (i : nat) (rows : list Row) : list Row :=
  match rows with
  | [] => []
  | row :: rows' =>
      Dict.set String.eqb "_row_id" (ordinal i) row :: renumbered (S i) rows'
  end.

(** The row [insert_row] appends for a validated row, at position [n]. *)
Definition stored_row (n : nat) (validated_row : Row) : Row :=
  Dict.set String.eqb "_row_id" (ordinal n) validated_row.

(** From [st] to [st'] the table [table_name] was created with the
    declaration [columns]: it was not there, it is there without rows
    and with an empty index per key column, the other tables and indexes
    are as before, and the files are written. *)
Definition created (table_name : string) (columns : Columns)
    (st st' : Engine) : Prop :=
  Dict.get String.eqb table_name (tables st) = None
  /\ tables st'
     = Dict.set String.eqb table_name (new_table columns) (tables st)
  /\ indexes st'
     = Dict.set String.eqb table_name (new_indexes columns) (indexes st)
  /\ saved st'.

(** From [st] to [st'] the row [row_data] was inserted in [table_name]
    at position [n]: the validated row, with its [_row_id], is the new
    last row; the other tables and their indexes are as before, and the
    files are written. *)
Definition inserted (table_name : string) (row_data : Row) (n : nat)
    (st st' : Engine) : Prop :=
  exists table validated_row,
    Dict.get String.eqb table_name (tables st) = Some table
    /\ validate_row (tbl_columns table) row_data [] = Return validated_row
    /\ n = List.length (tbl_rows table)
    /\ tables st'
       = Dict.set String.eqb table_name
           (with_rows table (tbl_rows table ++ [stored_row n validated_row]))
           (tables st)
    /\ (exists table_indexes',
          Dict.get String.eqb table_name (indexes st') = Some table_indexes')
    /\ (forall other, other <> table_name ->
          Dict.get String.eqb other (indexes st')
          = Dict.get String.eqb other (indexes st))
    /\ saved st'.

(** From [st] to [st'] the rows of [table_name] that match were deleted,
    [n] of them: the others stay in their order, numbered anew; the other
    tables and their indexes are as before, and the files are written. *)
Definition deleted (table_name : string) (where_clause : Where) (n : nat)
    (st st' : Engine) : Prop :=
  exists table,
    Dict.get String.eqb table_name (tables st) = Some table
    /\ n = List.length (filter (matches where_clause) (tbl_rows table))
    /\ Dict.get String.eqb table_name (tables st')
       = Some (with_rows table
                 (renumbered 0
                    (filter (fun row => negb (matches where_clause row))
                            (tbl_rows table))))
    /\ (exists table_indexes',
          Dict.get String.eqb table_name (indexes st') = Some table_indexes')
    /\ others_kept table_name st st'
    /\ saved st'.

(** In every table the field [_row_id] of a row is its position. *)
Definition row_ids_are_positions (st : Engine) : Prop :=
  forall table_name table,
    Dict.get String.eqb table_name (tables st) = Some table ->
    values_in "_row_id" (tbl_rows table)
    = ordinals 0 (List.length (tbl_rows table)).

(** What a plan does to the engine when it changes it: the effect of
    one mutation. *)
Definition statement_effect (q : ParsedQuery) (st st' : Engine) : Prop :=
  match q with
  | CREATE_TABLE table columns => created table columns st st'
  | INSERT table _ _ => exists row_data n, inserted table row_data n st st'
  | DELETE table (Some where_clause) =>
      exists n, deleted table where_clause n st st'
  | _ => False
  end.

(** The method leaves the two files as they are, however it ends. *)
Definition keeps_files {A} (m : M A) : Prop :=
  forall st o st', m st = (o, st') -> same_files st st'.

(** The method writes the files exactly when it returns: after a return
    they hold the state it leaves, after a raise what they held. *)
Definition writes_on_return {A} (m : M A) : Prop :=
  forall st o st',
    m st = (o, st') ->
    match o with
    | Return _ => saved st'
    | Raise _ => same_files st st'
    end.

(** The first word of a statement, in upper case, as [parse] reads it:
    after trimming and dropping final semicolons. *)
Definition first_word (query : string) : option string :=
  match Str.split_ws (Str.rstrip_char ";" (Str.strip query)) with
  | [] => None
  | word0 :: _ => Some (Str.upper word0)
  end.

(** The word each kind of plan is parsed from. *)
Definition kind_word (q : ParsedQuery) : string :=
  match q with
  | CREATE_TABLE _ _ => "CREATE"
  | INSERT _ _ _ => "INSERT"
  | SELECT _ _ _ | SELECT_JOIN _ _ _ _ _ => "SELECT"
  | UPDATE _ _ _ => "UPDATE"
  | DELETE _ _ => "DELETE"
  | SHOW_TABLES => "SHOW"
  | DESCRIBE _ => "DESCRIBE"
  end.

(** The words [parse] knows. *)
Definition statement_words : list string :=
  ["CREATE"; "INSERT"; "SELECT"; "UPDATE"; "DELETE"; "SHOW"; "DESCRIBE"].

(** Every character of the text satisfies [p]. *)
Fixpoint every_char (p : ascii -> bool) (s : string) : bool :=
  match s with
  | EmptyString => true
  | String c s' => p c && every_char p s'
  end.

(** A test of a parsed predicate: a plain literal, or one operator other
    than [=] with its literal. *)
Definition one_test (condition : Condition) : Prop :=
  match condition with
  | CLit _ => True
  | COps ops =>
      exists op v,
        ops = [(op, v)] /\ In op QueryParser.operators /\ op <> "="
  end.

(** A column declaration as the parser builds it: PRIMARY KEY brings NOT
    NULL and leaves no UNIQUE flag. *)
Definition key_flags (col_def : ColumnDef) : Prop :=
  primary_key col_def = true ->
  not_null col_def = true /\ unique col_def = false.

(** A character that is neither a quote nor a parenthesis. *)
Definition plain_char (c : ascii) : bool :=
  negb (Ascii.eqb c QueryParser.dquote || Ascii.eqb c QueryParser.squote
        || Ascii.eqb c "(" || Ascii.eqb c ")").

(** [[p.strip() for p in text.split(',')]], without the last field when
    it is blank. *)
Definition trimmed_fields (text : string) : list string :=
  let fields := map Str.strip (Str.split_char "," text) in
  if String.eqb (last fields "") "" then removelast fields else fields.


(** The tables with [name] among them: as they are when the name is
    taken, with a new empty table for [columns] otherwise. *)
Definition with_table (name : string) (columns : Columns)
    (d : list (string * Table)) : list (string * Table) :=
  if Dict.mem String.eqb name d then d
  else Dict.set String.eqb name (new_table columns) d.

End Vocabulary.

(** ** Comparisons with NULL *)

Section NullComparisons.
Context {PF : PyFloat}.

Lemma rules_out_ordering_None (op : string) (literal : Value) :
  ordering_operator op -> rules_out op VNone literal = Return true.
Proof.
  unfold ordering_operator; simpl.
  intros [<- | [<- | [<- | [<- | []]]]]; reflexivity.
Qed.

Lemma rules_out_ordering_null_literal (op : string) (row_value : Value) :
  ordering_operator op -> rules_out op row_value VNone <> Return false.
Proof.
  unfold ordering_operator; simpl.
  intros [<- | [<- | [<- | [<- | []]]]]; destruct row_value; discriminate.
Qed.

Lemma operators_hold_ruled_out (row_value : Value)
    (ops : list (string * Value)) (op : string) (literal : Value) :
  In (op, literal) ops ->
  rules_out op row_value literal <> Return false ->
  operators_hold row_value ops <> Return true.
Proof.
  intros Hin Hout. induction ops as [| [op' v'] ops IH]; [destruct Hin |].
  cbn [operators_hold]. destruct Hin as [Heq | Hin].
  - inversion Heq; subst.
    destruct (rules_out op row_value literal) as [[|] | e]; simpl;
      [discriminate | congruence | discriminate].
  - destruct (rules_out op' row_value v') as [[|] | e]; simpl;
      [discriminate | auto | discriminate].
Qed.

Lemma ruled_out_conjunct_fails
    (matcher : Row -> Where -> outcome bool)
    (tested : string -> Row -> Value) (Hwalks : walks matcher tested)
    (row : Row) (col op : string) (literal : Value) (where_clause : Where) :
  has_test col op literal where_clause ->
  rules_out op (tested col row) literal <> Return false ->
  matcher row where_clause <> Return true.
Proof.
  destruct Hwalks as [_ Hcons]. intros (ops & Hin & Hop) Hout.
  induction where_clause as [| [col' cond'] rest IH]; [destruct Hin |].
  rewrite Hcons. destruct Hin as [Heq | Hin].
  - inversion Heq; subst. cbn [condition_holds].
    pose proof (operators_hold_ruled_out _ ops op literal Hop Hout) as Hne.
    destruct (operators_hold (tested col row) ops) as [[|] | e]; simpl;
      [congruence | discriminate | discriminate].
  - destruct (condition_holds (tested col' row) cond') as [[|] | e]; simpl;
      [auto | discriminate | discriminate].
Qed.

Lemma one_conjunct (matcher : Row -> Where -> outcome bool)
    (tested : string -> Row -> Value) (Hwalks : walks matcher tested)
    (row : Row) (col : string) (cond : Condition) :
  matcher row [(col, cond)] = condition_holds (tested col row) cond.
Proof.
  destruct Hwalks as [Hnil Hcons]. rewrite Hcons.
  destruct (condition_holds (tested col row) cond) as [[|] | e]; simpl;
    [apply Hnil | reflexivity | reflexivity].
Qed.

Lemma equality_on_None (literal : Value) :
  condition_holds VNone (CLit literal) = Return (is_None literal)
  /\ condition_holds VNone (COps [("=", literal)]) = Return (is_None literal)
  /\ condition_holds VNone (COps [("!=", literal)])
     = Return (negb (is_None literal)).
Proof. destruct literal; repeat split; reflexivity. Qed.

Lemma equality_with_null_literal (row_value : Value) :
  condition_holds row_value (CLit VNone) = Return (is_None row_value)
  /\ condition_holds row_value (COps [("=", VNone)])
     = Return (is_None row_value)
  /\ condition_holds row_value (COps [("!=", VNone)])
     = Return (negb (is_None row_value)).
Proof. destruct row_value; repeat split; reflexivity. Qed.

Lemma walks_null_semantics (matcher : Row -> Where -> outcome bool)
    (tested : string -> Row -> Value) :
  walks matcher tested -> null_semantics matcher tested.
Proof.
  intros Hwalks row col. split; [| split].
  - intros where_clause op literal Hop Htest Hnull.
    apply (ruled_out_conjunct_fails matcher tested Hwalks row col op literal);
      [exact Htest |].
    destruct Hnull as [-> | ->].
    + rewrite rules_out_ordering_None by assumption. discriminate.
    + apply rules_out_ordering_null_literal. assumption.
  - intros literal Hnone.
    rewrite !(one_conjunct matcher tested Hwalks), Hnone.
    apply equality_on_None.
  - rewrite !(one_conjunct matcher tested Hwalks).
    apply equality_with_null_literal.
Qed.

(** C1 (as amended). In both matchers, the single-table one and the one
    for joined rows, a conjunct with an ordering operator ([>], [<], [>=],
    [<=]) is never satisfied when the row's value for the tested column is
    NULL (or the column is absent) or when the literal is NULL. Equality
    is Python's [==], under which NULL equals NULL and nothing else: a
    plain or [=]-keyed conjunct on a NULL row value is satisfied exactly
    when the literal is NULL, and [!=] exactly when it is not; against the
    NULL literal, equality is satisfied exactly by the rows whose value is
    NULL, and [!=] by the others. *)
Theorem null_comparison_semantics :
  null_semantics _matches_where_clause row_get
  /\ null_semantics _matches_where_clause_join join_row_value.
Proof.
  split; apply walks_null_semantics; split; intros; reflexivity.
Qed.

End NullComparisons.

(** ** The executor's boundary *)

Section Boundary.
Context {PF : PyFloat}.

Lemma bind_Return {A B} (m : M A) (f : A -> M B) (st st' : Engine) (b : B) :
  bind m f st = (Return b, st') ->
  exists a st1, m st = (Return a, st1) /\ f a st1 = (Return b, st').
Proof.
  unfold bind. destruct (m st) as [[a | e] st1]; intros H.
  - exists a, st1. auto.
  - discriminate.
Qed.

Lemma ret_Return {A} (a b : A) (st st' : Engine) :
  ret a st = (Return b, st') -> a = b /\ st = st'.
Proof. unfold ret. intros H. inversion H. auto. Qed.

Lemma guarded_cases (body : M Result) (st : Engine) :
  (exists r st', body st = (Return r, st')
                 /\ guarded body st = (Return r, st'))
  \/ (exists e st', body st = (Raise e, st')
                    /\ guarded body st = (Return (failure e), st')).
Proof.
  unfold guarded. destruct (body st) as [[r | e] st'].
  - left. exists r, st'. auto.
  - right. exists e, st'. auto.
Qed.

Lemma guarded_guarded (body : M Result) (st : Engine) :
  guarded (guarded body) st = guarded body st.
Proof. unfold guarded. destruct (body st) as [[r | e] st']; reflexivity. Qed.

Lemma failure_is_failure_record (e : exn) : failure_record (failure e).
Proof. exists (exn_str e). reflexivity. Qed.

(** What the body of each [_execute_*] returns when it returns. *)
Lemma dispatch_body_shape (q : ParsedQuery) (st st' : Engine) (r : Result) :
  dispatch q st = (Return r, st') ->
  failure_record r \/ success_record q r.
Proof.
  destruct q; simpl; unfold _execute_create_table, _execute_insert,
    _execute_select, _execute_select_join, _execute_update,
    _execute_delete, _execute_show_tables, _execute_describe;
    intros H;
    match type of H with
    | guarded ?body ?st = _ =>
        destruct (guarded_cases body st)
          as [(r0 & st0 & Hbody & Hg) | (e & st0 & Hbody & Hg)];
          rewrite Hg in H; inversion H; subst; clear H Hg;
          [right | left; apply failure_is_failure_record]
    end.
  - apply bind_Return in Hbody as (_ & st1 & _ & Hret).
    apply ret_Return in Hret as [<- _]. reflexivity.
  - apply bind_Return in Hbody as (schema & st1 & _ & Hbody).
    apply bind_Return in Hbody as (row_data & st2 & _ & Hbody).
    apply bind_Return in Hbody as (row_id & st3 & _ & Hret).
    apply ret_Return in Hret as [<- _]. exists row_id. reflexivity.
  - apply bind_Return in Hbody as (rows & st1 & _ & Hret).
    apply ret_Return in Hret as [<- _]. eexists. reflexivity.
  - apply bind_Return in Hbody as (rows1 & st1 & _ & Hbody).
    apply bind_Return in Hbody as (rows2 & st2 & _ & Hbody).
    apply bind_Return in Hbody as (joined & st3 & _ & Hret).
    apply ret_Return in Hret as [<- _]. eexists. reflexivity.
  - apply bind_Return in Hbody as (w & st1 & _ & Hbody).
    apply bind_Return in Hbody as (n & st2 & _ & Hret).
    apply ret_Return in Hret as [<- _]. exists n. reflexivity.
  - apply bind_Return in Hbody as (w & st1 & _ & Hbody).
    apply bind_Return in Hbody as (n & st2 & _ & Hret).
    apply ret_Return in Hret as [<- _]. exists n. reflexivity.
  - apply bind_Return in Hbody as (names & st1 & _ & Hret).
    apply ret_Return in Hret as [<- _]. exists names. reflexivity.
  - apply bind_Return in Hbody as (schema & st1 & _ & Hret).
    apply ret_Return in Hret as [<- _]. eexists _, _. reflexivity.
Qed.

Lemma record_flag (q : ParsedQuery) (r : Result) :
  (failure_record r -> success_flag r = Some false)
  /\ (success_record q r -> success_flag r = Some true).
Proof.
  split.
  - intros [error ->]. reflexivity.
  - destruct q; simpl; intros H;
      repeat match goal with
             | H : exists _, _ |- _ => destruct H as [? H]
             end; subst; reflexivity.
Qed.

(** C5. [execute] returns a record for every input text and every
    state of the engine, never an exception. The record holds a boolean
    under ['success']; when it is false the record is exactly
    [{success, error}] with a string under ['error']; when it is true the
    text parsed to a plan and the record has the keys and the kinds of
    values fixed by the plan's variant. *)
Theorem execute_returns_a_result (query : string) (st : Engine) :
  exists (r : Result) (st' : Engine) (flag : bool),
    execute query st = (Return r, st')
    /\ success_flag r = Some flag
    /\ (flag = false -> failure_record r)
    /\ (flag = true ->
        exists q, QueryParser.parse query = Return q /\ success_record q r).
Proof.
  unfold execute.
  destruct (QueryParser.parse query) as [q | e] eqn:Hparse.
  - assert (Hsame : forall st0,
               bind (lift (Return q)) (fun parsed_query => dispatch parsed_query) st0
               = dispatch q st0) by reflexivity.
    unfold guarded at 1. rewrite Hsame.
    assert (Htotal : exists r st', dispatch q st = (Return r, st')).
    { destruct q; simpl; unfold _execute_create_table, _execute_insert,
        _execute_select, _execute_select_join, _execute_update,
        _execute_delete, _execute_show_tables, _execute_describe;
        match goal with
        | |- exists r st', guarded ?body ?st = _ =>
            destruct (guarded_cases body st)
              as [(r0 & st0 & _ & Hg) | (e & st0 & _ & Hg)];
              rewrite Hg; eauto
        end. }
    destruct Htotal as (r & st' & Hrun). rewrite Hrun.
    destruct (dispatch_body_shape q st st' r Hrun) as [Hfail | Hok].
    + exists r, st', false. repeat split.
      * apply (record_flag q r); assumption.
      * intros _; assumption.
      * discriminate.
    + exists r, st', true. repeat split.
      * apply (record_flag q r); assumption.
      * discriminate.
      * intros _. exists q. auto.
  - exists (failure e), st, false. repeat split.
    + intros _. apply failure_is_failure_record.
    + discriminate.
Qed.

End Boundary.

(** ** UPDATE without WHERE *)

Section UpdateSafety.
Context {PF : PyFloat}.

Lemma set_assignments_error (assignments : list string)
    (updates : list (string * Value)) (e : exn) :
  QueryParser.set_assignments assignments updates = Raise e ->
  exists assignment,
    e = Exn ValueError ("Invalid assignment: " ++ assignment).
Proof.
  revert updates. induction assignments as [| a rest IH]; simpl; intros updates H.
  - discriminate.
  - destruct (Str.split_once "=" (Str.strip a)) as [[col_name value_str] |].
    + eauto.
    + inversion H. eauto.
Qed.

(** C2 (as amended). The parser does not turn away an UPDATE for want
    of a WHERE clause: the only errors [_parse_update] raises are the
    syntax errors of the statement and of its SET clause. An UPDATE plan
    that comes back without a predicate, or with an empty one, is turned
    away by the executor: [execute] answers with the failure record
    whose error is the safety message, and the engine is untouched. *)
Theorem unqualified_update_stopped_by_executor (query : string) (st : Engine) :
  (forall e, QueryParser._parse_update query = Raise e ->
     e = Exn ValueError "Invalid UPDATE syntax"
     \/ exists assignment,
          e = Exn ValueError ("Invalid assignment: " ++ assignment))
  /\
  (forall table updates where_clause,
     QueryParser.parse query = Return (UPDATE table updates where_clause) ->
     no_conditions where_clause = true ->
     execute query st
     = (Return (failure (Exn ValueError
                  "UPDATE without WHERE clause not allowed for safety")),
        st)).
Proof.
  split.
  - intros e. unfold QueryParser._parse_update.
    destruct (Re.rmatch QueryParser.update_pattern query) as [m |].
    + unfold QueryParser._parse_set_clause.
      destruct (QueryParser.set_assignments _ _) as [updates | e'] eqn:Hset;
        simpl; intros H.
      * discriminate.
      * inversion H; subst. right.
        eapply set_assignments_error; eassumption.
    + intros H. inversion H. auto.
  - intros table updates where_clause Hparse Hnone.
    unfold execute, guarded, bind, lift. rewrite Hparse. simpl.
    destruct where_clause as [[| c w] |]; try discriminate; reflexivity.
Qed.

End UpdateSafety.

(** ** The pattern of UPDATE

    In the pattern of [_parse_update] the lazy group of the SET clause is
    followed only by the optional WHERE group, so the first match the
    backtracking search finds gives the empty text to the SET group and
    leaves the WHERE group out: the plan of an UPDATE never holds an
    assignment or a predicate, whatever the statement says. *)

Section UpdatePattern.
Context {PF : PyFloat}.
Import Re QueryParser.

Lemma run_post {R : Type} (Q : R -> Prop) (I : captures -> Prop)
    (r : regex) :
  (forall n t c, In n (groups r) -> I c -> I ((n, t) :: c)) ->
  forall (s : string) (cs : captures) (k : string -> captures -> option R),
    I cs ->
    (forall s' c', I c' -> post Q (k s' c')) ->
    post Q (run r s cs k).
Proof.
  induction r as [| c | p | r1 IH1 r2 IH2 | greedy r1 IH1 | r1 IH1
                  | n r1 IH1 |]; intros Hg s cs k Hcs Hk; cbn [run].
  - apply Hk. exact Hcs.
  - destruct s as [| a s']; [intros x H; discriminate |].
    destruct (ci_eqb a c); [apply Hk; exact Hcs | intros x H; discriminate].
  - destruct s as [| a s']; [intros x H; discriminate |].
    destruct (p a); [apply Hk; exact Hcs | intros x H; discriminate].
  - apply IH1; [| exact Hcs |].
    + intros n t c Hn. apply Hg. cbn [groups]. apply in_or_app. auto.
    + intros s' c' Hc'. apply IH2; [| exact Hc' | exact Hk].
      intros n t c Hn. apply Hg. cbn [groups]. apply in_or_app. auto.
  - generalize (String.length s). intros fuel. revert s cs Hcs.
    induction fuel as [| fuel IHf]; intros s cs Hcs.
    + apply Hk. exact Hcs.
    + assert (Hagain :
                post Q (run r1 s cs
                          (fun s1 c1 =>
                             if (String.length s1 <? String.length s)%nat
                             then (fix loop (fuel0 : nat) (s0 : string)
                                       (cs0 : captures) {struct fuel0}
                                     : option R :=
                                     match fuel0 with
                                     | O => k s0 cs0
                                     | S fuel' =>
                                         let again (_ : unit) :=
                                           run r1 s0 cs0
                                             (fun s2 c2 =>
                                                if (String.length s2
                                                    <? String.length s0)%nat
                                                then loop fuel' s2 c2
                                                else None) in
                                         if greedy
                                         then match again tt with
                                              | Some x => Some x
                                              | None => k s0 cs0
                                              end
                                         else match k s0 cs0 with
                                              | Some x => Some x
                                              | None => again tt
                                              end
                                     end) fuel s1 c1
                             else None))).
      { apply IH1; [exact Hg | exact Hcs |].
        intros s' c' Hc'.
        destruct (String.length s' <? String.length s)%nat;
          [apply IHf; exact Hc' | intros x H; discriminate]. }
      cbv zeta. destruct greedy.
      * match goal with
        | |- post Q (match ?a with Some _ => _ | None => _ end) =>
            destruct a as [y |] eqn:E
        end.
        -- intros x Hx. inversion Hx; subst. apply Hagain. reflexivity.
        -- apply Hk. exact Hcs.
      * destruct (k s cs) as [y |] eqn:E.
        -- intros x Hx. inversion Hx; subst. apply (Hk s cs Hcs). exact E.
        -- exact Hagain.
  - destruct (run r1 s cs k) as [y |] eqn:E.
    + intros x Hx. inversion Hx; subst.
      apply (IH1 Hg s cs k Hcs Hk). exact E.
    + apply Hk. exact Hcs.
  - apply IH1; [| exact Hcs |].
    + intros m t c Hm. apply Hg. cbn [groups]. right. exact Hm.
    + intros s' c' Hc'. apply Hk. apply Hg; [left; reflexivity | exact Hc'].
  - destruct (at_end s); [apply Hk; exact Hcs | intros x H; discriminate].
Qed.

Lemma run_cat {R : Type} (r1 r2 : regex) (s : string) (cs : captures)
    (k : string -> captures -> option R) :
  run (Cat r1 r2) s cs k = run r1 s cs (fun s1 c1 => run r2 s1 c1 k).
Proof. reflexivity. Qed.

(** Where the white space after SET ends, the rest of the pattern
    matches at once, the SET group empty. *)
Lemma set_group_at_text (s : string) (cs : captures) :
  starts_with_space s = false ->
  run (Seq [Grp 2 lazy; where_tail 3]) s cs (fun _ c => Some c)
  = Some ((2, "") :: cs).
Proof.
  intros Hs.
  assert (Htail : forall c,
             run (where_tail 3) s c
               (fun s1 c1 => run Eps s1 c1 (fun _ c2 => Some c2))
             = Some c).
  { intros c. unfold where_tail. cbn [run Seq ws1 Plus ws].
    destruct s as [| a s']; [reflexivity |].
    cbn [starts_with_space] in Hs. rewrite Hs. reflexivity. }
  cbn [Seq]. cbn [run lazy]. unfold consumed.
  destruct s as [| a s'].
  - cbn [String.length]. rewrite Htail. reflexivity.
  - cbn [String.length]. rewrite Nat.sub_diag. cbn [Str.take].
    rewrite Htail. reflexivity.
Qed.

(** A greedy star over a character class, one step. *)
Lemma star_class_greedy {R : Type} (p : ascii -> bool)
    (k : string -> captures -> option R) (s : string) (cs : captures) :
  run (Star true (Cls p)) s cs k
  = match s with
    | String a s' =>
        if p a
        then match run (Star true (Cls p)) s' cs k with
             | Some x => Some x
             | None => k s cs
             end
        else k s cs
    | EmptyString => k s cs
    end.
Proof.
  destruct s as [| a s']; [reflexivity |].
  cbn [run]. cbn [String.length]. cbv zeta. cbn [run].
  destruct (p a); [| reflexivity].
  rewrite (proj2 (Nat.ltb_lt _ _) (Nat.lt_succ_diag_r _)). reflexivity.
Qed.

Lemma set_group_after_spaces (s : string) (cs : captures) :
  run ws0 s cs
    (fun s1 c1 =>
       run (Seq [Grp 2 lazy; where_tail 3]) s1 c1 (fun _ c => Some c))
  = Some ((2, "") :: cs).
Proof.
  unfold ws0, ws. induction s as [| a s' IH]; rewrite star_class_greedy.
  - apply set_group_at_text. reflexivity.
  - destruct (Str.is_space a) eqn:Ha.
    + rewrite IH. reflexivity.
    + apply set_group_at_text. cbn [starts_with_space]. exact Ha.
Qed.

Lemma update_tail (s : string) (cs : captures) :
  run (Seq [ws1; Grp 2 lazy; where_tail 3]) s cs (fun _ c => Some c)
  = if starts_with_space s then Some ((2, "") :: cs) else None.
Proof.
  change (run (Seq [ws1; Grp 2 lazy; where_tail 3]) s cs
            (fun _ c => Some c))
    with (run ws s cs
            (fun s1 c1 =>
               run ws0 s1 c1
                 (fun s2 c2 =>
                    run (Seq [Grp 2 lazy; where_tail 3]) s2 c2
                      (fun _ c => Some c)))).
  destruct s as [| a s']; [reflexivity |].
  unfold ws at 1. cbn [run starts_with_space].
  destruct (Str.is_space a); [| reflexivity].
  exact (set_group_after_spaces s' cs).
Qed.

(** Every match of the pattern of UPDATE has the empty text in the SET
    group and no WHERE group. *)
Lemma update_pattern_captures (query : string) (m : captures) :
  rmatch update_pattern query = Some m ->
  group 2 m = Some "" /\ group 3 m = None.
Proof.
  unfold rmatch.
  change update_pattern
    with (Cat (Lit "UPDATE")
            (Cat ws1 (Cat (Grp 1 word1) (Cat ws1 (Cat (Lit "SET")
               (Seq [ws1; Grp 2 lazy; where_tail 3])))))).
  set (Q := fun c : captures => group 2 c = Some "" /\ group 3 c = None).
  set (I := fun c : captures => group 3 c = None).
  assert (Hone : forall r, (forall n, In n (groups r) -> n = 1) ->
                 forall n t c, In n (groups r) -> I c -> I ((n, t) :: c)).
  { intros r Hr n t c Hn Hc. rewrite (Hr n Hn). exact Hc. }
  assert (Hnone : forall r, groups r = [] ->
                  forall n, In n (groups r) -> n = 1).
  { intros r -> n []. }
  assert (Hend : forall s c, I c ->
                 post Q (run (Seq [ws1; Grp 2 lazy; where_tail 3]) s c
                           (fun _ c0 => Some c0))).
  { intros s c Hc x. rewrite update_tail.
    destruct (starts_with_space s); [| discriminate].
    intros H. inversion H; subst. split; [reflexivity | exact Hc]. }
  intros Hm. revert m Hm. change (post Q (run
    (Cat (Lit "UPDATE")
       (Cat ws1 (Cat (Grp 1 word1) (Cat ws1 (Cat (Lit "SET")
          (Seq [ws1; Grp 2 lazy; where_tail 3]))))))
    query [] (fun _ cs => Some cs))).
  rewrite run_cat. apply (run_post Q I (Lit "UPDATE"));
    [apply Hone, Hnone; reflexivity | reflexivity |]. intros s1 c1 H1.
  rewrite run_cat. apply (run_post Q I ws1);
    [apply Hone, Hnone; reflexivity | exact H1 |]. intros s2 c2 H2.
  rewrite run_cat. apply (run_post Q I (Grp 1 word1));
    [apply Hone; intros n [<- | []]; reflexivity | exact H2 |].
  intros s3 c3 H3.
  rewrite run_cat. apply (run_post Q I ws1);
    [apply Hone, Hnone; reflexivity | exact H3 |]. intros s4 c4 H4.
  rewrite run_cat. apply (run_post Q I (Lit "SET"));
    [apply Hone, Hnone; reflexivity | exact H4 |]. intros s5 c5 H5.
  apply Hend. exact H5.
Qed.

(** The plan [_parse_update] returns holds no assignment and no
    predicate. *)
Lemma parsed_update_is_bare (query : string) (plan : ParsedQuery) :
  _parse_update query = Return plan ->
  exists table, plan = UPDATE table [] None.
Proof.
  unfold _parse_update.
  destruct (rmatch update_pattern query) as [m |] eqn:Hm; [| discriminate].
  destruct (update_pattern_captures query m Hm) as [H2 H3].
  unfold group_text. rewrite H2, H3. cbn. intros H. inversion H. eauto.
Qed.

(** Seen from [execute], every statement that parses to an UPDATE is
    therefore answered with the safety failure. *)
Lemma every_update_is_answered_with_the_safety_failure
    (query table : string) (updates : list (string * Value))
    (where_clause : option Where) (st : Engine) :
  parse query = Return (UPDATE table updates where_clause) ->
  where_clause = None
  /\ execute query st
     = (Return (failure (Exn ValueError
                  "UPDATE without WHERE clause not allowed for safety")),
        st).
Proof.
  intros Hparse.
  assert (Hw : where_clause = None).
  { revert Hparse. unfold parse.
    destruct (Str.split_ws _) as [| word0 words]; [discriminate |].
    repeat match goal with
           | |- (if ?b then _ else _) = _ -> _ => destruct b
           end; intros H.
    - unfold _parse_create_table in H.
      destruct (rmatch _ _); [| discriminate].
      destruct (_parse_column_definitions _); discriminate.
    - unfold _parse_insert in H.
      destruct (rmatch insert_pattern1 _); [discriminate |].
      destruct (rmatch insert_pattern2 _); discriminate.
    - unfold _parse_select, _parse_select_with_join in H.
      destruct (Str.contains _ _).
      + destruct (rmatch _ _); [| discriminate].
        destruct (_parse_join_condition _); discriminate.
      + destruct (rmatch _ _); discriminate.
    - destruct (parsed_update_is_bare _ _ H) as [t Ht].
      inversion Ht. reflexivity.
    - unfold _parse_delete in H.
      destruct (rmatch _ _); [| discriminate].
      destruct (nonempty _); discriminate.
    - unfold _parse_show in H. destruct (String.eqb _ _); discriminate.
    - unfold _parse_describe in H. destruct (rmatch _ _); discriminate.
    - discriminate. }
  split; [exact Hw |]. subst where_clause.
  unfold execute, guarded, bind, lift. rewrite Hparse. reflexivity.
Qed.

End UpdatePattern.

(** ** Projection *)

Section Projection.
Context {PF : PyFloat}.

Lemma get_set_same {V} (k : string) (v : V) (d : list (string * V)) :
  Dict.get String.eqb k (Dict.set String.eqb k v d) = Some v.
Proof.
  induction d as [| [k' v'] d IH]; simpl.
  - rewrite String.eqb_refl. reflexivity.
  - destruct (String.eqb k k') eqn:E; simpl; rewrite E; auto.
Qed.

Lemma get_set_other {V} (k k' : string) (v : V) (d : list (string * V)) :
  k <> k' ->
  Dict.get String.eqb k (Dict.set String.eqb k' v d)
  = Dict.get String.eqb k d.
Proof.
  intros Hne. induction d as [| [k0 v0] d IH]; simpl.
  - apply String.eqb_neq in Hne. rewrite Hne. reflexivity.
  - destruct (String.eqb k' k0) eqn:E; simpl.
    + apply String.eqb_eq in E. subst k0.
      apply String.eqb_neq in Hne. rewrite Hne. reflexivity.
    + destruct (String.eqb k k0); auto.
Qed.

Lemma project_fold_get (row : Row) (columns : list string) (acc : Row)
    (col : string) :
  Dict.get String.eqb col (fold_left (copy_field row) columns acc)
  = if existsb (String.eqb col) columns
    then match Dict.get String.eqb col row with
         | Some v => Some v
         | None => Dict.get String.eqb col acc
         end
    else Dict.get String.eqb col acc.
Proof.
  revert acc. induction columns as [| c rest IH]; intros acc; simpl.
  - reflexivity.
  - rewrite IH. unfold copy_field.
    destruct (String.eqb col c) eqn:E; simpl.
    + apply String.eqb_eq in E. subst c.
      destruct (Dict.get String.eqb col row) as [v |] eqn:G.
      * rewrite get_set_same. destruct (existsb _ rest); reflexivity.
      * destruct (existsb _ rest); reflexivity.
    + apply String.eqb_neq in E.
      destruct (Dict.get String.eqb c row) as [v |] eqn:G.
      * rewrite get_set_other by assumption. reflexivity.
      * reflexivity.
Qed.

Lemma project_row_get (columns : list string) (row : Row) (col : string) :
  Dict.get String.eqb col (project_row columns row)
  = if existsb (String.eqb col) columns
    then Dict.get String.eqb col row else None.
Proof.
  unfold project_row. rewrite project_fold_get. simpl.
  destruct (existsb _ columns); [destruct (Dict.get _ col row) |];
    reflexivity.
Qed.

Lemma clean_row_keys (row : Row) (k : string) :
  Dict.mem String.eqb k (clean_row row) = true ->
  Str.startswith "_" k = false.
Proof.
  unfold Dict.mem, clean_row.
  induction row as [| [k' v] row IH]; [discriminate |].
  cbn [filter fst]. destruct (Str.startswith "_" k') eqn:S; cbn [negb].
  - apply IH.
  - cbn [Dict.get]. destruct (String.eqb k k') eqn:E.
    + apply String.eqb_eq in E. subst. auto.
    + apply IH.
Qed.

Lemma execute_select_returns (columns : list string) (table_name : string)
    (where_clause : option Where) (st st' : Engine) (selected : list Row) :
  select_rows table_name where_clause st = (Return selected, st') ->
  _execute_select columns table_name where_clause st
  = (Return (rows_result
               (if is_star columns then map clean_row selected
                else map (project_row columns) selected)), st').
Proof.
  intros H. unfold _execute_select, guarded, bind. rewrite H. reflexivity.
Qed.

(** C7 (as amended). A SELECT whose projection is [*] returns no field
    whose name begins with an underscore, so no [_row_id]. A SELECT with
    an explicit list returns, for each selected row, [_row_id] exactly
    when the list names [_row_id] and the stored row holds it. *)
Theorem row_id_in_select_output (columns : list string)
    (table_name : string) (where_clause : option Where)
    (st st' : Engine) (selected : list Row) :
  select_rows table_name where_clause st = (Return selected, st') ->
  exists out,
    _execute_select columns table_name where_clause st
    = (Return (rows_result out), st')
    /\ (is_star columns = true ->
        forall row, In row out ->
          (forall k, Dict.mem String.eqb k row = true ->
                     Str.startswith "_" k = false)
          /\ Dict.mem String.eqb "_row_id" row = false)
    /\ (is_star columns = false ->
        out = map (project_row columns) selected
        /\ forall row,
             Dict.mem String.eqb "_row_id" (project_row columns row)
             = existsb (String.eqb "_row_id") columns
               && Dict.mem String.eqb "_row_id" row).
Proof.
  intros Hsel. eexists. split; [apply execute_select_returns; eassumption |].
  split; intros Hstar; rewrite Hstar.
  - intros row Hin. apply in_map_iff in Hin as (row0 & <- & _).
    split; [apply clean_row_keys |].
    destruct (Dict.mem String.eqb "_row_id" (clean_row row0)) eqn:E; auto.
    apply clean_row_keys in E. discriminate.
  - split; [reflexivity |]. intros row. unfold Dict.mem.
    rewrite project_row_get.
    destruct (existsb _ columns); reflexivity.
Qed.

(** C8. For a single-table SELECT with an explicit projection list, the
    statement succeeds whenever the rows can be selected, and its result
    holds one output row per selected row, in order; the output row
    holds a requested name with the stored value when the stored row has
    that key, and holds no field for a name the stored row lacks or the
    list does not name. *)
Theorem explicit_projection_copies_present_fields (columns : list string)
    (table_name : string) (where_clause : option Where)
    (st st' : Engine) (selected : list Row) :
  is_star columns = false ->
  select_rows table_name where_clause st = (Return selected, st') ->
  exists out : list Row,
    _execute_select columns table_name where_clause st
    = (Return [("success", PBool true);
               ("rows", PRows out);
               ("count", PInt (List.length selected))], st')
    /\ Forall2
         (fun row out_row =>
            forall col,
              Dict.get String.eqb col out_row
              = if existsb (String.eqb col) columns
                then Dict.get String.eqb col row else None)
         selected out.
Proof.
  intros Hstar Hsel. exists (map (project_row columns) selected). split.
  - rewrite (execute_select_returns columns _ _ _ _ _ Hsel), Hstar.
    unfold rows_result. rewrite length_map. reflexivity.
  - clear Hsel. induction selected as [| row rows IH]; cbn [map];
      constructor; [| exact IH].
    intros col. apply project_row_get.
Qed.

End Projection.

(** ** Inserting a duplicate primary key *)

Section DuplicateKey.
Context {PF : PyFloat}.






End DuplicateKey.

(** ** Steps of the engine *)

Section EngineSteps.
Context {PF : PyFloat}.

Lemma run_bind {A B} (m : M A) (f : A -> M B) (st st1 : Engine) (a : A) :
  m st = (Return a, st1) -> bind m f st = f a st1.
Proof. unfold bind. intros ->. reflexivity. Qed.

Lemma run_bind_raise {A B} (m : M A) (f : A -> M B) (st st1 : Engine)
    (e : exn) :
  m st = (Raise e, st1) -> bind m f st = (Raise e, st1).
Proof. unfold bind. intros ->. reflexivity. Qed.

Lemma run_the_table (table_name : string) (st : Engine) (table : Table) :
  Dict.get String.eqb table_name (tables st) = Some table ->
  the_table table_name st = (Return table, st).
Proof.
  intros H. unfold the_table, bind, read, lift, getitem. rewrite H.
  reflexivity.
Qed.

Lemma run_existing_table (table_name : string) (st : Engine)
    (table : Table) :
  Dict.get String.eqb table_name (tables st) = Some table ->
  existing_table table_name st = (Return table, st).
Proof.
  intros H. unfold existing_table, bind, read. rewrite H. reflexivity.
Qed.

Lemma run_the_table_indexes (table_name : string) (st : Engine)
    (table_indexes : TableIndexes) :
  Dict.get String.eqb table_name (indexes st) = Some table_indexes ->
  the_table_indexes table_name st = (Return table_indexes, st).
Proof.
  intros H. unfold the_table_indexes, bind, read, lift, getitem.
  rewrite H. reflexivity.
Qed.

Lemma run_the_index (table_name col : string) (st : Engine)
    (table_indexes : TableIndexes) (index : Index) :
  Dict.get String.eqb table_name (indexes st) = Some table_indexes ->
  Dict.get String.eqb col table_indexes = Some index ->
  the_index table_name col st = (Return index, st).
Proof.
  intros H1 H2. unfold the_index.
  rewrite (run_bind _ _ _ _ _ (run_the_table_indexes _ _ _ H1)).
  unfold lift, getitem. rewrite H2. reflexivity.
Qed.

Lemma run_store_index (table_name col : string) (index : Index)
    (st : Engine) (table_indexes : TableIndexes) :
  Dict.get String.eqb table_name (indexes st) = Some table_indexes ->
  store_index table_name col index st
  = (Return tt,
     set_indexes
       (Dict.set String.eqb table_name
          (Dict.set String.eqb col index table_indexes) (indexes st)) st).
Proof.
  intros H. unfold store_index.
  rewrite (run_bind _ _ _ _ _ (run_the_table_indexes _ _ _ H)).
  reflexivity.
Qed.

Lemma keys_set_present {V} (k : string) (v v' : V) (d : list (string * V)) :
  Dict.get String.eqb k d = Some v ->
  Dict.keys (Dict.set String.eqb k v' d) = Dict.keys d.
Proof.
  induction d as [| [k0 v0] d IH]; simpl; [discriminate |].
  destruct (String.eqb k k0); simpl; intros H.
  - reflexivity.
  - rewrite IH by assumption. reflexivity.
Qed.

Lemma get_of_key {V} (k : string) (d : list (string * V)) :
  In k (Dict.keys d) -> exists v, Dict.get String.eqb k d = Some v.
Proof.
  induction d as [| [k0 v0] d IH]; simpl; [intros [] |].
  intros [-> | Hin].
  - rewrite String.eqb_refl. eauto.
  - destruct (String.eqb k k0); eauto.
Qed.

(** The loop of [delete_rows] that takes one row out of the indexes
    leaves the tables alone and keeps the table's indexed columns. *)
Lemma unindex_loop (table_name : string) (row : Row) (cols : list string) :
  forall (st : Engine) (table_indexes : TableIndexes),
    Dict.get String.eqb table_name (indexes st) = Some table_indexes ->
    (forall c, In c cols -> In c (Dict.keys table_indexes)) ->
    exists st' table_indexes',
      for_each (unindex_row table_name row) cols st = (Return tt, st')
      /\ tables st' = tables st
      /\ Dict.get String.eqb table_name (indexes st') = Some table_indexes'
      /\ Dict.keys table_indexes' = Dict.keys table_indexes
      /\ others_kept table_name st st'.
Proof.
  induction cols as [| c cols IH]; intros st table_indexes Hix Hcols.
  - exists st, table_indexes. simpl. repeat split; auto.
  - destruct (get_of_key c table_indexes (Hcols c (or_introl eq_refl)))
      as [index Hindex].
    assert (Hstep : exists st1 table_indexes1,
               unindex_row table_name row c st = (Return tt, st1)
               /\ tables st1 = tables st
               /\ Dict.get String.eqb table_name (indexes st1)
                  = Some table_indexes1
               /\ Dict.keys table_indexes1 = Dict.keys table_indexes
               /\ others_kept table_name st st1).
    { unfold unindex_row.
      rewrite (run_bind _ _ _ _ _ (run_the_index _ _ _ _ _ Hix Hindex)).
      destruct (Dict.mem py_eq (row_get c row) index).
      - rewrite (run_store_index _ _ _ _ _ Hix).
        eexists _, _. split; [reflexivity |]. split; [reflexivity |].
        split; [apply get_set_same |].
        split; [eapply keys_set_present; eassumption |].
        intros other Hne. split; [reflexivity |].
        cbn. apply get_set_other. exact Hne.
      - exists st, table_indexes. repeat split; auto. }
    destruct Hstep as (st1 & ix1 & Hrun1 & Htab1 & Hix1 & Hkeys1 & Hk1).
    destruct (IH st1 ix1 Hix1)
      as (st' & ix' & Hrun & Htab & Hix' & Hkeys & Hk).
    { intros c' Hc'. rewrite Hkeys1. apply Hcols. right. assumption. }
    exists st', ix'. cbn [for_each].
    rewrite (run_bind _ _ _ _ _ Hrun1). rewrite Hrun.
    split; [reflexivity |]. split; [congruence |].
    split; [exact Hix' |]. split; [congruence |].
    intros other Hne.
    destruct (Hk1 other Hne) as [Ha Hb], (Hk other Hne) as [Hc Hd].
    split; congruence.
Qed.

Lemma run_delete_row (table_name : string) (i : nat) (st : Engine)
    (table : Table) (table_indexes : TableIndexes) :
  Dict.get String.eqb table_name (tables st) = Some table ->
  Dict.get String.eqb table_name (indexes st) = Some table_indexes ->
  exists st' table_indexes',
    delete_row table_name i st = (Return tt, st')
    /\ Dict.get String.eqb table_name (tables st')
       = Some (with_rows table (remove_nth i (tbl_rows table)))
    /\ Dict.get String.eqb table_name (indexes st') = Some table_indexes'
    /\ others_kept table_name st st'.
Proof.
  intros Htab Hix. unfold delete_row.
  rewrite (run_bind _ _ _ _ _ (run_the_table _ _ _ Htab)).
  rewrite (run_bind _ _ _ _ _ (run_the_table_indexes _ _ _ Hix)).
  destruct (unindex_loop table_name (row_at table i)
              (Dict.keys table_indexes) st table_indexes Hix)
    as (st1 & ix1 & Hrun & Htab1 & Hix1 & _ & Hkept); [auto |].
  rewrite (run_bind _ _ _ _ _ Hrun).
  eexists _, ix1. split; [reflexivity |]. split.
  - simpl. apply get_set_same.
  - split; [exact Hix1 |].
    intros other Hne. destruct (Hkept other Hne) as [Ht Hi].
    split; [| exact Hi]. cbn. rewrite get_set_other by exact Hne. exact Ht.
Qed.

Lemma length_remove_last {A} (l : list A) (n : nat) :
  List.length l = S n -> List.length (remove_nth n l) = n.
Proof.
  revert n. induction l as [| x l IH]; intros n H; [discriminate |].
  destruct n as [| n]; simpl in *.
  - destruct l; [reflexivity | discriminate].
  - f_equal. apply IH. lia.
Qed.

Lemma delete_all_rows (table_name : string) (n : nat) :
  forall (st : Engine) (table : Table) (table_indexes : TableIndexes),
    Dict.get String.eqb table_name (tables st) = Some table ->
    Dict.get String.eqb table_name (indexes st) = Some table_indexes ->
    List.length (tbl_rows table) = n ->
    exists st' table_indexes',
      for_each (delete_row table_name) (List.rev (seq 0 n)) st
      = (Return tt, st')
      /\ Dict.get String.eqb table_name (tables st')
         = Some (with_rows table [])
      /\ Dict.get String.eqb table_name (indexes st')
         = Some table_indexes'.
Proof.
  induction n as [| n IH]; intros st table table_indexes Htab Hix Hlen.
  - exists st, table_indexes. simpl. split; [reflexivity |]. split; auto.
    rewrite Htab. destruct table as [c r p u]. simpl in Hlen.
    destruct r; [reflexivity | discriminate].
  - rewrite seq_S, rev_app_distr. cbn [List.rev app for_each plus].
    destruct (run_delete_row table_name n st table table_indexes Htab Hix)
      as (st1 & ix1 & Hrun1 & Htab1 & Hix1 & _).
    rewrite (run_bind _ _ _ _ _ Hrun1).
    destruct (IH st1 _ ix1 Htab1 Hix1) as (st' & ix' & Hrun & Htab' & Hix').
    { simpl. apply length_remove_last. assumption. }
    exists st', ix'. auto.
Qed.

Lemma matching_everything (rows : list Row) (i : nat) :
  matching_from i rows [] = Return (seq i (List.length rows)).
Proof.
  revert i. induction rows as [| row rows IH]; intros i; simpl.
  - reflexivity.
  - rewrite IH. reflexivity.
Qed.

Lemma rebuild_indexes_of_empty (table_name : string) (st : Engine)
    (table : Table) :
  Dict.get String.eqb table_name (tables st) = Some (with_rows table []) ->
  exists st',
    _rebuild_indexes table_name st = (Return tt, st')
    /\ Dict.get String.eqb table_name (tables st')
       = Some (with_rows table []).
Proof.
  intros Htab. unfold _rebuild_indexes.
  rewrite (run_bind _ _ _ _ _ (run_the_table _ _ _ Htab)).
  eexists. split; [reflexivity |]. cbn. apply get_set_same.
Qed.

(** With the empty predicate [delete_rows] empties the table. *)
Lemma delete_rows_everything (table_name : string) (st : Engine)
    (table : Table) (table_indexes : TableIndexes) :
  Dict.get String.eqb table_name (tables st) = Some table ->
  Dict.get String.eqb table_name (indexes st) = Some table_indexes ->
  exists st',
    delete_rows table_name [] st
    = (Return (List.length (tbl_rows table)), st')
    /\ Dict.get String.eqb table_name (tables st')
       = Some (with_rows table []).
Proof.
  intros Htab Hix. unfold delete_rows.
  rewrite (run_bind _ _ _ _ _ (run_existing_table _ _ _ Htab)).
  rewrite matching_everything.
  unfold lift at 1, bind at 1.
  destruct (delete_all_rows table_name (List.length (tbl_rows table))
              st table table_indexes Htab Hix eq_refl)
    as (st1 & ix1 & Hrun & Htab1 & Hix1).
  rewrite (run_bind _ _ _ _ _ Hrun).
  destruct (rebuild_indexes_of_empty table_name st1 table Htab1)
    as (st2 & Hrebuild & Htab2).
  rewrite (run_bind _ _ _ _ _ Hrebuild).
  rewrite length_seq.
  eexists. split; [reflexivity |]. cbn. exact Htab2.
Qed.

End EngineSteps.

(** ** WHERE clauses without an operator *)

Section OperatorFree.
Context {PF : PyFloat}.

Lemma operator_free_condition (part : string) (conditions : Where) :
  operator_free (Str.strip part) ->
  QueryParser.where_condition part conditions = conditions.
Proof.
  intros Hfree. unfold QueryParser.where_condition.
  destruct (find (fun op => Str.contains op (Str.strip part))
                 QueryParser.operators) as [op |] eqn:F.
  - apply find_some in F as [Hin Hc].
    rewrite (Hfree op Hin) in Hc. discriminate.
  - reflexivity.
Qed.

Lemma operator_free_parts (parts : list string) (conditions : Where) :
  Forall operator_free (map Str.strip parts) ->
  fold_left (fun conditions part =>
               QueryParser.where_condition part conditions)
            parts conditions = conditions.
Proof.
  revert conditions. induction parts as [| part parts IH];
    intros conditions H; simpl.
  - reflexivity.
  - inversion H; subst.
    rewrite operator_free_condition by assumption. auto.
Qed.

(** C9 (as amended). When no AND-separated conjunct of a WHERE text
    holds a comparison operator, the parser returns the empty predicate,
    without error, and the empty predicate matches every row. DELETE
    with such a WHERE text is accepted by the parser and deletes every
    row of the table. UPDATE with such a predicate updates nothing: the
    executor treats the empty predicate as a missing WHERE and answers
    with the safety failure, the engine untouched. *)
Theorem operator_free_where_clause
    (where_str : string) (table_name : string) (st : Engine)
    (table : Table) (table_indexes : TableIndexes) :
  Forall operator_free (conjuncts where_str) ->
  Dict.get String.eqb table_name (tables st) = Some table ->
  Dict.get String.eqb table_name (indexes st) = Some table_indexes ->
  let where_clause := QueryParser._parse_where_clause where_str in
  where_clause = []
  /\ (forall row, _matches_where_clause row where_clause = Return true)
  /\ (forall query m,
        Re.rmatch QueryParser.delete_pattern query = Some m ->
        Re.group 2 m = Some where_str -> where_str <> "" ->
        QueryParser._parse_delete query
        = Return (DELETE (QueryParser.group_text 1 m) (Some [])))
  /\ (exists st',
        _execute_delete table_name (Some where_clause) st
        = (Return
             [("success", PBool true);
              ("message",
               PStr ("Deleted "
                     ++ Str.of_nat (List.length (tbl_rows table))
                     ++ " row(s)"));
              ("deleted_count", PInt (List.length (tbl_rows table)))],
           st')
        /\ Dict.get String.eqb table_name (tables st')
           = Some (with_rows table []))
  /\ (forall updates,
        _execute_update table_name updates (Some where_clause) st
        = (Return (failure (Exn ValueError
                     "UPDATE without WHERE clause not allowed for safety")),
           st)).
Proof.
  intros Hfree Htab Hix where_clause.
  assert (Hempty : where_clause = []).
  { apply operator_free_parts. exact Hfree. }
  rewrite Hempty. split; [reflexivity |]. split; [reflexivity |].
  split; [| split].
  - intros query m Hm Hg Hne. unfold QueryParser._parse_delete.
    rewrite Hm, Hg. fold where_clause.
    destruct where_str as [| c s]; [congruence |]. cbn [QueryParser.nonempty].
    fold where_clause. rewrite Hempty. reflexivity.
  - destruct (delete_rows_everything table_name st table table_indexes
                Htab Hix) as (st' & Hrun & Htab').
    exists st'. split; [| exact Htab'].
    unfold _execute_delete, guarded. unfold bind at 1. unfold lift.
    cbv beta iota. rewrite (run_bind _ _ _ _ _ Hrun). reflexivity.
  - intros updates. reflexivity.
Qed.

End OperatorFree.

(** ** UPDATE is not atomic *)

Section UpdateNotAtomic.
Context {PF : PyFloat}.

Lemma same_files_refl (st : Engine) : same_files st st.
Proof. split; reflexivity. Qed.

Lemma same_files_trans (st1 st2 st3 : Engine) :
  same_files st1 st2 -> same_files st2 st3 -> same_files st1 st3.
Proof. intros [H1 H2] [H3 H4]. split; congruence. Qed.

(** One assignment of [update_rows]: it never writes the files, it keeps
    the table and its indexes in place, and when it raises it has
    changed nothing. *)
Lemma update_column_step (table_name : string) (i : nat)
    (update : string * Value) (st st' : Engine) (o : outcome unit) :
  present table_name st ->
  update_column table_name i update st = (o, st') ->
  present table_name st' /\ same_files st st'
  /\ (forall e, o = Raise e -> st' = st).
Proof.
  intros [[table Htab] [table_indexes Hix]].
  assert (Hhere : present table_name st /\ same_files st st).
  { split; [split; eauto | apply same_files_refl]. }
  destruct update as [col_name new_value]. unfold update_column.
  rewrite (run_bind _ _ _ _ _ (run_the_table _ _ _ Htab)).
  destruct (Dict.get String.eqb col_name (tbl_columns table))
    as [col_def |].
  2:{ intros H. inversion H; subst. destruct Hhere.
      split; [assumption |]. split; [assumption | reflexivity]. }
  set (check := if primary_key col_def
                   || existsb (String.eqb col_name) (tbl_unique_keys table)
                then
                  if conflicts_from 0 i col_name new_value (tbl_rows table)
                  then raise (Exn ValueError
                                ("Constraint violation: "
                                 ++ py_str new_value ++ " already exists"))
                  else ret tt
                else ret tt).
  assert (Hcheck : (exists e, check st = (Raise e, st))
                   \/ check st = (Return tt, st)).
  { unfold check.
    destruct (primary_key col_def || existsb _ _);
      [destruct (conflicts_from _ _ _ _ _) |]; unfold raise, ret; eauto. }
  destruct Hcheck as [[e0 Hc] | Hc].
  { rewrite (run_bind_raise _ _ _ _ _ Hc). intros H. inversion H; subst.
    destruct Hhere. split; [assumption |].
    split; [assumption | reflexivity]. }
  rewrite (run_bind _ _ _ _ _ Hc).
  destruct (_validate_type new_value (col_type col_def)) as [v | e0] eqn:Hv.
  2:{ rewrite (run_bind_raise _ _ _ _ e0
                 (eq_refl : lift (Raise e0) st = (Raise e0, st))).
      intros H. inversion H; subst. destruct Hhere.
      split; [assumption |]. split; [assumption | reflexivity]. }
  rewrite (run_bind _ _ _ _ _
             (eq_refl : lift (Return v) st = (Return v, st))).
  unfold store_table at 1, modify at 1, bind at 1.
  match goal with
  | |- bind (the_table_indexes _) _ ?s = _ -> _ => set (st1 := s)
  end.
  assert (Hix1 : Dict.get String.eqb table_name (indexes st1)
                 = Some table_indexes) by exact Hix.
  assert (Htab1 : exists t1, Dict.get String.eqb table_name (tables st1)
                             = Some t1).
  { eexists. unfold st1. cbn. apply get_set_same. }
  rewrite (run_bind _ _ _ _ _ (run_the_table_indexes _ _ _ Hix1)).
  destruct (Dict.get String.eqb col_name table_indexes) as [index |].
  - rewrite (run_store_index _ _ _ _ _ Hix1).
    intros H. inversion H; subst.
    split; [split |].
    + cbn. destruct Htab1 as [t1 Ht1]. exists t1. exact Ht1.
    + eexists. cbn. apply get_set_same.
    + split; [split; reflexivity | discriminate].
  - intros H. inversion H; subst.
    split; [split; eauto |].
    split; [split; reflexivity | discriminate].
Qed.

(** The loop over the assignments of one row: when it raises, the
    assignments before the failing one have been applied and stay. *)
Lemma update_columns_steps (table_name : string) (i : nat)
    (updates : list (string * Value)) :
  forall (st st' : Engine) (o : outcome unit),
    present table_name st ->
    for_each (update_column table_name i) updates st = (o, st') ->
    present table_name st' /\ same_files st st'
    /\ (forall e, o = Raise e ->
        exists applied failing rest,
          updates = applied ++ failing :: rest
          /\ for_each (update_column table_name i) applied st
             = (Return tt, st')
          /\ update_column table_name i failing st' = (Raise e, st')).
Proof.
  induction updates as [| u updates IH]; intros st st' o Hp Hrun.
  - inversion Hrun; subst. repeat split; try apply Hp. discriminate.
  - cbn [for_each] in Hrun.
    destruct (update_column table_name i u st) as [[[] | e1] st1] eqn:Hu.
    + rewrite (run_bind _ _ _ _ _ Hu) in Hrun.
      destruct (update_column_step _ _ _ _ _ _ Hp Hu) as (Hp1 & Hf1 & _).
      destruct (IH st1 st' o Hp1 Hrun) as (Hp' & Hf' & Hraise).
      split; [exact Hp' |]. split; [eapply same_files_trans; eauto |].
      intros e He.
      destruct (Hraise e He) as (applied & failing & rest & -> & Hdone & Hfail).
      exists (u :: applied), failing, rest. split; [reflexivity |].
      split; [| exact Hfail].
      cbn [for_each]. rewrite (run_bind _ _ _ _ _ Hu). exact Hdone.
    + rewrite (run_bind_raise _ _ _ _ _ Hu) in Hrun.
      inversion Hrun; subst.
      destruct (update_column_step _ _ _ _ _ _ Hp Hu) as (Hp1 & Hf1 & Hsame).
      specialize (Hsame e1 eq_refl). subst st'.
      split; [exact Hp |]. split; [exact Hf1 |].
      intros e He. inversion He; subst.
      exists [], u, updates. repeat split. exact Hu.
Qed.

(** The loop over the rows: when it raises at position [i], the rows
    before [i] have been processed to the end and stay as updated. *)
Lemma update_loop_steps (table_name : string)
    (updates : list (string * Value)) (where_clause : Where)
    (positions : list nat) :
  forall (count : nat) (st st' : Engine) (o : outcome nat),
    present table_name st ->
    update_loop table_name updates where_clause positions count st
    = (o, st') ->
    present table_name st' /\ same_files st st'
    /\ (forall e, o = Raise e ->
        exists before i after_ count_i st_i,
          positions = before ++ i :: after_
          /\ update_loop table_name updates where_clause before count st
             = (Return count_i, st_i)
          /\ failed_at table_name updates where_clause i e st_i st').
Proof.
  induction positions as [| i positions IH];
    intros count st st' o Hp Hrun.
  - inversion Hrun; subst. repeat split; try apply Hp. discriminate.
  - cbn [update_loop] in Hrun.
    pose proof Hp as [[table Htab] _].
    rewrite (run_bind _ _ _ _ _ (run_the_table _ _ _ Htab)) in Hrun.
    destruct (_matches_where_clause (row_at table i) where_clause)
      as [hit | e1] eqn:Hm.
    + rewrite (run_bind _ _ _ _ _
                 (eq_refl : lift (Return hit) st = (Return hit, st)))
        in Hrun.
      destruct hit.
      * destruct (for_each (update_column table_name i) updates st)
          as [[[] | e2] st1] eqn:Hcols.
        -- rewrite (run_bind _ _ _ _ _ Hcols) in Hrun.
           destruct (update_columns_steps _ _ _ _ _ _ Hp Hcols)
             as (Hp1 & Hf1 & _).
           destruct (IH _ _ _ _ Hp1 Hrun) as (Hp' & Hf' & Hraise).
           split; [exact Hp' |].
           split; [eapply same_files_trans; eauto |].
           intros e He.
           destruct (Hraise e He)
             as (before & j & after_ & cj & st_j & -> & Hdone & Hfail).
           exists (i :: before), j, after_, cj, st_j.
           split; [reflexivity |]. split; [| exact Hfail].
           cbn [update_loop].
           rewrite (run_bind _ _ _ _ _ (run_the_table _ _ _ Htab)), Hm.
           rewrite (run_bind _ _ _ _ _
                      (eq_refl : lift (Return true) st = (Return true, st))).
           rewrite (run_bind _ _ _ _ _ Hcols). exact Hdone.
        -- rewrite (run_bind_raise _ _ _ _ _ Hcols) in Hrun.
           inversion Hrun; subst.
           destruct (update_columns_steps _ _ _ _ _ _ Hp Hcols)
             as (Hp1 & Hf1 & Hraise).
           split; [exact Hp1 |]. split; [exact Hf1 |].
           intros e He. inversion He; subst.
           destruct (Hraise e eq_refl)
             as (applied & failing & rest & Hsplit & Hdone & Hfail).
           exists [], i, positions, count, st.
           split; [reflexivity |]. split; [reflexivity |].
           right. exists table, applied, failing, rest. auto.
      * destruct (IH _ _ _ _ Hp Hrun) as (Hp' & Hf' & Hraise).
        split; [exact Hp' |]. split; [exact Hf' |].
        intros e He.
        destruct (Hraise e He)
          as (before & j & after_ & cj & st_j & -> & Hdone & Hfail).
        exists (i :: before), j, after_, cj, st_j.
        split; [reflexivity |]. split; [| exact Hfail].
        cbn [update_loop].
        rewrite (run_bind _ _ _ _ _ (run_the_table _ _ _ Htab)), Hm.
        rewrite (run_bind _ _ _ _ _
                   (eq_refl : lift (Return false) st = (Return false, st))).
        exact Hdone.
    + rewrite (run_bind_raise _ _ _ _ e1
                 (eq_refl : lift (Raise e1) st = (Raise e1, st))) in Hrun.
      inversion Hrun; subst.
      split; [exact Hp |]. split; [apply same_files_refl |].
      intros e He. inversion He; subst.
      exists [], i, positions, count, st'.
      split; [reflexivity |]. split; [reflexivity |].
      left. exists table. auto.
Qed.

Lemma seq_split (before after_ : list nat) (a n i : nat) :
  seq a n = before ++ i :: after_ ->
  before = seq a (List.length before) /\ i = a + List.length before
  /\ List.length before < n.
Proof.
  revert a n. induction before as [| b before IH]; intros a n H.
  - destruct n as [| n]; simpl in H; [discriminate |].
    inversion H; subst. simpl. repeat split; lia.
  - destruct n as [| n]; simpl in H; [discriminate |].
    inversion H; subst.
    destruct (IH _ _ H2) as (Hb & Hi & Hlt).
    simpl. repeat split; [f_equal; exact Hb | lia | lia].
Qed.

(** C10. [update_rows] is not atomic. When it raises, on a table that
    is there with its indexes, the files still hold what they held
    before the statement, and the state in memory is the one reached by
    the work done so far: every row before the failing position [i] has
    been processed to the end, and either the WHERE test of row [i]
    raised, or row [i] matched and the assignments before the failing
    one have been applied to it; the failing step itself changed
    nothing, and nothing is undone. *)
Theorem update_rows_keeps_partial_updates
    (table_name : string) (updates : list (string * Value))
    (where_clause : Where) (st st' : Engine) (e : exn)
    (table : Table) (table_indexes : TableIndexes) :
  Dict.get String.eqb table_name (tables st) = Some table ->
  Dict.get String.eqb table_name (indexes st) = Some table_indexes ->
  update_rows table_name updates where_clause st = (Raise e, st') ->
  same_files st st'
  /\ exists i count st_i,
       i < List.length (tbl_rows table)
       /\ update_loop table_name updates where_clause (seq 0 i) 0 st
          = (Return count, st_i)
       /\ failed_at table_name updates where_clause i e st_i st'.
Proof.
  intros Htab Hix Hrun. unfold update_rows in Hrun.
  rewrite (run_bind _ _ _ _ _ (run_existing_table _ _ _ Htab)) in Hrun.
  assert (Hp : present table_name st) by (split; eauto).
  destruct (update_loop table_name updates where_clause
              (seq 0 (List.length (tbl_rows table))) 0 st)
    as [[n | e1] st1] eqn:Hloop.
  - rewrite (run_bind _ _ _ _ _ Hloop) in Hrun. discriminate.
  - rewrite (run_bind_raise _ _ _ _ _ Hloop) in Hrun.
    inversion Hrun; subst.
    destruct (update_loop_steps _ _ _ _ _ _ _ _ Hp Hloop)
      as (_ & Hfiles & Hraise).
    split; [exact Hfiles |].
    destruct (Hraise e eq_refl)
      as (before & i & after_ & count_i & st_i & Hsplit & Hdone & Hfail).
    destruct (seq_split _ _ _ _ _ Hsplit) as (Hb & Hi & Hlt).
    simpl in Hi. subst i. rewrite Hb in Hdone.
    exists (List.length before), count_i, st_i. auto.
Qed.

End UpdateNotAtomic.

(** ** What the mutations keep of a primary key *)

Section KeyedDictionaries.
Context {K V : Type} (eqb : K -> K -> bool).

Lemma keys_set_incl (k k' : K) (v : V) (d : list (K * V)) :
  In k (Dict.keys d) -> In k (Dict.keys (Dict.set eqb k' v d)).
Proof.
  induction d as [| [k0 v0] d IH]; simpl; [intros [] |].
  destruct (eqb k' k0); simpl; intros [-> | Hin]; auto.
Qed.

Lemma keys_set_new (k : K) (v : V) (d : list (K * V)) :
  Dict.mem eqb k d = false -> In k (Dict.keys (Dict.set eqb k v d)).
Proof.
  unfold Dict.mem. induction d as [| [k0 v0] d IH]; simpl.
  - auto.
  - destruct (eqb k k0); [discriminate |]. simpl. auto.
Qed.

Lemma mem_false_keys (k : K) (d : list (K * V)) :
  Dict.mem eqb k d = false ->
  forall k', In k' (Dict.keys d) -> eqb k k' = false.
Proof.
  unfold Dict.mem. induction d as [| [k0 v0] d IH]; simpl.
  - intros _ k' [].
  - destruct (eqb k k0) eqn:E; [discriminate |].
    intros H k' [<- | Hin]; auto.
Qed.

Lemma keys_all_differ (k : K) (d : list (K * V)) :
  (forall k', In k' (Dict.keys d) -> eqb k k' = false) ->
  Dict.mem eqb k d = false.
Proof.
  unfold Dict.mem. induction d as [| [k0 v0] d IH]; simpl.
  - reflexivity.
  - intros H. rewrite (H k0 (or_introl eq_refl)). apply IH.
    intros k' Hin. apply H. auto.
Qed.

Lemma mem_of_key (k k' : K) (d : list (K * V)) :
  In k' (Dict.keys d) -> eqb k k' = true -> Dict.mem eqb k d = true.
Proof.
  unfold Dict.mem. induction d as [| [k0 v0] d IH]; simpl; [intros [] |].
  destruct (eqb k k0) eqn:E; [reflexivity |].
  intros [-> | Hin] Heq; [congruence | auto].
Qed.

Lemma keys_of_set (k : K) (v : V) (d : list (K * V)) (k' : K) :
  In k' (Dict.keys (Dict.set eqb k v d)) -> In k' (Dict.keys d) \/ k' = k.
Proof.
  induction d as [| [k0 v0] d IH]; simpl.
  - intros [<- | []]. auto.
  - destruct (eqb k k0); simpl; intros [<- | Hin]; auto.
    destruct (IH Hin); auto.
Qed.

End KeyedDictionaries.

Section PrimaryKeyInvariant.
Context {PF : PyFloat}.

Lemma others_kept_refl (table_name : string) (st : Engine) :
  others_kept table_name st st.
Proof. intros other _. auto. Qed.

Lemma others_kept_trans (table_name : string) (st1 st2 st3 : Engine) :
  others_kept table_name st1 st2 -> others_kept table_name st2 st3 ->
  others_kept table_name st1 st3.
Proof.
  intros H12 H23 other Hne.
  destruct (H12 other Hne) as [Ht Hi], (H23 other Hne) as [Ht' Hi'].
  split; congruence.
Qed.

(** The invariant passes from [st] to [st'] when only one table is
    touched and the invariant holds of it afterwards. *)
Lemma invariant_step (table_name : string) (st st' : Engine) :
  engine_invariant st ->
  others_kept table_name st st' ->
  (forall table,
      Dict.get String.eqb table_name (tables st') = Some table ->
      exists table_indexes,
        Dict.get String.eqb table_name (indexes st') = Some table_indexes
        /\ pk_invariant table table_indexes) ->
  engine_invariant st'.
Proof.
  intros Hinv Hkept Hnew other table Hget.
  destruct (String.eqb other table_name) eqn:E.
  - apply String.eqb_eq in E. subst other. apply Hnew. exact Hget.
  - apply String.eqb_neq in E. destruct (Hkept other E) as [Ht Hi].
    rewrite Ht in Hget. rewrite Hi. apply Hinv. exact Hget.
Qed.

Lemma store_index_loop (table_name : string) (keys : list string) :
  forall (st : Engine) (table_indexes : TableIndexes),
    Dict.get String.eqb table_name (indexes st) = Some table_indexes ->
    exists st',
      for_each (fun key => store_index table_name key []) keys st
      = (Return tt, st')
      /\ tables st' = tables st
      /\ Dict.get String.eqb table_name (indexes st')
         = Some (fold_left (fun t key => Dict.set String.eqb key [] t)
                           keys table_indexes)
      /\ forall other, other <> table_name ->
           Dict.get String.eqb other (indexes st')
           = Dict.get String.eqb other (indexes st).
Proof.
  induction keys as [| key keys IH]; intros st table_indexes Hix.
  - exists st. cbn. auto.
  - cbn [for_each fold_left].
    rewrite (run_bind _ _ _ _ _ (run_store_index _ _ _ _ _ Hix)).
    match goal with
    | |- context [for_each _ keys ?s] =>
        destruct (IH s (Dict.set String.eqb key [] table_indexes))
          as (st' & Hrun & Htab & Hix' & Hother);
          [cbn; apply get_set_same |]
    end.
    exists st'. split; [exact Hrun |]. split; [exact Htab |].
    split; [exact Hix' |].
    intros other Hne. rewrite (Hother other Hne). cbn.
    apply get_set_other. exact Hne.
Qed.

Lemma fresh_key_empty (keys : list string) (key : string) :
  forall table_indexes : TableIndexes,
    In key keys \/ Dict.get String.eqb key table_indexes = Some [] ->
    Dict.get String.eqb key
      (fold_left (fun t k => Dict.set String.eqb k ([] : Index) t)
                 keys table_indexes) = Some [].
Proof.
  induction keys as [| k keys IH]; intros table_indexes H; cbn [fold_left].
  - destruct H as [[] | H]. exact H.
  - apply IH. destruct H as [[-> | Hin] | Hget].
    + right. apply get_set_same.
    + left. exact Hin.
    + right. destruct (String.eqb key k) eqn:E.
      * apply String.eqb_eq in E. subst. apply get_set_same.
      * apply String.eqb_neq in E. rewrite get_set_other by exact E.
        exact Hget.
Qed.

Lemma later_differs_nil (col : string) : later_differs col [].
Proof. constructor. Qed.

Lemma keys_cover_nil (col : string) (index : Index) : keys_cover col [] index.
Proof. intros v []. Qed.

(** [create_table] keeps the invariant. *)
Lemma create_table_keeps_invariant (table_name : string) (columns : Columns)
    (st st' : Engine) (o : outcome bool) :
  create_table table_name columns st = (o, st') ->
  engine_invariant st -> engine_invariant st'.
Proof.
  unfold create_table.
  rewrite (run_bind _ _ _ _ _
             (eq_refl : read tables st = (Return (tables st), st))).
  destruct (Dict.mem String.eqb table_name (tables st)) eqn:Hmem.
  { intros H. inversion H; subst. auto. }
  set (primary_keys := map fst (filter (fun c => primary_key (snd c)) columns)).
  set (unique_keys := map fst (filter (fun c => unique (snd c)) columns)).
  destruct (1 <? List.length primary_keys)%nat.
  { intros H. inversion H; subst. auto. }
  set (table := {| tbl_columns := columns; tbl_rows := [];
                   tbl_primary_key := hd_error primary_keys;
                   tbl_unique_keys := unique_keys |}).
  unfold store_table at 1, modify at 1, bind at 1.
  unfold store_table_indexes at 1, modify at 1, bind at 1.
  match goal with
  | |- bind (for_each _ _) _ ?s = _ -> _ => set (st2 := s)
  end.
  assert (Hix2 : Dict.get String.eqb table_name (indexes st2) = Some [])
    by (unfold st2; cbn; apply get_set_same).
  destruct (store_index_loop table_name (primary_keys ++ unique_keys)
              st2 [] Hix2) as (st3 & Hrun & Htab3 & Hix3 & Hother3).
  rewrite (run_bind _ _ _ _ _ Hrun).
  intros H Hinv. inversion H; subst o st'. clear H.
  apply (invariant_step table_name st); [exact Hinv | |].
  - intros other Hne. cbn. rewrite Htab3, (Hother3 other Hne).
    unfold st2. cbn. split; apply get_set_other; exact Hne.
  - intros table0 Hget. cbn in Hget. rewrite Htab3 in Hget.
    unfold st2 in Hget. cbn in Hget. rewrite get_set_same in Hget.
    inversion Hget; subst table0. clear Hget.
    eexists. split; [cbn; exact Hix3 |].
    intros pk Hpk. cbn in Hpk.
    assert (Hin : In pk primary_keys).
    { unfold named in Hpk. destruct primary_keys as [| k ks]; [discriminate |].
      cbn in Hpk. destruct k; inversion Hpk; subst. left. reflexivity. }
    split; [| split].
    + unfold primary_keys in Hin. apply in_map_iff in Hin.
      destruct Hin as ([k def] & Hk & Hf). apply filter_In in Hf.
      cbn in Hk. subst k. exists def. tauto.
    + apply later_differs_nil.
    + exists []. split; [| split].
      * apply fresh_key_empty. left. apply in_or_app. left. exact Hin.
      * apply keys_cover_nil.
      * intros _. split; [reflexivity | intros k []].
Qed.

Lemma ordinal_differs (i j : nat) :
  i <> j -> py_eq (ordinal i) (ordinal j) = false.
Proof.
  intros H. unfold ordinal, py_eq, py_compare. cbn.
  destruct (Z.compare_spec (Z.of_nat i) (Z.of_nat j)); [lia | |]; reflexivity.
Qed.

Lemma in_ordinals (k : Value) (from n : nat) :
  In k (ordinals from n) <-> exists i, k = ordinal i /\ from <= i < from + n.
Proof.
  unfold ordinals. rewrite in_map_iff. split.
  - intros (i & <- & Hin). apply in_seq in Hin. eauto.
  - intros (i & -> & Hin). exists i. split; [reflexivity |].
    apply in_seq. exact Hin.
Qed.

Lemma ordinals_snoc (from n : nat) :
  ordinals from (S n) = ordinals from n ++ [ordinal (from + n)].
Proof. unfold ordinals. rewrite seq_S, map_app. reflexivity. Qed.

Lemma ordinals_differ (n : nat) :
  forall from, ForallOrdPairs differ (ordinals from n).
Proof.
  induction n as [| n IH]; intros from; [constructor |].
  change (ordinals from (S n)) with (ordinal from :: ordinals (S from) n).
  constructor; [| apply IH].
  apply Forall_forall. intros later Hin _ _.
  apply in_ordinals in Hin. destruct Hin as (i & -> & Hi).
  apply ordinal_differs. lia.
Qed.

(** A position past the keys of an index of positions is not in it. *)
Lemma next_ordinal_is_new (index : Index) (n : nat) :
  (forall k, In k (Dict.keys index) -> In k (ordinals 0 n)) ->
  Dict.mem py_eq (ordinal n) index = false.
Proof.
  intros Hbound. apply keys_all_differ. intros k Hk.
  apply Hbound, in_ordinals in Hk. destruct Hk as (i & -> & Hi).
  apply ordinal_differs. lia.
Qed.

Lemma distinct_snoc (values : list Value) (v : Value) :
  ForallOrdPairs differ values ->
  Forall (fun earlier => differ earlier v) values ->
  ForallOrdPairs differ (values ++ [v]).
Proof.
  intros Hd Hv. induction Hd as [| a l Ha Hl IH]; cbn.
  - constructor; constructor.
  - inversion Hv; subst. constructor; [| auto].
    apply Forall_app. split; [exact Ha |]. constructor; [assumption |].
    constructor.
Qed.

Lemma row_get_set_other (col key : string) (v : Value) (row : Row) :
  col <> key -> row_get col (Dict.set String.eqb key v row) = row_get col row.
Proof. intros H. unfold row_get. rewrite get_set_other by exact H. reflexivity. Qed.

(** The loop of [insert_row] that records the new row in the indexes,
    seen from the index of the column [pk]. *)
Lemma index_row_loop (table_name : string) (row : Row) (row_id : nat)
    (pk : string) (cols : list string) :
  forall (st : Engine) (table_indexes : TableIndexes) (index : Index),
    Dict.get String.eqb table_name (indexes st) = Some table_indexes ->
    Dict.get String.eqb pk table_indexes = Some index ->
    (forall c, In c cols -> In c (Dict.keys table_indexes)) ->
    exists st' table_indexes' index',
      for_each (index_row table_name row row_id) cols st = (Return tt, st')
      /\ tables st' = tables st
      /\ (forall other, other <> table_name ->
            Dict.get String.eqb other (indexes st')
            = Dict.get String.eqb other (indexes st))
      /\ Dict.get String.eqb table_name (indexes st') = Some table_indexes'
      /\ Dict.get String.eqb pk table_indexes' = Some index'
      /\ (forall k, In k (Dict.keys index) -> In k (Dict.keys index'))
      /\ (forall k, In k (Dict.keys index') ->
            In k (Dict.keys index) \/ k = row_get pk row)
      /\ (In pk cols -> is_None (row_get pk row) = false ->
          Dict.mem py_eq (row_get pk row) index = false
          \/ In (row_get pk row) (Dict.keys index) ->
          In (row_get pk row) (Dict.keys index')).
Proof.
  induction cols as [| c cols IH]; intros st table_indexes index Hix Hpk Hcols.
  - exists st, table_indexes, index. cbn. repeat split; auto. intros [].
  - cbn [for_each].
    destruct (get_of_key c table_indexes (Hcols c (or_introl eq_refl)))
      as [index_c Hc].
    assert (Hstep : exists st1 table_indexes1 index1,
               index_row table_name row row_id c st = (Return tt, st1)
               /\ tables st1 = tables st
               /\ (forall other, other <> table_name ->
                     Dict.get String.eqb other (indexes st1)
                     = Dict.get String.eqb other (indexes st))
               /\ Dict.get String.eqb table_name (indexes st1)
                  = Some table_indexes1
               /\ Dict.keys table_indexes1 = Dict.keys table_indexes
               /\ Dict.get String.eqb pk table_indexes1 = Some index1
               /\ (forall k, In k (Dict.keys index) -> In k (Dict.keys index1))
               /\ (forall k, In k (Dict.keys index1) ->
                     In k (Dict.keys index) \/ k = row_get pk row)
               /\ (c = pk -> is_None (row_get pk row) = false ->
                   Dict.mem py_eq (row_get pk row) index = false
                   \/ In (row_get pk row) (Dict.keys index) ->
                   In (row_get pk row) (Dict.keys index1))
               /\ (c <> pk -> index1 = index)).
    { unfold index_row.
      destruct (is_None (row_get c row)) eqn:Hnone; cbn [negb].
      - exists st, table_indexes, index. repeat split; auto.
        intros -> Hnn. congruence.
      - rewrite (run_bind _ _ _ _ _ (run_the_index _ _ _ _ _ Hix Hc)).
        rewrite (run_store_index _ _ _ _ _ Hix).
        destruct (String.eqb pk c) eqn:E.
        + apply String.eqb_eq in E. subst c.
          assert (index_c = index) by congruence. subst index_c.
          eexists _, _, _. split; [reflexivity |].
          split; [reflexivity |]. split.
          { intros other Hne. cbn. apply get_set_other. exact Hne. }
          split; [cbn; apply get_set_same |].
          split; [eapply keys_set_present; eassumption |].
          split; [apply get_set_same |].
          split; [intros k Hk; apply keys_set_incl; exact Hk |].
          split; [intros k Hk; apply keys_of_set in Hk; exact Hk |].
          split; [| congruence].
          intros _ _ [Hnew | Hold];
            [apply keys_set_new; exact Hnew
            | apply keys_set_incl; exact Hold].
        + apply String.eqb_neq in E.
          eexists _, _, index. split; [reflexivity |].
          split; [reflexivity |]. split.
          { intros other Hne. cbn. apply get_set_other. exact Hne. }
          split; [cbn; apply get_set_same |].
          split; [eapply keys_set_present; eassumption |].
          split; [rewrite get_set_other by exact E; exact Hpk |].
          split; [auto |]. split; [auto |].
          split; [congruence | reflexivity]. }
    destruct Hstep as (st1 & tix1 & index1 & Hrun1 & Htab1 & Hother1 & Hix1
                       & Hkeys1 & Hpk1 & Hincl1 & Hback1 & Hnew1 & Hsame1).
    rewrite (run_bind _ _ _ _ _ Hrun1).
    destruct (IH st1 tix1 index1 Hix1 Hpk1)
      as (st' & tix' & index' & Hrun & Htab & Hother & Hix' & Hpk' & Hincl
          & Hback & Hnew).
    { intros c' Hc'. rewrite Hkeys1. apply Hcols. right. exact Hc'. }
    exists st', tix', index'. split; [exact Hrun |].
    split; [congruence |]. split.
    { intros other Hne. rewrite (Hother other Hne). auto. }
    split; [exact Hix' |]. split; [exact Hpk' |].
    split; [auto |]. split.
    { intros k Hk. destruct (Hback k Hk) as [Hk1 | Hk1]; auto. }
    intros [-> | Hin] Hnn Hor.
    + apply Hincl. apply Hnew1; auto.
    + destruct (String.eqb pk c) eqn:E.
      * apply String.eqb_eq in E. subst c.
        apply Hincl. apply Hnew1; auto.
      * apply String.eqb_neq in E.
        assert (index1 = index) by (apply Hsame1; congruence). subst index1.
        apply Hnew; auto.
Qed.

Lemma check_primary_key_reads (table_name : string) (table : Table)
    (validated_row : Row) (st st' : Engine) (o : outcome unit) :
  check_primary_key table_name table validated_row st = (o, st') ->
  st' = st
  /\ (o = Return tt ->
      forall pk table_indexes index,
        named (tbl_primary_key table) = Some pk ->
        Dict.get String.eqb table_name (indexes st) = Some table_indexes ->
        Dict.get String.eqb pk table_indexes = Some index ->
        exists pk_value,
          Dict.get String.eqb pk validated_row = Some pk_value
          /\ Dict.mem py_eq pk_value index = false).
Proof.
  unfold check_primary_key.
  destruct (named (tbl_primary_key table)) as [pk |].
  2:{ intros H. inversion H; subst. split; [reflexivity | discriminate]. }
  unfold bind at 1, lift at 1, getitem.
  destruct (Dict.get String.eqb pk validated_row) as [pk_value |] eqn:Hval.
  2:{ intros H. inversion H; subst. split; [reflexivity | discriminate]. }
  unfold the_index, the_table_indexes, bind, read, lift, getitem.
  destruct (Dict.get String.eqb table_name (indexes st)) as [tix |].
  2:{ intros H. inversion H; subst. split; [reflexivity | discriminate]. }
  destruct (Dict.get String.eqb pk tix) as [index |] eqn:Hindex.
  2:{ intros H. inversion H; subst. split; [reflexivity | discriminate]. }
  destruct (Dict.mem py_eq pk_value index) eqn:Hmem; unfold raise, ret;
    intros H; inversion H; subst; (split; [reflexivity |]).
  - discriminate.
  - intros _ pk' tix' index' Hpk Htix Hidx.
    inversion Hpk; subst pk'. inversion Htix; subst tix'.
    assert (index' = index) by congruence. subst index'.
    exists pk_value. split; [exact Hval | exact Hmem].
Qed.

Lemma check_unique_keys_read (table_name : string) (table : Table)
    (validated_row : Row) (keys : list string) :
  forall (st st' : Engine) (o : outcome unit),
    for_each (check_unique_key table_name table validated_row) keys st
    = (o, st') ->
    st' = st.
Proof.
  induction keys as [| key keys IH]; intros st st' o H.
  - inversion H. reflexivity.
  - cbn [for_each] in H.
    assert (Hone : exists o1,
               check_unique_key table_name table validated_row key st
               = (o1, st)).
    { unfold check_unique_key.
      destruct (negb _); [| eexists; reflexivity].
      unfold bind at 1, lift at 1, getitem.
      destruct (Dict.get String.eqb key validated_row) as [uk_value |];
        [| eexists; reflexivity].
      destruct (truthy uk_value); [| eexists; reflexivity].
      unfold the_index, the_table_indexes, bind, read, lift, getitem.
      destruct (Dict.get String.eqb table_name (indexes st)) as [tix |];
        [| eexists; reflexivity].
      destruct (Dict.get String.eqb key tix) as [index |];
        [| eexists; reflexivity].
      destruct (Dict.mem py_eq uk_value index); eexists; reflexivity. }
    destruct Hone as [[[] | e] H1].
    + rewrite (run_bind _ _ _ _ _ H1) in H. eapply IH. exact H.
    + rewrite (run_bind_raise _ _ _ _ _ H1) in H. inversion H. reflexivity.
Qed.

Lemma key_of_get {V} (k : string) (v : V) (d : list (string * V)) :
  Dict.get String.eqb k d = Some v -> In k (Dict.keys d).
Proof.
  induction d as [| [k0 v0] d IH]; simpl; [discriminate |].
  destruct (String.eqb k k0) eqn:E.
  - apply String.eqb_eq in E. auto.
  - auto.
Qed.

Lemma index_row_frames (table_name : string) (row : Row) (row_id : nat)
    (cols : list string) :
  forall (st : Engine) (table_indexes : TableIndexes),
    Dict.get String.eqb table_name (indexes st) = Some table_indexes ->
    (forall c, In c cols -> In c (Dict.keys table_indexes)) ->
    exists st' table_indexes',
      for_each (index_row table_name row row_id) cols st = (Return tt, st')
      /\ tables st' = tables st
      /\ (forall other, other <> table_name ->
            Dict.get String.eqb other (indexes st')
            = Dict.get String.eqb other (indexes st))
      /\ Dict.get String.eqb table_name (indexes st') = Some table_indexes'.
Proof.
  intros st table_indexes Hix Hcols.
  destruct cols as [| c cols].
  - exists st, table_indexes. cbn. auto.
  - destruct (get_of_key c table_indexes (Hcols c (or_introl eq_refl)))
      as [index Hc].
    destruct (index_row_loop table_name row row_id c (c :: cols)
                st table_indexes index Hix Hc Hcols)
      as (st' & tix' & _ & Hrun & Htab & Hother & Hix' & _).
    exists st', tix'. auto.
Qed.

(** [insert_row] keeps the invariant. *)
Lemma insert_row_keeps_invariant (table_name : string) (row_data : Row)
    (st st' : Engine) (o : outcome nat) :
  insert_row table_name row_data st = (o, st') ->
  engine_invariant st -> engine_invariant st'.
Proof.
  intros Hrun Hinv. unfold insert_row in Hrun.
  destruct (Dict.get String.eqb table_name (tables st)) as [table |] eqn:Htab.
  2:{ unfold existing_table, bind, read in Hrun. rewrite Htab in Hrun.
      inversion Hrun; subst. exact Hinv. }
  rewrite (run_bind _ _ _ _ _ (run_existing_table _ _ _ Htab)) in Hrun.
  destruct (validate_row (tbl_columns table) row_data []) as [vrow | e] eqn:Hv.
  2:{ rewrite (run_bind_raise _ _ _ _ e
                 (eq_refl : lift (Raise e) st = (Raise e, st))) in Hrun.
      inversion Hrun; subst. exact Hinv. }
  rewrite (run_bind _ _ _ _ _
             (eq_refl : lift (Return vrow) st = (Return vrow, st))) in Hrun.
  destruct (check_primary_key table_name table vrow st) as [o1 st1] eqn:Hc.
  destruct (check_primary_key_reads _ _ _ _ _ _ Hc) as [-> Hok].
  destruct o1 as [[] | e1].
  2:{ rewrite (run_bind_raise _ _ _ _ _ Hc) in Hrun.
      inversion Hrun; subst. exact Hinv. }
  rewrite (run_bind _ _ _ _ _ Hc) in Hrun.
  destruct (for_each (check_unique_key table_name table vrow)
              (tbl_unique_keys table) st) as [o2 st2] eqn:Hu.
  pose proof (check_unique_keys_read _ _ _ _ _ _ _ Hu) as ->.
  destruct o2 as [[] | e2].
  2:{ rewrite (run_bind_raise _ _ _ _ _ Hu) in Hrun.
      inversion Hrun; subst. exact Hinv. }
  rewrite (run_bind _ _ _ _ _ Hu) in Hrun.
  destruct (Hinv table_name table Htab) as (tix & Hix & Hpkinv).
  cbv zeta in Hrun.
  unfold store_table at 1, modify at 1, bind at 1 in Hrun.
  set (new_row := Dict.set String.eqb "_row_id"
                    (VInt (Z.of_nat (List.length (tbl_rows table)))) vrow)
    in Hrun.
  set (new_table := with_rows table (tbl_rows table ++ [new_row])) in Hrun.
  match type of Hrun with
  | bind (the_table_indexes _) _ ?s = _ => set (st1 := s) in Hrun
  end.
  assert (Hix1 : Dict.get String.eqb table_name (indexes st1) = Some tix)
    by exact Hix.
  rewrite (run_bind _ _ _ _ _ (run_the_table_indexes _ _ _ Hix1)) in Hrun.
  destruct (index_row_frames table_name new_row
              (List.length (tbl_rows table)) (Dict.keys tix) st1 tix Hix1)
    as (st2 & tix2 & Hloop & Htab2 & Hother2 & Hix2); [auto |].
  rewrite (run_bind _ _ _ _ _ Hloop) in Hrun.
  inversion Hrun; subst o st'. clear Hrun.
  apply (invariant_step table_name st); [exact Hinv | |].
  - intros other Hne. cbn. rewrite Htab2, (Hother2 other Hne).
    unfold st1. cbn. split; [apply get_set_other; exact Hne | reflexivity].
  - intros table0 Hget. cbn in Hget. rewrite Htab2 in Hget.
    unfold st1 in Hget. cbn in Hget. rewrite get_set_same in Hget.
    inversion Hget; subst table0. clear Hget.
    exists tix2. split; [exact Hix2 |].
    intros pk Hnamed.
    destruct (Hpkinv pk Hnamed)
      as (Hdecl & Hdiff & index & Hidx & Hcover & Hnum).
    destruct (Hok eq_refl pk tix index Hnamed Hix Hidx)
      as (pk_value & Hval & Hmem).
    destruct (index_row_loop table_name new_row
                (List.length (tbl_rows table)) pk (Dict.keys tix)
                st1 tix index Hix1 Hidx)
      as (st2' & tix2' & index' & Hloop' & _ & _ & Hix2' & Hidx' & Hincl
          & Hback & Hnew); [auto |].
    assert (st2' = st2) by congruence. subst st2'.
    assert (tix2' = tix2) by congruence. subst tix2'.
    assert (Hstored : Dict.mem py_eq (row_get pk new_row) index = false).
    { destruct (String.eqb pk "_row_id") eqn:E.
      - apply String.eqb_eq in E. subst pk.
        unfold new_row, row_get. rewrite get_set_same.
        apply next_ordinal_is_new. apply (Hnum eq_refl).
      - apply String.eqb_neq in E. unfold new_row.
        rewrite row_get_set_other by exact E.
        unfold row_get. rewrite Hval. exact Hmem. }
    assert (Hcol : values_in pk (tbl_rows new_table)
                   = values_in pk (tbl_rows table) ++ [row_get pk new_row]).
    { cbn. unfold values_in. rewrite map_app. reflexivity. }
    split; [exact Hdecl |]. split.
    + unfold later_differs. rewrite Hcol.
      apply distinct_snoc; [exact Hdiff |].
      apply Forall_forall. intros earlier Hin _ He.
      apply (mem_false_keys py_eq _ index Hstored).
      apply Hcover; assumption.
    + exists index'. split; [exact Hidx' |]. split.
      * unfold keys_cover. rewrite Hcol.
        intros v Hin Hnn. apply in_app_or in Hin.
        destruct Hin as [Hin | [<- | []]].
        -- apply Hincl. apply Hcover; assumption.
        -- apply Hnew; [eapply key_of_get; eassumption | exact Hnn |].
           left. exact Hstored.
      * intros ->. destruct (Hnum eq_refl) as [Hids Hbound].
        assert (Hid : row_get "_row_id" new_row
                      = ordinal (List.length (tbl_rows table))).
        { unfold new_row, row_get. rewrite get_set_same. reflexivity. }
        assert (Hlen : List.length (tbl_rows new_table)
                       = S (List.length (tbl_rows table))).
        { cbn. rewrite length_app. cbn. lia. }
        unfold numbered. rewrite Hlen, ordinals_snoc, Hcol, Hids, Hid.
        split; [reflexivity |].
        intros k Hk. apply in_or_app.
        destruct (Hback k Hk) as [Hold | ->].
        -- left. apply Hbound. exact Hold.
        -- right. left. symmetry. exact Hid.
Qed.

Lemma values_in_remove_nth (col : string) (i : nat) (rows : list Row) :
  values_in col (remove_nth i rows) = remove_nth i (values_in col rows).
Proof.
  revert i. induction rows as [| row rows IH]; intros i;
    [destruct i; reflexivity |].
  destruct i as [| i]; cbn; [reflexivity |]. f_equal. apply IH.
Qed.

Lemma Forall_remove_nth {A} (P : A -> Prop) (i : nat) (l : list A) :
  Forall P l -> Forall P (remove_nth i l).
Proof.
  intros H. revert i. induction H as [| x l Hx Hl IH]; intros i.
  - destruct i; constructor.
  - destruct i as [| i]; cbn; [exact Hl |]. constructor; auto.
Qed.

Lemma distinct_remove_nth (i : nat) (values : list Value) :
  ForallOrdPairs differ values ->
  ForallOrdPairs differ (remove_nth i values).
Proof.
  intros H. revert i. induction H as [| a l Ha Hl IH]; intros i.
  - destruct i; constructor.
  - destruct i as [| i]; cbn; [exact Hl |].
    constructor; [apply Forall_remove_nth; exact Ha | apply IH].
Qed.

(** The loop of [delete_rows] over the rows to take out: the table keeps
    its definition and loses rows, nothing else is touched. *)
Lemma delete_rows_loop (table_name : string) (positions : list nat) :
  forall (st : Engine) (table : Table) (table_indexes : TableIndexes),
    Dict.get String.eqb table_name (tables st) = Some table ->
    Dict.get String.eqb table_name (indexes st) = Some table_indexes ->
    exists st' rows' table_indexes',
      for_each (delete_row table_name) positions st = (Return tt, st')
      /\ Dict.get String.eqb table_name (tables st')
         = Some (with_rows table rows')
      /\ (forall col, later_differs col (tbl_rows table) ->
                      later_differs col rows')
      /\ Dict.get String.eqb table_name (indexes st') = Some table_indexes'
      /\ others_kept table_name st st'.
Proof.
  induction positions as [| i positions IH]; intros st table tix Htab Hix.
  - exists st, (tbl_rows table), tix. cbn [for_each].
    split; [reflexivity |]. split.
    + rewrite Htab. destruct table; reflexivity.
    + split; [auto |]. split; [exact Hix | apply others_kept_refl].
  - cbn [for_each].
    destruct (run_delete_row table_name i st table tix Htab Hix)
      as (st1 & tix1 & Hrun1 & Htab1 & Hix1 & Hkept1).
    rewrite (run_bind _ _ _ _ _ Hrun1).
    destruct (IH st1 _ tix1 Htab1 Hix1)
      as (st' & rows' & tix' & Hrun & Htab' & Hdiff & Hix' & Hkept).
    exists st', rows', tix'. split; [exact Hrun |].
    split; [exact Htab' |]. split.
    + intros col Hcol. apply Hdiff. cbn. unfold later_differs.
      rewrite values_in_remove_nth. apply distinct_remove_nth. exact Hcol.
    + split; [exact Hix' |]. eapply others_kept_trans; eassumption.
Qed.

(** One row of the second loop of [_rebuild_indexes], seen from the
    index of the column [pk]. *)
Lemma reindex_value_loop (row : Row) (i : nat) (pk : string)
    (cols : list string) :
  forall (table_indexes : TableIndexes) (index : Index),
    Dict.get String.eqb pk table_indexes = Some index ->
    (forall c, In c cols -> In c (Dict.keys table_indexes)) ->
    exists index',
      Dict.keys (fold_left (reindex_value row i) cols table_indexes)
      = Dict.keys table_indexes
      /\ Dict.get String.eqb pk
           (fold_left (reindex_value row i) cols table_indexes)
         = Some index'
      /\ (forall k, In k (Dict.keys index) -> In k (Dict.keys index'))
      /\ (forall k, In k (Dict.keys index') ->
            In k (Dict.keys index)
            \/ (k = row_get pk row /\ is_None k = false))
      /\ (In pk cols -> is_None (row_get pk row) = false ->
          Dict.mem py_eq (row_get pk row) index = false
          \/ In (row_get pk row) (Dict.keys index) ->
          In (row_get pk row) (Dict.keys index')).
Proof.
  induction cols as [| c cols IH]; intros tix index Hpk Hcols.
  - exists index. cbn. repeat split; auto. intros [].
  - cbn [fold_left].
    destruct (get_of_key c tix (Hcols c (or_introl eq_refl))) as [index_c Hc].
    assert (Hstep : exists index1,
               Dict.keys (reindex_value row i tix c) = Dict.keys tix
               /\ Dict.get String.eqb pk (reindex_value row i tix c)
                  = Some index1
               /\ (forall k, In k (Dict.keys index) -> In k (Dict.keys index1))
               /\ (forall k, In k (Dict.keys index1) ->
                     In k (Dict.keys index)
                     \/ (k = row_get pk row /\ is_None k = false))
               /\ (c = pk -> is_None (row_get pk row) = false ->
                   Dict.mem py_eq (row_get pk row) index = false
                   \/ In (row_get pk row) (Dict.keys index) ->
                   In (row_get pk row) (Dict.keys index1))
               /\ (c <> pk -> index1 = index)).
    { unfold reindex_value.
      destruct (is_None (row_get c row)) eqn:Hnone; cbn [negb].
      - exists index. repeat split; auto. intros -> Hnn. congruence.
      - rewrite Hc. destruct (String.eqb pk c) eqn:E.
        + apply String.eqb_eq in E. subst c.
          assert (index_c = index) by congruence. subst index_c.
          eexists. split; [eapply keys_set_present; eassumption |].
          split; [apply get_set_same |].
          split; [intros k Hk; apply keys_set_incl; exact Hk |].
          split.
          { intros k Hk. apply keys_of_set in Hk.
            destruct Hk as [Hk | ->]; auto. }
          split; [| congruence].
          intros _ _ [Hnew | Hold];
            [apply keys_set_new; exact Hnew
            | apply keys_set_incl; exact Hold].
        + apply String.eqb_neq in E.
          exists index. split; [eapply keys_set_present; eassumption |].
          split; [rewrite get_set_other by exact E; exact Hpk |].
          split; [auto |]. split; [auto |].
          split; [congruence | reflexivity]. }
    destruct Hstep as (index1 & Hkeys1 & Hpk1 & Hincl1 & Hback1 & Hnew1
                       & Hsame1).
    destruct (IH (reindex_value row i tix c) index1 Hpk1)
      as (index' & Hkeys & Hpk' & Hincl & Hback & Hnew).
    { intros c' Hc'. rewrite Hkeys1. apply Hcols. right. exact Hc'. }
    exists index'. split; [congruence |]. split; [exact Hpk' |].
    split; [auto |]. split.
    { intros k Hk. destruct (Hback k Hk) as [Hk1 | Hk1]; auto. }
    intros [-> | Hin] Hnn Hor.
    + apply Hincl. apply Hnew1; auto.
    + destruct (String.eqb pk c) eqn:E.
      * apply String.eqb_eq in E. subst c.
        apply Hincl. apply Hnew1; auto.
      * apply String.eqb_neq in E.
        assert (index1 = index) by (apply Hsame1; congruence). subst index1.
        apply Hnew; auto.
Qed.

(** The second loop of [_rebuild_indexes], seen from the index of a
    column [pk] other than [_row_id]: the values of the column stay, and
    the index ends with each of them as a key. *)
Lemma reindex_rows_spec (pk : string) (rows : list Row) :
  pk <> "_row_id" ->
  forall (i : nat) (table_indexes : TableIndexes) (index : Index),
    Dict.get String.eqb pk table_indexes = Some index ->
    ForallOrdPairs differ (values_in pk rows) ->
    (forall v, In v (values_in pk rows) -> is_None v = false ->
       forall k, In k (Dict.keys index) -> py_eq v k = false) ->
    exists index',
      values_in pk (fst (reindex_rows i rows table_indexes)) = values_in pk rows
      /\ Dict.get String.eqb pk (snd (reindex_rows i rows table_indexes))
         = Some index'
      /\ (forall k, In k (Dict.keys index) -> In k (Dict.keys index'))
      /\ covered (values_in pk rows) index'.
Proof.
  intros Hne. induction rows as [| row rows IH];
    intros i tix index Hpk Hdiff Hfresh.
  - exists index. cbn. repeat split; auto. intros v [].
  - cbn [reindex_rows].
    set (row' := Dict.set String.eqb "_row_id" (VInt (Z.of_nat i)) row).
    set (tix1 := fold_left (reindex_value row' i) (Dict.keys tix) tix).
    assert (Hv : row_get pk row' = row_get pk row)
      by (apply row_get_set_other; exact Hne).
    destruct (reindex_value_loop row' i pk (Dict.keys tix) tix index Hpk)
      as (index1 & Hkeys1 & Hpk1 & Hincl1 & Hback1 & Hnew1); [auto |].
    fold tix1 in Hkeys1, Hpk1.
    cbn [values_in map] in Hdiff, Hfresh. inversion Hdiff as [| a l Ha Hl]; subst.
    destruct (IH (S i) tix1 index1 Hpk1 Hl)
      as (index' & Hcol & Hpk' & Hincl & Hcover).
    { intros v Hin Hnn k Hk. destruct (Hback1 k Hk) as [Hk0 | [-> Hk0]].
      - apply Hfresh; auto. right. exact Hin.
      - rewrite Hv. rewrite Hv in Hk0.
        rewrite Forall_forall in Ha. apply (Ha v Hin); assumption. }
    destruct (reindex_rows (S i) rows tix1) as [rows'' tix'] eqn:E.
    cbn [fst snd] in *.
    exists index'. split.
    { cbn [values_in map]. rewrite Hv. f_equal. exact Hcol. }
    split; [exact Hpk' |]. split; [auto |].
    intros v [<- | Hin] Hnn.
    + apply Hincl. rewrite <- Hv. apply Hnew1.
      * eapply key_of_get; eassumption.
      * rewrite Hv. exact Hnn.
      * left. rewrite Hv. apply keys_all_differ.
        intros k Hk. apply Hfresh; auto. left. reflexivity.
    + apply Hcover; assumption.
Qed.

(** The same loop seen from the index of [_row_id], when that is the
    primary key: rows and index are numbered anew. *)
Lemma reindex_rows_numbers (rows : list Row) :
  forall (i : nat) (table_indexes : TableIndexes) (index : Index),
    Dict.get String.eqb "_row_id" table_indexes = Some index ->
    (forall k, In k (Dict.keys index) -> exists j, k = ordinal j /\ j < i) ->
    exists index',
      values_in "_row_id" (fst (reindex_rows i rows table_indexes))
      = ordinals i (List.length rows)
      /\ List.length (fst (reindex_rows i rows table_indexes))
         = List.length rows
      /\ Dict.get String.eqb "_row_id"
           (snd (reindex_rows i rows table_indexes)) = Some index'
      /\ (forall k, In k (Dict.keys index) -> In k (Dict.keys index'))
      /\ covered (ordinals i (List.length rows)) index'
      /\ (forall k, In k (Dict.keys index') ->
            In k (Dict.keys index)
            \/ In k (ordinals i (List.length rows))).
Proof.
  induction rows as [| row rows IH]; intros i tix index Hpk Hbound.
  - exists index. cbn. repeat split; auto. intros v [].
  - cbn [reindex_rows].
    set (row' := Dict.set String.eqb "_row_id" (VInt (Z.of_nat i)) row).
    set (tix1 := fold_left (reindex_value row' i) (Dict.keys tix) tix).
    assert (Hv : row_get "_row_id" row' = ordinal i).
    { unfold row', row_get. rewrite get_set_same. reflexivity. }
    destruct (reindex_value_loop row' i "_row_id" (Dict.keys tix) tix index
                Hpk)
      as (index1 & Hkeys1 & Hpk1 & Hincl1 & Hback1 & Hnew1); [auto |].
    fold tix1 in Hkeys1, Hpk1.
    destruct (IH (S i) tix1 index1 Hpk1)
      as (index' & Hcol & Hlen & Hpk' & Hincl & Hcover & Hback).
    { intros k Hk. destruct (Hback1 k Hk) as [Hk0 | [-> _]].
      - destruct (Hbound k Hk0) as (j & -> & Hj). exists j. split; [| lia].
        reflexivity.
      - exists i. split; [exact Hv | lia]. }
    destruct (reindex_rows (S i) rows tix1) as [rows'' tix'] eqn:E.
    cbn [fst snd] in *.
    change (ordinals i (List.length (row :: rows)))
      with (ordinal i :: ordinals (S i) (List.length rows)).
    exists index'. split.
    { cbn [values_in map]. rewrite Hv. f_equal. exact Hcol. }
    split; [cbn [List.length]; f_equal; exact Hlen |].
    split; [exact Hpk' |]. split; [auto |]. split.
    + intros v [<- | Hin] Hnn.
      * apply Hincl. rewrite <- Hv. apply Hnew1.
        -- eapply key_of_get; eassumption.
        -- rewrite Hv. reflexivity.
        -- left. rewrite Hv. apply keys_all_differ.
           intros k Hk. destruct (Hbound k Hk) as (j & -> & Hj).
           apply ordinal_differs. lia.
      * apply Hcover; assumption.
    + intros k Hk. destruct (Hback k Hk) as [Hk1 | Hk1].
      * destruct (Hback1 k Hk1) as [Hk0 | [-> _]]; [left; exact Hk0 |].
        right. left. symmetry. exact Hv.
      * right. right. exact Hk1.
Qed.

Lemma fresh_indexes_fold (pk : string) (columns : Columns) :
  forall acc : TableIndexes,
    (exists col_def,
        In (pk, col_def) columns /\ primary_key col_def = true)
    \/ Dict.get String.eqb pk acc = Some [] ->
    Dict.get String.eqb pk
      (fold_left
         (fun table_indexes c =>
            if primary_key (snd c) || unique (snd c)
            then Dict.set String.eqb (fst c) [] table_indexes
            else table_indexes)
         columns acc) = Some [].
Proof.
  induction columns as [| [name def] columns IH]; intros acc H;
    cbn [fold_left].
  - destruct H as [(col_def & [] & _) | H]. exact H.
  - apply IH. cbn [fst snd].
    destruct H as [(col_def & [Heq | Hin] & Hflag) | Hacc].
    + inversion Heq; subst. rewrite Hflag. cbn [orb]. right.
      apply get_set_same.
    + left. eauto.
    + right. destruct (primary_key def || unique def); [| exact Hacc].
      destruct (String.eqb pk name) eqn:E.
      * apply String.eqb_eq in E. subst. apply get_set_same.
      * apply String.eqb_neq in E. rewrite get_set_other by exact E.
        exact Hacc.
Qed.

Lemma run_rebuild_indexes (table_name : string) (st : Engine)
    (table : Table) :
  Dict.get String.eqb table_name (tables st) = Some table ->
  exists st',
    _rebuild_indexes table_name st = (Return tt, st')
    /\ Dict.get String.eqb table_name (tables st')
       = Some (with_rows table
                 (fst (reindex_rows 0 (tbl_rows table)
                         (fresh_indexes (tbl_columns table)))))
    /\ Dict.get String.eqb table_name (indexes st')
       = Some (snd (reindex_rows 0 (tbl_rows table)
                      (fresh_indexes (tbl_columns table))))
    /\ others_kept table_name st st'.
Proof.
  intros Htab. unfold _rebuild_indexes.
  rewrite (run_bind _ _ _ _ _ (run_the_table _ _ _ Htab)).
  destruct (reindex_rows 0 (tbl_rows table)
              (fresh_indexes (tbl_columns table))) as [rows tix].
  eexists. split; [reflexivity |]. cbn.
  split; [apply get_set_same |]. split.
  - rewrite get_set_same. reflexivity.
  - intros other Hne. cbn.
    rewrite !get_set_other by exact Hne. auto.
Qed.

(** [delete_rows] keeps the invariant. *)
Lemma delete_rows_keeps_invariant (table_name : string)
    (where_clause : Where) (st st' : Engine) (o : outcome nat) :
  delete_rows table_name where_clause st = (o, st') ->
  engine_invariant st -> engine_invariant st'.
Proof.
  intros Hrun Hinv. unfold delete_rows in Hrun.
  destruct (Dict.get String.eqb table_name (tables st)) as [table |] eqn:Htab.
  2:{ unfold existing_table, bind, read in Hrun. rewrite Htab in Hrun.
      inversion Hrun; subst. exact Hinv. }
  rewrite (run_bind _ _ _ _ _ (run_existing_table _ _ _ Htab)) in Hrun.
  destruct (matching_from 0 (tbl_rows table) where_clause)
    as [found | e] eqn:Hm.
  2:{ rewrite (run_bind_raise _ _ _ _ e
                 (eq_refl : lift (Raise e) st = (Raise e, st))) in Hrun.
      inversion Hrun; subst. exact Hinv. }
  rewrite (run_bind _ _ _ _ _
             (eq_refl : lift (Return found) st = (Return found, st)))
    in Hrun.
  destruct (Hinv table_name table Htab) as (tix & Hix & Hpkinv).
  destruct (delete_rows_loop table_name (List.rev found) st table tix
              Htab Hix)
    as (st1 & rows1 & tix1 & Hloop & Htab1 & Hdiff1 & Hix1 & Hkept1).
  rewrite (run_bind _ _ _ _ _ Hloop) in Hrun.
  destruct (run_rebuild_indexes table_name st1 _ Htab1)
    as (st2 & Hrebuild & Htab2 & Hix2 & Hkept2).
  rewrite (run_bind _ _ _ _ _ Hrebuild) in Hrun.
  inversion Hrun; subst o st'. clear Hrun.
  apply (invariant_step table_name st); [exact Hinv | |].
  - intros other Hne. cbn.
    destruct (Hkept1 other Hne) as [Ha Hb], (Hkept2 other Hne) as [Hc Hd].
    split; congruence.
  - intros table0 Hget. cbn in Hget. rewrite Htab2 in Hget.
    inversion Hget; subst table0. clear Hget.
    eexists. split; [cbn; exact Hix2 |].
    intros pk Hnamed. cbn in Hnamed.
    destruct (Hpkinv pk Hnamed) as (Hdecl & Hdiff & _).
    pose proof (fresh_indexes_fold pk (tbl_columns table) []
                  (or_introl Hdecl)) as Hfresh.
    split; [exact Hdecl |]. cbn [tbl_rows with_rows].
    destruct (String.eqb pk "_row_id") eqn:E.
    + apply String.eqb_eq in E. subst pk.
      destruct (reindex_rows_numbers rows1 0
                  (fresh_indexes (tbl_columns table)) [] Hfresh)
        as (index' & Hcol & Hlen & Hpk' & _ & Hcover & Hback).
      { intros k []. }
      split.
      * unfold later_differs. rewrite Hcol. apply ordinals_differ.
      * exists index'. split; [exact Hpk' |]. split.
        -- unfold keys_cover. rewrite Hcol. exact Hcover.
        -- intros _. unfold numbered. rewrite Hlen.
           split; [exact Hcol |].
           intros k Hk. destruct (Hback k Hk) as [[] | H]. exact H.
    + apply String.eqb_neq in E.
      destruct (reindex_rows_spec pk rows1 E 0
                  (fresh_indexes (tbl_columns table)) [] Hfresh
                  (Hdiff1 pk Hdiff))
        as (index' & Hcol & Hpk' & _ & Hcover).
      { intros v _ _ k []. }
      split.
      * unfold later_differs. rewrite Hcol. apply Hdiff1. exact Hdiff.
      * exists index'. split; [exact Hpk' |]. split.
        -- unfold keys_cover. rewrite Hcol. exact Hcover.
        -- intros Heq. contradiction.
Qed.

(** The invariant holds of every state the three mutations build. *)
Lemma built_engine_invariant (st : Engine) : built st -> engine_invariant st.
Proof.
  induction 1 as [| st tn cols _ IH | st tn row _ IH | st tn w _ IH].
  - intros tn table H. discriminate.
  - destruct (create_table tn cols st) as [o st'] eqn:E.
    eapply create_table_keeps_invariant; eassumption.
  - destruct (insert_row tn row st) as [o st'] eqn:E.
    eapply insert_row_keeps_invariant; eassumption.
  - destruct (delete_rows tn w st) as [o st'] eqn:E.
    eapply delete_rows_keeps_invariant; eassumption.
Qed.
Lemma keys_cover_index_covers (col : string) (rows : list Row)
    (index : Index) :
  keys_cover col rows index -> index_covers col rows index.
Proof.
  intros Hcover row v Hin Hnn Heq.
  apply (mem_of_key py_eq v (row_get col row)); [| exact Heq].
  apply Hcover; [| exact Hnn]. unfold values_in. apply in_map. exact Hin.
Qed.

(** In a state built by the three mutations, the index of a primary key
    covers the rows of its table, and no two rows share a value of it. *)
Lemma built_index_covers (st : Engine) (table_name : string)
    (table : Table) (pk : string) :
  built st ->
  Dict.get String.eqb table_name (tables st) = Some table ->
  named (tbl_primary_key table) = Some pk ->
  exists table_indexes index,
    Dict.get String.eqb table_name (indexes st) = Some table_indexes
    /\ Dict.get String.eqb pk table_indexes = Some index
    /\ index_covers pk (tbl_rows table) index
    /\ later_differs pk (tbl_rows table).
Proof.
  intros Hbuilt Htab Hnamed.
  destruct (built_engine_invariant st Hbuilt table_name table Htab)
    as (tix & Hix & Hpk).
  destruct (Hpk pk Hnamed) as (_ & Hdiff & index & Hidx & Hcover & _).
  exists tix, index. split; [exact Hix |]. split; [exact Hidx |].
  split; [apply keys_cover_index_covers; exact Hcover | exact Hdiff].
Qed.

Lemma select_rows_reads (table_name : string) (where_clause : option Where)
    (st st' : Engine) (o : outcome (list Row)) :
  select_rows table_name where_clause st = (o, st') -> st' = st.
Proof.
  unfold select_rows, existing_table, bind, read.
  destruct (Dict.get String.eqb table_name (tables st)) as [table |].
  - destruct where_clause as [[| c w] |]; unfold ret, lift;
      intros H; inversion H; reflexivity.
  - intros H. inversion H. reflexivity.
Qed.

Lemma get_table_schema_reads (table_name : string) (st st' : Engine)
    (o : outcome Schema) :
  get_table_schema table_name st = (o, st') -> st' = st.
Proof.
  unfold get_table_schema, existing_table, bind, read.
  destruct (Dict.get String.eqb table_name (tables st)) as [table |];
    intros H; inversion H; reflexivity.
Qed.

Lemma guarded_state (body : M Result) (st : Engine) :
  snd (guarded body st) = snd (body st).
Proof. unfold guarded. destruct (body st) as [[r | e] st']; reflexivity. Qed.

(** What a plan does to the engine: nothing, or one of the three
    mutations; an UPDATE is taken without predicate, as the parser
    returns it. *)
Lemma dispatch_built (q : ParsedQuery) (st : Engine) :
  (forall table updates where_clause,
      q = UPDATE table updates where_clause ->
      no_conditions where_clause = true) ->
  built st -> built (snd (dispatch q st)).
Proof.
  intros Hupdate Hbuilt. destruct q; cbn [dispatch].
  - unfold _execute_create_table. rewrite guarded_state. unfold bind.
    pose proof (built_create st table columns Hbuilt) as H.
    destruct (create_table table columns st) as [[b | e] st']; exact H.
  - unfold _execute_insert. rewrite guarded_state.
    destruct (get_table_schema table st) as [[schema | e] st1] eqn:Hs.
    2:{ rewrite (run_bind_raise _ _ _ _ _ Hs).
        rewrite (get_table_schema_reads _ _ _ _ Hs). exact Hbuilt. }
    rewrite (run_bind _ _ _ _ _ Hs).
    rewrite (get_table_schema_reads _ _ _ _ Hs).
    match goal with
    | |- built (snd (bind ?m _ st)) =>
        assert (Hrow : (exists row_data, m st = (Return row_data, st))
                       \/ (exists e, m st = (Raise e, st)))
    end.
    { destruct columns as [specified |].
      - destruct (negb _); unfold raise, ret; eauto.
      - destruct (negb _); unfold raise, ret; eauto. }
    destruct Hrow as [[row_data Hrow] | [e Hrow]].
    2:{ rewrite (run_bind_raise _ _ _ _ _ Hrow). exact Hbuilt. }
    rewrite (run_bind _ _ _ _ _ Hrow). unfold bind.
    pose proof (built_insert st table row_data Hbuilt) as H.
    destruct (insert_row table row_data st) as [[n | e] st']; exact H.
  - unfold _execute_select. rewrite guarded_state. unfold bind.
    destruct (select_rows table where_ st) as [[rows | e] st'] eqn:Hs;
      rewrite (select_rows_reads _ _ _ _ _ Hs); exact Hbuilt.
  - unfold _execute_select_join. rewrite guarded_state.
    destruct (select_rows table1 None st) as [[rows1 | e] st1] eqn:H1;
      pose proof (select_rows_reads _ _ _ _ _ H1); subst st1.
    2:{ rewrite (run_bind_raise _ _ _ _ _ H1). exact Hbuilt. }
    rewrite (run_bind _ _ _ _ _ H1).
    destruct (select_rows table2 None st) as [[rows2 | e] st2] eqn:H2;
      pose proof (select_rows_reads _ _ _ _ _ H2); subst st2.
    2:{ rewrite (run_bind_raise _ _ _ _ _ H2). exact Hbuilt. }
    rewrite (run_bind _ _ _ _ _ H2).
    match goal with
    | |- built (snd (bind ?m _ st)) =>
        assert (Hj : (exists joined, m st = (Return joined, st))
                     \/ (exists e, m st = (Raise e, st)))
    end.
    { destruct (no_conditions where_); [unfold ret; eauto |].
      destruct where_ as [w |]; [| unfold ret; eauto].
      unfold lift. destruct (filter_joined _ w); eauto. }
    destruct Hj as [[joined Hj] | [e Hj]].
    + rewrite (run_bind _ _ _ _ _ Hj). exact Hbuilt.
    + rewrite (run_bind_raise _ _ _ _ _ Hj). exact Hbuilt.
  - pose proof (Hupdate table updates where_ eq_refl) as Hnone.
    unfold _execute_update. rewrite guarded_state.
    destruct where_ as [[| c w] |]; try discriminate; exact Hbuilt.
  - unfold _execute_delete. rewrite guarded_state.
    destruct where_ as [w |]; [| exact Hbuilt].
    unfold bind at 1, lift. unfold bind.
    pose proof (built_delete st table w Hbuilt) as H.
    destruct (delete_rows table w st) as [[n | e] st']; exact H.
  - exact Hbuilt.
  - unfold _execute_describe. rewrite guarded_state. unfold bind.
    destruct (get_table_schema table st) as [[schema | e] st'] eqn:Hs;
      rewrite (get_table_schema_reads _ _ _ _ Hs); exact Hbuilt.
Qed.

(** A statement run by [execute] leaves a built state built. *)
Lemma execute_built (query : string) (st : Engine) :
  built st -> built (snd (execute query st)).
Proof.
  intros Hbuilt. unfold execute. rewrite guarded_state.
  destruct (QueryParser.parse query) as [q | e] eqn:Hparse.
  - rewrite (run_bind _ _ _ _ _
               (eq_refl : lift (Return q) st = (Return q, st))).
    apply dispatch_built; [| exact Hbuilt].
    intros table updates where_clause ->.
    destruct (every_update_is_answered_with_the_safety_failure
                query table updates where_clause st Hparse) as [-> _].
    reflexivity.
  - exact Hbuilt.
Qed.

Lemma run_all_built (queries : list string) :
  forall st, built st -> built (snd (run_all queries st)).
Proof.
  induction queries as [| q queries IH]; intros st Hbuilt; cbn [run_all].
  - exact Hbuilt.
  - pose proof (execute_built q st Hbuilt) as H1.
    destruct (execute q st) as [r st1]. cbn [snd] in H1.
    specialize (IH st1 H1).
    destruct (run_all queries st1) as [rs st2]. exact IH.
Qed.


End PrimaryKeyInvariant.

(** ** What the mutations do to the engine *)

Section Effects.
Context {PF : PyFloat}.

Lemma set_set {V} (k : string) (v v' : V) (d : list (string * V)) :
  Dict.set String.eqb k v (Dict.set String.eqb k v' d)
  = Dict.set String.eqb k v d.
Proof.
  induction d as [| [k0 v0] d IH]; cbn.
  - rewrite String.eqb_refl. reflexivity.
  - destruct (String.eqb k k0) eqn:E; cbn; rewrite E; [reflexivity |].
    rewrite IH. reflexivity.
Qed.

Lemma set_same {V} (k : string) (v : V) (d : list (string * V)) :
  Dict.get String.eqb k d = Some v -> Dict.set String.eqb k v d = d.
Proof.
  induction d as [| [k0 v0] d IH]; cbn; [discriminate |].
  destruct (String.eqb k k0) eqn:E.
  - apply String.eqb_eq in E. subst k0. congruence.
  - intros H. rewrite (IH H). reflexivity.
Qed.

(** The loop of [create_table] that stores an empty index per key. *)
Lemma store_index_loop_exact (table_name : string) (keys : list string) :
  forall (st : Engine) (table_indexes : TableIndexes),
    Dict.get String.eqb table_name (indexes st) = Some table_indexes ->
    exists st',
      for_each (fun key => store_index table_name key []) keys st
      = (Return tt, st')
      /\ tables st' = tables st
      /\ indexes st'
         = Dict.set String.eqb table_name
             (fold_left (fun t key => Dict.set String.eqb key ([] : Index) t)
                        keys table_indexes)
             (indexes st)
      /\ tables_json st' = tables_json st
      /\ indexes_json st' = indexes_json st.
Proof.
  induction keys as [| key keys IH]; intros st table_indexes Hix.
  - exists st. cbn [for_each fold_left]. split; [reflexivity |].
    split; [reflexivity |]. split; [| split; reflexivity].
    symmetry. apply set_same. exact Hix.
  - cbn [for_each fold_left].
    rewrite (run_bind _ _ _ _ _ (run_store_index _ _ _ _ _ Hix)).
    match goal with
    | |- context [for_each _ keys ?s] =>
        destruct (IH s (Dict.set String.eqb key [] table_indexes))
          as (st' & Hrun & Htab & Hix' & Hjt & Hji);
          [cbn; apply get_set_same |]
    end.
    exists st'. split; [exact Hrun |]. split; [exact Htab |].
    split; [| split; assumption].
    rewrite Hix'. cbn. apply set_set.
Qed.

Lemma create_table_effect (table_name : string) (columns : Columns)
    (st st' : Engine) (o : outcome bool) :
  create_table table_name columns st = (o, st') ->
  (exists e, o = Raise e /\ st' = st)
  \/ (o = Return true /\ created table_name columns st st').
Proof.
  unfold create_table.
  rewrite (run_bind _ _ _ _ _
             (eq_refl : read tables st = (Return (tables st), st))).
  destruct (Dict.mem String.eqb table_name (tables st)) eqn:Hmem.
  { intros H. inversion H; subst. left. eauto. }
  fold (primary_keys_of columns). fold (unique_keys_of columns).
  destruct (1 <? List.length (primary_keys_of columns))%nat.
  { intros H. inversion H; subst. left. eauto. }
  fold (new_table columns).
  unfold store_table at 1, modify at 1, bind at 1.
  unfold store_table_indexes at 1, modify at 1, bind at 1.
  match goal with
  | |- bind (for_each _ _) _ ?s = _ -> _ => set (st2 := s)
  end.
  assert (Hix2 : Dict.get String.eqb table_name (indexes st2) = Some [])
    by (unfold st2; cbn; apply get_set_same).
  destruct (store_index_loop_exact table_name
              (primary_keys_of columns ++ unique_keys_of columns)
              st2 [] Hix2) as (st3 & Hrun & Htab3 & Hix3 & _).
  rewrite (run_bind _ _ _ _ _ Hrun).
  intros H. inversion H; subst o st'. clear H. right.
  split; [reflexivity |]. split.
  { unfold Dict.mem in Hmem.
    destruct (Dict.get String.eqb table_name (tables st)); congruence. }
  split; [cbn; rewrite Htab3; reflexivity |]. split.
  - cbn. rewrite Hix3. unfold st2. cbn. apply set_set.
  - split; reflexivity.
Qed.

(** With its indexes in place, [insert_row] raises before it changes
    anything, or returns with the row appended. *)
Lemma insert_row_effect (table_name : string) (row_data : Row)
    (st st' : Engine) (o : outcome nat) (table_indexes : TableIndexes) :
  Dict.get String.eqb table_name (indexes st) = Some table_indexes ->
  insert_row table_name row_data st = (o, st') ->
  (exists e, o = Raise e /\ st' = st)
  \/ (exists n, o = Return n /\ inserted table_name row_data n st st').
Proof.
  intros Hix Hrun. unfold insert_row in Hrun.
  destruct (Dict.get String.eqb table_name (tables st)) as [table |] eqn:Htab.
  2:{ unfold existing_table, bind, read in Hrun. rewrite Htab in Hrun.
      inversion Hrun; subst. left. eauto. }
  rewrite (run_bind _ _ _ _ _ (run_existing_table _ _ _ Htab)) in Hrun.
  destruct (validate_row (tbl_columns table) row_data []) as [vrow | e] eqn:Hv.
  2:{ rewrite (run_bind_raise _ _ _ _ e
                 (eq_refl : lift (Raise e) st = (Raise e, st))) in Hrun.
      inversion Hrun; subst. left. eauto. }
  rewrite (run_bind _ _ _ _ _
             (eq_refl : lift (Return vrow) st = (Return vrow, st))) in Hrun.
  destruct (check_primary_key table_name table vrow st) as [o1 st1] eqn:Hc.
  destruct (check_primary_key_reads _ _ _ _ _ _ Hc) as [-> _].
  destruct o1 as [[] | e1].
  2:{ rewrite (run_bind_raise _ _ _ _ _ Hc) in Hrun.
      inversion Hrun; subst. left. eauto. }
  rewrite (run_bind _ _ _ _ _ Hc) in Hrun.
  destruct (for_each (check_unique_key table_name table vrow)
              (tbl_unique_keys table) st) as [o2 st2] eqn:Hu.
  pose proof (check_unique_keys_read _ _ _ _ _ _ _ Hu) as ->.
  destruct o2 as [[] | e2].
  2:{ rewrite (run_bind_raise _ _ _ _ _ Hu) in Hrun.
      inversion Hrun; subst. left. eauto. }
  rewrite (run_bind _ _ _ _ _ Hu) in Hrun.
  cbv zeta in Hrun.
  unfold store_table at 1, modify at 1, bind at 1 in Hrun.
  match type of Hrun with
  | bind (the_table_indexes _) _ ?s = _ => set (st1 := s) in Hrun
  end.
  assert (Hix1 : Dict.get String.eqb table_name (indexes st1)
                 = Some table_indexes) by exact Hix.
  rewrite (run_bind _ _ _ _ _ (run_the_table_indexes _ _ _ Hix1)) in Hrun.
  match type of Hrun with
  | bind (for_each (index_row _ ?row ?n) _) _ _ = _ =>
      destruct (index_row_frames table_name row n (Dict.keys table_indexes)
                  st1 table_indexes Hix1)
        as (st2 & tix2 & Hloop & Htab2 & Hother2 & Hix2); [auto |]
  end.
  rewrite (run_bind _ _ _ _ _ Hloop) in Hrun.
  inversion Hrun; subst o st'. clear Hrun. right.
  eexists. split; [reflexivity |].
  exists table, vrow. split; [exact Htab |]. split; [exact Hv |].
  split; [reflexivity |]. split; [cbn; rewrite Htab2; reflexivity |].
  split; [exists tix2; exact Hix2 |]. split.
  - intros other Hne. cbn. rewrite (Hother2 other Hne). reflexivity.
  - split; reflexivity.
Qed.

Lemma fst_reindex_rows (rows : list Row) :
  forall (i : nat) (table_indexes : TableIndexes),
    fst (reindex_rows i rows table_indexes) = renumbered i rows.
Proof.
  induction rows as [| row rows IH]; intros i tix; [reflexivity |].
  cbn [reindex_rows renumbered].
  match goal with
  | |- context [reindex_rows (S i) rows ?t] =>
      specialize (IH (S i) t); destruct (reindex_rows (S i) rows t)
  end.
  cbn [fst] in *. rewrite IH. reflexivity.
Qed.

Lemma remove_nth_middle {A} (prefix : list A) (x : A) (l : list A) :
  remove_nth (List.length prefix) (prefix ++ x :: l) = prefix ++ l.
Proof.
  induction prefix as [| y prefix IH]; cbn; [reflexivity |].
  rewrite IH. reflexivity.
Qed.

(** Taking out the matching positions, the last first, leaves the rows
    that do not match, in their order. *)
Lemma remove_found (where_clause : Where) (rows : list Row) :
  forall (i : nat) (found : list nat),
    matching_from i rows where_clause = Return found ->
    List.length found = List.length (filter (matches where_clause) rows)
    /\ forall prefix : list Row,
         List.length prefix = i ->
         fold_left (fun rs p => remove_nth p rs) (List.rev found)
                   (prefix ++ rows)
         = prefix
           ++ filter (fun row => negb (matches where_clause row)) rows.
Proof.
  induction rows as [| row rows IH]; intros i found H.
  - inversion H; subst. split; [reflexivity |]. intros prefix _. reflexivity.
  - cbn [matching_from] in H.
    destruct (_matches_where_clause row where_clause) as [hit | e] eqn:Hm;
      [| discriminate].
    cbn [obind] in H.
    destruct (matching_from (S i) rows where_clause) as [found' | e] eqn:Hf;
      [| discriminate].
    cbn [obind] in H. inversion H; subst found. clear H.
    destruct (IH (S i) found' Hf) as [Hlen Hfold].
    assert (Hrest : forall prefix : list Row,
               List.length prefix = i ->
               fold_left (fun rs p => remove_nth p rs) (List.rev found')
                         (prefix ++ row :: rows)
               = prefix ++ row
                   :: filter (fun r => negb (matches where_clause r)) rows).
    { intros prefix Hp.
      change (prefix ++ row :: rows) with (prefix ++ [row] ++ rows).
      rewrite app_assoc, Hfold, <- app_assoc; [reflexivity |].
      rewrite length_app. cbn. lia. }
    assert (Hrow : matches where_clause row = hit)
      by (unfold matches; rewrite Hm; destruct hit; reflexivity).
    cbn [filter]. rewrite Hrow. destruct hit; cbn [negb].
    + split; [cbn; f_equal; exact Hlen |].
      intros prefix Hp. cbn [List.rev]. rewrite fold_left_app. cbn [fold_left].
      rewrite (Hrest prefix Hp). subst i. apply remove_nth_middle.
    + split; [exact Hlen |]. exact Hrest.
Qed.

(** The loop of [delete_rows] over the positions to take out. *)
Lemma delete_rows_loop_rows (table_name : string) (positions : list nat) :
  forall (st : Engine) (table : Table) (table_indexes : TableIndexes),
    Dict.get String.eqb table_name (tables st) = Some table ->
    Dict.get String.eqb table_name (indexes st) = Some table_indexes ->
    exists st' table_indexes',
      for_each (delete_row table_name) positions st = (Return tt, st')
      /\ Dict.get String.eqb table_name (tables st')
         = Some (with_rows table
                   (fold_left (fun rs p => remove_nth p rs) positions
                              (tbl_rows table)))
      /\ Dict.get String.eqb table_name (indexes st') = Some table_indexes'
      /\ others_kept table_name st st'.
Proof.
  induction positions as [| i positions IH]; intros st table tix Htab Hix.
  - exists st, tix. cbn [for_each fold_left].
    split; [reflexivity |]. split.
    + rewrite Htab. destruct table; reflexivity.
    + split; [exact Hix | apply others_kept_refl].
  - cbn [for_each fold_left].
    destruct (run_delete_row table_name i st table tix Htab Hix)
      as (st1 & tix1 & Hrun1 & Htab1 & Hix1 & Hkept1).
    rewrite (run_bind _ _ _ _ _ Hrun1).
    destruct (IH st1 _ tix1 Htab1 Hix1)
      as (st' & tix' & Hrun & Htab' & Hix' & Hkept).
    exists st', tix'. split; [exact Hrun |].
    split; [exact Htab' |]. split; [exact Hix' |].
    eapply others_kept_trans; eassumption.
Qed.

Lemma delete_rows_effect (table_name : string) (where_clause : Where)
    (st st' : Engine) (o : outcome nat) (table : Table)
    (table_indexes : TableIndexes) :
  Dict.get String.eqb table_name (tables st) = Some table ->
  Dict.get String.eqb table_name (indexes st) = Some table_indexes ->
  delete_rows table_name where_clause st = (o, st') ->
  (exists e, o = Raise e /\ st' = st
             /\ matching_from 0 (tbl_rows table) where_clause = Raise e)
  \/ (exists n, o = Return n /\ deleted table_name where_clause n st st').
Proof.
  intros Htab Hix Hrun. unfold delete_rows in Hrun.
  rewrite (run_bind _ _ _ _ _ (run_existing_table _ _ _ Htab)) in Hrun.
  destruct (matching_from 0 (tbl_rows table) where_clause)
    as [found | e] eqn:Hm.
  2:{ rewrite (run_bind_raise _ _ _ _ e
                 (eq_refl : lift (Raise e) st = (Raise e, st))) in Hrun.
      inversion Hrun; subst. left. eauto. }
  rewrite (run_bind _ _ _ _ _
             (eq_refl : lift (Return found) st = (Return found, st)))
    in Hrun.
  destruct (remove_found where_clause (tbl_rows table) 0 found Hm)
    as [Hlen Hfold].
  specialize (Hfold [] eq_refl). cbn [app] in Hfold.
  destruct (delete_rows_loop_rows table_name (List.rev found) st table
              table_indexes Htab Hix)
    as (st1 & tix1 & Hloop & Htab1 & Hix1 & Hkept1).
  rewrite Hfold in Htab1.
  rewrite (run_bind _ _ _ _ _ Hloop) in Hrun.
  destruct (run_rebuild_indexes table_name st1 _ Htab1)
    as (st2 & Hrebuild & Htab2 & Hix2 & Hkept2).
  rewrite (run_bind _ _ _ _ _ Hrebuild) in Hrun.
  inversion Hrun; subst o st'. clear Hrun. right.
  eexists. split; [reflexivity |]. exists table.
  split; [exact Htab |]. split; [exact Hlen |]. split.
  { cbn. rewrite Htab2. cbn [tbl_rows with_rows tbl_columns].
    rewrite fst_reindex_rows. reflexivity. }
  split; [eexists; cbn; exact Hix2 |]. split.
  - intros other Hne. cbn.
    destruct (Hkept1 other Hne) as [Ha Hb], (Hkept2 other Hne) as [Hc Hd].
    split; congruence.
  - split; reflexivity.
Qed.

Lemma insert_row_built (table_name : string) (row_data : Row)
    (st st' : Engine) (o : outcome nat) :
  built st ->
  insert_row table_name row_data st = (o, st') ->
  (exists e, o = Raise e /\ st' = st)
  \/ (exists n, o = Return n /\ inserted table_name row_data n st st').
Proof.
  intros Hbuilt Hrun.
  destruct (Dict.get String.eqb table_name (tables st)) as [table |] eqn:Htab.
  - destruct (built_engine_invariant st Hbuilt table_name table Htab)
      as (tix & Hix & _).
    eapply insert_row_effect; eassumption.
  - unfold insert_row, existing_table, bind, read in Hrun.
    rewrite Htab in Hrun. inversion Hrun; subst. left. eauto.
Qed.

Lemma delete_rows_built (table_name : string) (where_clause : Where)
    (st st' : Engine) (o : outcome nat) :
  built st ->
  delete_rows table_name where_clause st = (o, st') ->
  (exists e, o = Raise e /\ st' = st)
  \/ (exists n, o = Return n /\ deleted table_name where_clause n st st').
Proof.
  intros Hbuilt Hrun.
  destruct (Dict.get String.eqb table_name (tables st)) as [table |] eqn:Htab.
  - destruct (built_engine_invariant st Hbuilt table_name table Htab)
      as (tix & Hix & _).
    destruct (delete_rows_effect _ _ _ _ _ _ _ Htab Hix Hrun)
      as [(e & -> & -> & _) | H]; [left; eauto | right; exact H].
  - unfold delete_rows, existing_table, bind, read in Hrun.
    rewrite Htab in Hrun. inversion Hrun; subst. left. eauto.
Qed.

Ltac unchanged :=
  eexists _, _; split; [reflexivity | left; reflexivity].

(** A plan run by the executor in a built state: the engine stays as it
    was, or the statement succeeded with the effect of one mutation.  An
    UPDATE is taken without predicate, as the parser returns it. *)
Lemma dispatch_effect (q : ParsedQuery) (st : Engine) :
  built st ->
  (forall table updates where_clause,
      q = UPDATE table updates where_clause ->
      no_conditions where_clause = true) ->
  exists r st',
    dispatch q st = (Return r, st')
    /\ (st' = st
        \/ (success_flag r = Some true /\ statement_effect q st st')).
Proof.
  intros Hbuilt Hupdate. destruct q; cbn [dispatch].
  - unfold _execute_create_table, guarded, bind.
    destruct (create_table table columns st) as [[b | e] st1] eqn:E;
      destruct (create_table_effect _ _ _ _ _ E)
        as [(e' & He & ->) | (Hb & Hc)]; try discriminate.
    + eexists _, _. split; [reflexivity |]. right. split; [reflexivity |].
      exact Hc.
    + unchanged.
  - unfold _execute_insert, guarded.
    destruct (get_table_schema table st) as [[schema | e] st1] eqn:Hs;
      pose proof (get_table_schema_reads _ _ _ _ Hs); subst st1.
    2:{ rewrite (run_bind_raise _ _ _ _ _ Hs). unchanged. }
    rewrite (run_bind _ _ _ _ _ Hs).
    match goal with
    | |- context [bind ?m _ st] =>
        assert (Hrow : (exists row_data, m st = (Return row_data, st))
                       \/ (exists e, m st = (Raise e, st)))
    end.
    { destruct columns as [specified |].
      - destruct (negb _); unfold raise, ret; eauto.
      - destruct (negb _); unfold raise, ret; eauto. }
    destruct Hrow as [[row_data Hrow] | [e Hrow]].
    2:{ rewrite (run_bind_raise _ _ _ _ _ Hrow). unchanged. }
    rewrite (run_bind _ _ _ _ _ Hrow). unfold bind.
    destruct (insert_row table row_data st) as [[n | e] st1] eqn:E;
      destruct (insert_row_built _ _ _ _ _ Hbuilt E)
        as [(e' & He & ->) | (n' & Hn & Hi)]; try discriminate.
    + inversion Hn; subst n'.
      eexists _, _. split; [reflexivity |]. right. split; [reflexivity |].
      exists row_data, n. exact Hi.
    + unchanged.
  - unfold _execute_select, guarded, bind.
    destruct (select_rows table where_ st) as [[rows | e] st1] eqn:Hs;
      rewrite (select_rows_reads _ _ _ _ _ Hs); unchanged.
  - unfold _execute_select_join, guarded.
    destruct (select_rows table1 None st) as [[rows1 | e] st1] eqn:H1;
      pose proof (select_rows_reads _ _ _ _ _ H1); subst st1.
    2:{ rewrite (run_bind_raise _ _ _ _ _ H1). unchanged. }
    rewrite (run_bind _ _ _ _ _ H1).
    destruct (select_rows table2 None st) as [[rows2 | e] st2] eqn:H2;
      pose proof (select_rows_reads _ _ _ _ _ H2); subst st2.
    2:{ rewrite (run_bind_raise _ _ _ _ _ H2). unchanged. }
    rewrite (run_bind _ _ _ _ _ H2).
    match goal with
    | |- context [bind ?m _ st] =>
        assert (Hj : (exists joined, m st = (Return joined, st))
                     \/ (exists e, m st = (Raise e, st)))
    end.
    { destruct (no_conditions where_); [unfold ret; eauto |].
      destruct where_ as [w |]; [| unfold ret; eauto].
      unfold lift. destruct (filter_joined _ w); eauto. }
    destruct Hj as [[joined Hj] | [e Hj]].
    + rewrite (run_bind _ _ _ _ _ Hj). unchanged.
    + rewrite (run_bind_raise _ _ _ _ _ Hj). unchanged.
  - pose proof (Hupdate table updates where_ eq_refl) as Hnone.
    unfold _execute_update, guarded.
    destruct where_ as [[| c w] |]; try discriminate; unchanged.
  - unfold _execute_delete, guarded.
    destruct where_ as [w |]; [| unchanged].
    unfold bind at 1, lift. unfold bind.
    destruct (delete_rows table w st) as [[n | e] st1] eqn:E;
      destruct (delete_rows_built _ _ _ _ _ Hbuilt E)
        as [(e' & He & ->) | (n' & Hn & Hd)]; try discriminate.
    + inversion Hn; subst n'.
      eexists _, _. split; [reflexivity |]. right. split; [reflexivity |].
      exists n. exact Hd.
    + unchanged.
  - unchanged.
  - unfold _execute_describe, guarded, bind.
    destruct (get_table_schema table st) as [[schema | e] st1] eqn:Hs;
      rewrite (get_table_schema_reads _ _ _ _ Hs); unchanged.
Qed.

(** The same for a statement. *)
Lemma execute_effect (query : string) (st : Engine) :
  built st ->
  exists r st',
    execute query st = (Return r, st')
    /\ (st' = st
        \/ (success_flag r = Some true
            /\ exists q,
                 QueryParser.parse query = Return q
                 /\ statement_effect q st st')).
Proof.
  intros Hbuilt. unfold execute, guarded.
  destruct (QueryParser.parse query) as [q | e] eqn:Hparse.
  - rewrite (run_bind _ _ _ _ _
               (eq_refl : lift (Return q) st = (Return q, st))).
    destruct (dispatch_effect q st Hbuilt) as (r & st' & Hrun & Heff).
    { intros table updates where_clause ->.
      destruct (every_update_is_answered_with_the_safety_failure
                  query table updates where_clause st Hparse) as [-> _].
      reflexivity. }
    rewrite Hrun. exists r, st'. split; [reflexivity |].
    destruct Heff as [-> | [Hflag Heff]]; [left; reflexivity |].
    right. split; [exact Hflag |]. exists q. split; [reflexivity | exact Heff].
  - unchanged.
Qed.

Lemma same_schema_refl (table : Table) : same_schema table table.
Proof. repeat split. Qed.

Lemma same_schema_trans (t1 t2 t3 : Table) :
  same_schema t1 t2 -> same_schema t2 t3 -> same_schema t1 t3.
Proof.
  intros (A & B & C) (A' & B' & C'). repeat split; congruence.
Qed.

Lemma same_schema_with_rows (table : Table) (rows : list Row) :
  same_schema table (with_rows table rows).
Proof. repeat split. Qed.

(** A mutation's effect keeps the tables that were there, with their
    declarations. *)
Lemma statement_effect_keeps_tables (q : ParsedQuery) (st st' : Engine)
    (table_name : string) (table : Table) :
  statement_effect q st st' ->
  Dict.get String.eqb table_name (tables st) = Some table ->
  exists table',
    Dict.get String.eqb table_name (tables st') = Some table'
    /\ same_schema table table'.
Proof.
  intros Heff Hget. destruct q as [t cols | t cs vs | | | | t [w |] | |];
    cbn [statement_effect] in Heff; try contradiction.
  - destruct Heff as (Hnone & Htabs & _).
    exists table. split; [| apply same_schema_refl].
    rewrite Htabs, get_set_other; [exact Hget |].
    intros ->. congruence.
  - destruct Heff as (row_data & n & tbl & vrow & Htab & _ & _ & Htabs & _).
    rewrite Htabs. destruct (String.eqb table_name t) eqn:E.
    + apply String.eqb_eq in E. subst t. rewrite get_set_same.
      assert (tbl = table) by congruence. subst tbl.
      eexists. split; [reflexivity | apply same_schema_with_rows].
    + apply String.eqb_neq in E. rewrite get_set_other by exact E.
      exists table. split; [exact Hget | apply same_schema_refl].
  - destruct Heff as (n & tbl & Htab & _ & Htab' & _ & Hkept & _).
    destruct (String.eqb table_name t) eqn:E.
    + apply String.eqb_eq in E. subst t.
      assert (tbl = table) by congruence. subst tbl.
      eexists. split; [exact Htab' | apply same_schema_with_rows].
    + apply String.eqb_neq in E. destruct (Hkept table_name E) as [Ht _].
      exists table. split; [congruence | apply same_schema_refl].
Qed.

(** X1. A statement that fails changes nothing. In a state built by the
    engine's mutations, when [execute] answers with [success] false the
    engine is exactly as before: tables, rows, indexes and files. *)
Theorem failed_statement_changes_nothing (query : string) (st st' : Engine)
    (r : Result) :
  built st ->
  execute query st = (Return r, st') ->
  success_flag r = Some false ->
  st' = st.
Proof.
  intros Hbuilt Hrun Hflag.
  destruct (execute_effect query st Hbuilt)
    as (r0 & st0 & Hrun0 & [-> | [Hflag0 _]]).
  - congruence.
  - rewrite Hrun in Hrun0. inversion Hrun0; subst. congruence.
Qed.

(** X2. No sequence of statements drops a table or alters its
    declaration: a table of a built state is still there after any
    statements run by [execute], with the same columns, primary key and
    unique keys. *)
Theorem statements_keep_the_tables (queries : list string) :
  forall (st : Engine) (table_name : string) (table : Table),
    built st ->
    Dict.get String.eqb table_name (tables st) = Some table ->
    exists table',
      Dict.get String.eqb table_name (tables (snd (run_all queries st)))
      = Some table'
      /\ same_schema table table'.
Proof.
  induction queries as [| q queries IH]; intros st table_name table Hbuilt Hget.
  - exists table. split; [exact Hget | apply same_schema_refl].
  - cbn [run_all].
    pose proof (execute_built q st Hbuilt) as Hbuilt1.
    destruct (execute_effect q st Hbuilt) as (r & st1 & Hrun & Heff).
    rewrite Hrun in *. cbn [snd] in Hbuilt1.
    assert (Hstep : exists table1,
               Dict.get String.eqb table_name (tables st1) = Some table1
               /\ same_schema table table1).
    { destruct Heff as [-> | (_ & plan & _ & Heff)].
      - exists table. split; [exact Hget | apply same_schema_refl].
      - eapply statement_effect_keeps_tables; eassumption. }
    destruct Hstep as (table1 & Hget1 & Hsame1).
    destruct (IH st1 table_name table1 Hbuilt1 Hget1) as (table' & Hget' & Hsame').
    destruct (run_all queries st1) as [rs st2]. cbn [snd] in *.
    exists table'. split; [exact Hget' |].
    eapply same_schema_trans; eassumption.
Qed.

Lemma values_in_renumbered (rows : list Row) :
  forall i,
    values_in "_row_id" (renumbered i rows) = ordinals i (List.length rows)
    /\ List.length (renumbered i rows) = List.length rows.
Proof.
  induction rows as [| row rows IH]; intros i; [split; reflexivity |].
  destruct (IH (S i)) as [Hv Hl]. cbn [renumbered values_in map List.length].
  split; [| f_equal; exact Hl].
  unfold row_get at 1. rewrite get_set_same.
  fold (values_in "_row_id" (renumbered (S i) rows)). rewrite Hv. reflexivity.
Qed.

(** X3. A row's [_row_id] is its position. In every state built by
    [create_table], [insert_row] and [delete_rows], the rows of each
    table carry the ids 0, 1, 2, ... in order. *)
Theorem row_ids_are_the_positions (st : Engine) :
  built st -> row_ids_are_positions st.
Proof.
  induction 1 as [| st tn cols Hb IH | st tn row Hb IH | st tn w Hb IH].
  - intros t table H. discriminate.
  - destruct (create_table tn cols st) as [o st'] eqn:E. cbn [snd].
    destruct (create_table_effect _ _ _ _ _ E)
      as [(e & _ & ->) | (_ & _ & Htabs & _)]; [exact IH |].
    intros t table Hget. rewrite Htabs in Hget.
    destruct (String.eqb t tn) eqn:Et.
    + apply String.eqb_eq in Et. subst t. rewrite get_set_same in Hget.
      inversion Hget; subst table. reflexivity.
    + apply String.eqb_neq in Et. rewrite get_set_other in Hget by exact Et.
      eapply IH. exact Hget.
  - destruct (insert_row tn row st) as [o st'] eqn:E. cbn [snd].
    destruct (insert_row_built _ _ _ _ _ Hb E)
      as [(e & _ & ->)
         | (n & _ & table0 & vrow & Htab & _ & Hn & Htabs & _)]; [exact IH |].
    intros t table Hget. rewrite Htabs in Hget.
    destruct (String.eqb t tn) eqn:Et.
    + apply String.eqb_eq in Et. subst t. rewrite get_set_same in Hget.
      inversion Hget; subst table. cbn [tbl_rows with_rows].
      unfold values_in. rewrite map_app, length_app. cbn [map List.length].
      fold (values_in "_row_id" (tbl_rows table0)).
      rewrite (IH tn table0 Htab), Nat.add_1_r, ordinals_snoc, <- Hn.
      unfold stored_row, row_get. rewrite get_set_same. reflexivity.
    + apply String.eqb_neq in Et. rewrite get_set_other in Hget by exact Et.
      eapply IH. exact Hget.
  - destruct (delete_rows tn w st) as [o st'] eqn:E. cbn [snd].
    destruct (delete_rows_built _ _ _ _ _ Hb E)
      as [(e & _ & ->)
         | (n & _ & table0 & Htab & _ & Htab' & _ & Hkept & _)]; [exact IH |].
    intros t table Hget.
    destruct (String.eqb t tn) eqn:Et.
    + apply String.eqb_eq in Et. subst t. rewrite Htab' in Hget.
      inversion Hget; subst table. cbn [tbl_rows with_rows].
      match goal with
      | |- context [renumbered 0 ?rows] =>
          destruct (values_in_renumbered rows 0) as [Hv Hl]
      end.
      rewrite Hv, Hl. reflexivity.
    + apply String.eqb_neq in Et. destruct (Hkept t Et) as [Ht _].
      rewrite Ht in Hget. eapply IH. exact Hget.
Qed.

End Effects.

(** ** The mutations one by one *)

Section Mutations.
Context {PF : PyFloat}.





Lemma matches_nil (row : Row) : matches [] row = true.
Proof. reflexivity. Qed.

Lemma filter_all {A} (p : A -> bool) (l : list A) :
  (forall x, p x = true) -> filter p l = l.
Proof.
  intros H. induction l as [| x l IH]; cbn; [reflexivity |].
  rewrite H, IH. reflexivity.
Qed.

Lemma filter_rows_returns (where_clause : Where) (rows out : list Row) :
  filter_rows rows where_clause = Return out ->
  out = filter (matches where_clause) rows.
Proof.
  revert out. induction rows as [| row rows IH]; intros out H.
  - inversion H. reflexivity.
  - cbn [filter_rows] in H.
    destruct (_matches_where_clause row where_clause) as [ok | e] eqn:Hm;
      [| discriminate].
    cbn [obind] in H.
    destruct (filter_rows rows where_clause) as [rest | e]; [| discriminate].
    cbn [obind] in H. inversion H; subst out.
    assert (Hrow : matches where_clause row = ok)
      by (unfold matches; rewrite Hm; destruct ok; reflexivity).
    cbn [filter]. rewrite Hrow, (IH rest eq_refl). reflexivity.
Qed.

Lemma filter_rows_raises (where_clause : Where) (rows : list Row) (e : exn) :
  filter_rows rows where_clause = Raise e ->
  exists row, In row rows /\ _matches_where_clause row where_clause = Raise e.
Proof.
  induction rows as [| row rows IH]; intros H; [discriminate |].
  cbn [filter_rows] in H.
  destruct (_matches_where_clause row where_clause) as [ok | e'] eqn:Hm.
  - cbn [obind] in H.
    destruct (filter_rows rows where_clause) as [rest | e'']; [discriminate |].
    cbn [obind] in H. inversion H; subst e''.
    destruct (IH eq_refl) as (r & Hin & Hr). exists r. split; [right |]; auto.
  - cbn [obind] in H. inversion H; subst e'. exists row. split; [left |]; auto.
Qed.

Lemma filter_rows_total (where_clause : Where) (rows : list Row) :
  (forall row, In row rows ->
     exists b, _matches_where_clause row where_clause = Return b) ->
  filter_rows rows where_clause
  = Return (filter (matches where_clause) rows).
Proof.
  intros H.
  destruct (filter_rows rows where_clause) as [out | e] eqn:E.
  - rewrite (filter_rows_returns _ _ _ E). reflexivity.
  - destruct (filter_rows_raises _ _ _ E) as (row & Hin & Hr).
    destruct (H row Hin) as [b Hb]. congruence.
Qed.

Lemma select_rows_as_filter (table_name : string)
    (where_clause : option Where) (st : Engine) (table : Table) :
  Dict.get String.eqb table_name (tables st) = Some table ->
  select_rows table_name where_clause st
  = (filter_rows (tbl_rows table) (where_of where_clause), st).
Proof.
  intros Htab. unfold select_rows.
  rewrite (run_bind _ _ _ _ _ (run_existing_table _ _ _ Htab)).
  assert (Hall : filter_rows (tbl_rows table) []
                 = Return (tbl_rows table)).
  { rewrite filter_rows_total.
    - rewrite filter_all; [reflexivity | apply matches_nil].
    - intros row _. exists true. reflexivity. }
  destruct where_clause as [[| c w] |]; cbn [where_of];
    unfold ret, lift; rewrite ?Hall; reflexivity.
Qed.

(** X5. A selection returns exactly the rows whose WHERE test holds, in
    table order, and never changes the engine. It fails only when the
    test of some row raises, with that exception; when no test raises it
    returns. No predicate and the empty predicate select every row. *)
Theorem select_rows_filters (table_name : string)
    (where_clause : option Where) (st : Engine) (table : Table) :
  Dict.get String.eqb table_name (tables st) = Some table ->
  let rows := tbl_rows table in
  let test := where_of where_clause in
  (forall out st',
      select_rows table_name where_clause st = (Return out, st') ->
      st' = st /\ out = filter (matches test) rows)
  /\ (forall e st',
        select_rows table_name where_clause st = (Raise e, st') ->
        st' = st
        /\ exists row, In row rows /\ _matches_where_clause row test = Raise e)
  /\ ((forall row, In row rows ->
         exists b, _matches_where_clause row test = Return b) ->
      select_rows table_name where_clause st
      = (Return (filter (matches test) rows), st))
  /\ (test = [] ->
      select_rows table_name where_clause st = (Return rows, st)).
Proof.
  intros Htab rows test.
  rewrite (select_rows_as_filter _ _ _ _ Htab). fold rows test.
  split; [| split; [| split]].
  - intros out st' H. inversion H; subst st'.
    split; [reflexivity |]. apply filter_rows_returns. assumption.
  - intros e st' H. inversion H; subst st'.
    split; [reflexivity |]. apply filter_rows_raises. assumption.
  - intros H. rewrite filter_rows_total by exact H. reflexivity.
  - intros ->. rewrite filter_rows_total.
    + rewrite filter_all; [reflexivity | apply matches_nil].
    + intros row _. exists true. reflexivity.
Qed.



Lemma keys_set_absent {V} (k : string) (v : V) (d : list (string * V)) :
  Dict.get String.eqb k d = None ->
  Dict.keys (Dict.set String.eqb k v d) = Dict.keys d ++ [k].
Proof.
  unfold Dict.keys.
  induction d as [| [k0 v0] d IH]; cbn [Dict.get Dict.set]; [reflexivity |].
  destruct (String.eqb k k0); [discriminate |].
  intros H. cbn [map fst app]. rewrite (IH H). reflexivity.
Qed.



Lemma mem_get_none {V} (k : string) (d : list (string * V)) :
  Dict.mem String.eqb k d = false <-> Dict.get String.eqb k d = None.
Proof.
  unfold Dict.mem. destruct (Dict.get String.eqb k d); split; congruence.
Qed.



End Mutations.

(** ** The files *)

Section Files.
Context {PF : PyFloat}.

Lemma keeps_ret {A} (a : A) : keeps_files (ret a).
Proof. intros st o st' H. inversion H. apply same_files_refl. Qed.

Lemma keeps_raise {A} (e : exn) : keeps_files (raise e : M A).
Proof. intros st o st' H. inversion H. apply same_files_refl. Qed.

Lemma keeps_lift {A} (x : outcome A) : keeps_files (lift x).
Proof. intros st o st' H. inversion H. apply same_files_refl. Qed.

Lemma keeps_read {A} (f : Engine -> A) : keeps_files (read f).
Proof. intros st o st' H. inversion H. apply same_files_refl. Qed.

Lemma keeps_modify (f : Engine -> Engine) :
  (forall st, same_files st (f st)) -> keeps_files (modify f).
Proof. intros Hf st o st' H. inversion H. apply Hf. Qed.

Lemma keeps_bind {A B} (m : M A) (f : A -> M B) :
  keeps_files m -> (forall a, keeps_files (f a)) -> keeps_files (bind m f).
Proof.
  intros Hm Hf st o st' H. unfold bind in H.
  destruct (m st) as [[a | e] st1] eqn:E.
  - eapply same_files_trans; [eapply Hm; exact E | eapply Hf; exact H].
  - inversion H; subst. eapply Hm. exact E.
Qed.

Lemma keeps_for_each {A} (body : A -> M unit) (l : list A) :
  (forall x, keeps_files (body x)) -> keeps_files (for_each body l).
Proof.
  intros Hb. induction l as [| x l IH]; cbn [for_each].
  - apply keeps_ret.
  - apply keeps_bind; [apply Hb | intros _; exact IH].
Qed.

Lemma writes_raise {A} (e : exn) : writes_on_return (raise e : M A).
Proof. intros st o st' H. inversion H. apply same_files_refl. Qed.

Lemma writes_save {A} (a : A) :
  writes_on_return (bind _save_tables (fun _ => ret a)).
Proof. intros st o st' H. inversion H. split; reflexivity. Qed.

Lemma writes_bind {A B} (m : M A) (f : A -> M B) :
  keeps_files m -> (forall a, writes_on_return (f a)) ->
  writes_on_return (bind m f).
Proof.
  intros Hm Hf st o st' H. unfold bind in H.
  destruct (m st) as [[a | e] st1] eqn:E.
  - pose proof (Hm _ _ _ E) as [Ht Hi]. pose proof (Hf a _ _ _ H) as Hw.
    destruct o; [exact Hw |].
    destruct Hw as [Ht' Hi']. split; congruence.
  - inversion H; subst. eapply Hm. exact E.
Qed.

(** The steps that leave the files alone, taken apart by their shape. *)
Ltac files_step :=
  match goal with
  | |- keeps_files (bind _ _) => apply keeps_bind; [| intros ?]
  | |- keeps_files (ret _) => apply keeps_ret
  | |- keeps_files (raise _) => apply keeps_raise
  | |- keeps_files (lift _) => apply keeps_lift
  | |- keeps_files (read _) => apply keeps_read
  | |- keeps_files (modify _) =>
      apply keeps_modify; intros ?; split; reflexivity
  | |- keeps_files (for_each _ _) => apply keeps_for_each; intros ?
  | |- keeps_files (if ?b then _ else _) => destruct b
  | |- keeps_files (match ?x with _ => _ end) => destruct x
  | |- writes_on_return (bind _save_tables _) => apply writes_save
  | |- writes_on_return (raise _) => apply writes_raise
  | |- writes_on_return (bind _ _) => apply writes_bind; [| intros ?]
  | |- writes_on_return (if ?b then _ else _) => destruct b
  | |- writes_on_return (match ?x with _ => _ end) => destruct x
  end.

Ltac files :=
  repeat first
    [ files_step
    | progress cbv zeta
    | progress unfold store_table, store_table_indexes, the_table,
        the_table_indexes, the_index, store_index, existing_table,
        no_such_table, check_primary_key, check_unique_key, index_row,
        unindex_row, delete_row, _rebuild_indexes, update_column ].



End Files.

(** ** Validation *)

Section Validation.
Context {PF : PyFloat}.

Lemma wrap_invalid_return (value : Value) (data_type : string)
    (attempt : outcome Value) (r : Value) :
  wrap_invalid value data_type attempt = Return r -> attempt = Return r.
Proof.
  destruct attempt as [v | [cls msg]]; cbn; [auto |].
  destruct cls; discriminate.
Qed.

Lemma wrap_invalid_raise (value : Value) (data_type : string)
    (attempt : outcome Value) (e : exn) :
  wrap_invalid value data_type attempt = Raise e ->
  exn_class e <> TypeError.
Proof.
  destruct attempt as [v | [cls msg]]; cbn; [discriminate |].
  destruct cls; intros H; inversion H; cbn; discriminate.
Qed.

(** X10. A value that passes [_validate_type] has the declared type.
    NULL stays NULL. Otherwise an INT column gets an [int], a VARCHAR
    column the text of the value, no longer than the declared length, a
    FLOAT column a [float], a BOOLEAN column a [bool], a DATETIME column
    a [str]; for any other type name the value is stored as it is. A
    failure is never a [TypeError]. *)
Theorem validated_value_has_the_declared_type (value : Value)
    (data_type : string) :
  (is_None value = true -> _validate_type value data_type = Return VNone)
  /\ (forall r,
        is_None value = false ->
        _validate_type value data_type = Return r ->
        (data_type = "INT" -> exists z, r = VInt z /\ py_int value = Return z)
        /\ (Str.startswith "VARCHAR" data_type = true ->
            r = VStr (py_str value)
            /\ (Str.contains "(" data_type = true ->
                exists max_len,
                  varchar_max_len data_type = Return max_len
                  /\ (Z.of_nat (String.length (py_str value))
                      <= max_len)%Z))
        /\ (data_type = "FLOAT" ->
            exists f, r = VFloat f /\ py_float value = Return f)
        /\ (data_type = "BOOLEAN" -> exists b, r = VBool b)
        /\ (data_type = "DATETIME" -> exists s, r = VStr s)
        /\ (data_type <> "INT" ->
            Str.startswith "VARCHAR" data_type = false ->
            data_type <> "FLOAT" -> data_type <> "BOOLEAN" ->
            data_type <> "DATETIME" ->
            r = value))
  /\ (forall e,
        _validate_type value data_type = Raise e ->
        exn_class e <> TypeError).
Proof.
  unfold _validate_type. split; [intros ->; reflexivity |]. split.
  - intros r Hnn. rewrite Hnn. intros H.
    apply wrap_invalid_return in H.
    split; [| split; [| split; [| split; [| split]]]].
    + intros ->. cbn in H. destruct (py_int value) as [z | e];
        [| discriminate].
      cbn in H. inversion H. eauto.
    + intros Hv.
      destruct (String.eqb data_type "INT") eqn:E.
      { apply String.eqb_eq in E. subst. discriminate. }
      rewrite Hv in H.
      destruct (Str.contains "(" data_type).
      * destruct (varchar_max_len data_type) as [max_len | e];
          [| discriminate].
        cbn [obind] in H.
        destruct (max_len <? Z.of_nat (String.length (py_str value)))%Z
          eqn:L; [discriminate |].
        inversion H. split; [reflexivity |]. intros _.
        exists max_len. split; [reflexivity |].
        apply Z.ltb_ge. exact L.
      * inversion H. split; [reflexivity | discriminate].
    + intros ->. cbn in H. destruct (py_float value) as [f | e];
        [| discriminate].
      cbn in H. inversion H. eauto.
    + intros ->. cbn in H. destruct value; inversion H; eauto.
    + intros ->. cbn in H. destruct value; inversion H; eauto.
    + intros H1 H2 H3 H4 H5.
      apply String.eqb_neq in H1, H3, H4, H5.
      rewrite H1, H2, H3, H4, H5 in H. inversion H. reflexivity.
  - intros e. destruct (is_None value); [discriminate |].
    apply wrap_invalid_raise.
Qed.

(** The loop of [insert_row] over the declared columns, from any
    dictionary [acc] that holds none of them. *)
Lemma validate_row_from (row_data : Row) (columns : Columns) :
  forall (acc validated_row : Row),
    NoDup (Dict.keys columns) ->
    (forall c, In c (Dict.keys columns) ->
               Dict.get String.eqb c acc = None) ->
    validate_row columns row_data acc = Return validated_row ->
    Dict.keys validated_row = Dict.keys acc ++ Dict.keys columns
    /\ (forall k, ~ In k (Dict.keys columns) ->
          Dict.get String.eqb k validated_row = Dict.get String.eqb k acc)
    /\ forall c col_def,
         In (c, col_def) columns ->
         if is_None (row_get c row_data)
         then not_null col_def = false
              /\ Dict.get String.eqb c validated_row = Some VNone
         else exists v,
                _validate_type (row_get c row_data) (col_type col_def)
                = Return v
                /\ Dict.get String.eqb c validated_row = Some v.
Proof.
  induction columns as [| [c col_def] columns IH];
    intros acc v Hnd Hfresh H.
  - inversion H; subst. cbn. rewrite app_nil_r.
    split; [reflexivity |]. split; [reflexivity | intros ? ? []].
  - cbn [validate_row] in H. unfold Dict.keys in Hnd. cbn [map fst] in Hnd.
    inversion Hnd as [| ? ? Hnotin Hnd']; subst.
    fold (Dict.keys columns) in Hnotin, Hnd'.
    assert (Hstep : exists x,
               validate_row columns row_data
                 (Dict.set String.eqb c x acc) = Return v
               /\ if is_None (row_get c row_data)
                  then not_null col_def = false /\ x = VNone
                  else _validate_type (row_get c row_data)
                         (col_type col_def) = Return x).
    { destruct (is_None (row_get c row_data)) eqn:Hn.
      - destruct (not_null col_def); cbn [andb negb] in H; [discriminate |].
        cbn [obind] in H. exists VNone. auto.
      - rewrite andb_false_r in H. cbn [negb] in H.
        destruct (_validate_type (row_get c row_data) (col_type col_def))
          as [x | e]; [| discriminate].
        cbn [obind] in H. exists x. auto. }
    destruct Hstep as (x & Hrest & Hx).
    assert (Hc : Dict.get String.eqb c acc = None)
      by (apply Hfresh; left; reflexivity).
    destruct (IH (Dict.set String.eqb c x acc) v Hnd') as (Hk & Hout & Hin);
      [| exact Hrest |].
    { intros c' Hc'. rewrite get_set_other.
      - apply Hfresh. right. exact Hc'.
      - intros ->. contradiction. }
    assert (Hcv : Dict.get String.eqb c v = Some x)
      by (rewrite (Hout c Hnotin); apply get_set_same).
    split; [| split].
    + rewrite Hk, (keys_set_absent _ _ _ Hc), <- app_assoc. reflexivity.
    + intros k Hk'. unfold Dict.keys in Hk'. cbn [map fst] in Hk'.
      rewrite Hout.
      * apply get_set_other. intros ->. apply Hk'. left. reflexivity.
      * intros Hin'. apply Hk'. right. exact Hin'.
    + intros c' def' [Heq | Hin'].
      * inversion Heq; subst c' def'.
        destruct (is_None (row_get c row_data)).
        -- destruct Hx as [Hnull ->]. auto.
        -- eauto.
      * apply Hin. exact Hin'.
Qed.

(** X11. The row [insert_row] stores has exactly the declared columns.
    When the loop over the columns returns, for a declaration whose
    column names are distinct: the validated row has the declared
    columns as its keys, in declaration order, so a field of the input
    that names no column is dropped; a column the input leaves out or
    gives as NULL holds NULL, and is not declared NOT NULL; every other
    column holds its input value as [_validate_type] converts it. *)
Theorem validated_row_has_the_declared_columns (columns : Columns)
    (row_data validated_row : Row) :
  NoDup (Dict.keys columns) ->
  validate_row columns row_data [] = Return validated_row ->
  Dict.keys validated_row = Dict.keys columns
  /\ forall c col_def,
       In (c, col_def) columns ->
       if is_None (row_get c row_data)
       then not_null col_def = false
            /\ Dict.get String.eqb c validated_row = Some VNone
       else exists v,
              _validate_type (row_get c row_data) (col_type col_def)
              = Return v
              /\ Dict.get String.eqb c validated_row = Some v.
Proof.
  intros Hnd H.
  destruct (validate_row_from row_data columns [] validated_row Hnd)
    as (Hk & _ & Hin); [reflexivity | exact H |].
  split; [exact Hk | exact Hin].
Qed.

End Validation.

(** ** Updates that name no column, and the primary key *)

Section Keys.
Context {PF : PyFloat}.





Lemma ordered_pairs_by_position {A} (R : A -> A -> Prop) (l : list A) :
  ForallOrdPairs R l ->
  forall i j x y,
    nth_error l i = Some x -> nth_error l j = Some y -> i < j -> R x y.
Proof.
  induction 1 as [| a l Ha Hl IH]; intros i j x y Hi Hj Hlt.
  - destruct i; discriminate.
  - destruct j as [| j]; [lia |]. cbn in Hj.
    destruct i as [| i]; cbn in Hi.
    + inversion Hi; subst. rewrite Forall_forall in Ha. apply Ha.
      eapply nth_error_In. exact Hj.
    + eapply IH; eauto. lia.
Qed.

(** X13. Primary-key values stay distinct. In every state built by
    [create_table], [insert_row] and [delete_rows], two rows of a table
    at different positions never hold equal values, other than NULL, in
    its primary-key column, and looking up in the index of the primary
    key a value equal to one a row holds finds an entry. *)
Theorem primary_key_values_stay_distinct (st : Engine)
    (table_name : string) (table : Table) (pk : string) :
  built st ->
  Dict.get String.eqb table_name (tables st) = Some table ->
  named (tbl_primary_key table) = Some pk ->
  (forall i j row_i row_j,
      nth_error (tbl_rows table) i = Some row_i ->
      nth_error (tbl_rows table) j = Some row_j ->
      i < j ->
      is_None (row_get pk row_i) = false ->
      is_None (row_get pk row_j) = false ->
      py_eq (row_get pk row_j) (row_get pk row_i) = false)
  /\ forall row v,
       In row (tbl_rows table) ->
       is_None (row_get pk row) = false ->
       py_eq v (row_get pk row) = true ->
       Dict.mem py_eq v (index_of table_name pk st) = true.
Proof.
  intros Hbuilt Htab Hpk.
  destruct (built_index_covers st table_name table pk Hbuilt Htab Hpk)
    as (tix & index & Hix & Hidx & Hcovers & Hdiff).
  split.
  - intros i j row_i row_j Hi Hj Hlt Hni Hnj.
    apply (ordered_pairs_by_position differ _ Hdiff i j
             (row_get pk row_i) (row_get pk row_j)); try assumption.
    + unfold values_in. rewrite nth_error_map, Hi. reflexivity.
    + unfold values_in. rewrite nth_error_map, Hj. reflexivity.
  - intros row v Hin Hnn Heq. unfold index_of. rewrite Hix, Hidx.
    apply (Hcovers row v Hin Hnn Heq).
Qed.

End Keys.

(** ** Statements by their first word *)

Section FirstWord.
Context {PF : PyFloat}.
Import QueryParser.

Lemma parse_create_table_kind (query : string) (plan : ParsedQuery) :
  _parse_create_table query = Return plan -> kind_word plan = "CREATE".
Proof.
  unfold _parse_create_table.
  destruct (Re.rmatch create_table_pattern query); [| discriminate].
  destruct (_parse_column_definitions _); cbn; intros H; inversion H.
  reflexivity.
Qed.

Lemma parse_insert_kind (query : string) (plan : ParsedQuery) :
  _parse_insert query = Return plan -> kind_word plan = "INSERT".
Proof.
  unfold _parse_insert.
  destruct (Re.rmatch insert_pattern1 query).
  - intros H; inversion H. reflexivity.
  - destruct (Re.rmatch insert_pattern2 query); intros H; inversion H.
    reflexivity.
Qed.

Lemma parse_select_kind (query : string) (plan : ParsedQuery) :
  _parse_select query = Return plan -> kind_word plan = "SELECT".
Proof.
  unfold _parse_select, _parse_select_with_join.
  destruct (Str.contains " JOIN " (Str.upper query)).
  - destruct (Re.rmatch select_join_pattern query); [| discriminate].
    destruct (_parse_join_condition _); cbn; intros H; inversion H.
    reflexivity.
  - destruct (Re.rmatch select_pattern query); intros H; inversion H.
    reflexivity.
Qed.

Lemma parse_delete_kind (query : string) (plan : ParsedQuery) :
  _parse_delete query = Return plan -> kind_word plan = "DELETE".
Proof.
  unfold _parse_delete.
  destruct (Re.rmatch delete_pattern query); [| discriminate].
  destruct (nonempty _); intros H; inversion H. reflexivity.
Qed.

Lemma parse_show_kind (query : string) (plan : ParsedQuery) :
  _parse_show query = Return plan -> kind_word plan = "SHOW".
Proof.
  unfold _parse_show. destruct (String.eqb _ _); intros H; inversion H.
  reflexivity.
Qed.

Lemma parse_describe_kind (query : string) (plan : ParsedQuery) :
  _parse_describe query = Return plan -> kind_word plan = "DESCRIBE".
Proof.
  unfold _parse_describe.
  destruct (Re.rmatch describe_pattern query); intros H; inversion H.
  reflexivity.
Qed.

Lemma parse_update_outcomes (query : string) :
  _parse_update query = Raise (Exn ValueError "Invalid UPDATE syntax")
  \/ exists table, _parse_update query = Return (UPDATE table [] None).
Proof.
  destruct (_parse_update query) as [plan | e] eqn:E.
  - right. destruct (parsed_update_is_bare query plan E) as [table ->].
    eauto.
  - left. revert E. unfold _parse_update.
    destruct (Re.rmatch update_pattern query) as [m |] eqn:Hm.
    + destruct (update_pattern_captures query m Hm) as [H2 H3].
      unfold group_text. rewrite H2, H3. cbn. discriminate.
    + intros H. inversion H. reflexivity.
Qed.

(** What [parse] does, by the first word. *)
Lemma parse_by_first_word (query : string) :
  let text := Str.rstrip_char ";" (Str.strip query) in
  parse query
  = match first_word query with
    | None => Raise (Exn IndexError "list index out of range")
    | Some w =>
        if String.eqb w "CREATE" then _parse_create_table text
        else if String.eqb w "INSERT" then _parse_insert text
        else if String.eqb w "SELECT" then _parse_select text
        else if String.eqb w "UPDATE" then _parse_update text
        else if String.eqb w "DELETE" then _parse_delete text
        else if String.eqb w "SHOW" then _parse_show text
        else if String.eqb w "DESCRIBE" then _parse_describe text
        else Raise (Exn ValueError ("Unsupported query type: " ++ w))
    end.
Proof.
  unfold parse, first_word.
  destruct (Str.split_ws _) as [| word0 words]; reflexivity.
Qed.

(** The kind of the plan follows the first word. *)
Lemma plan_of_first_word (query : string) (plan : ParsedQuery) :
  parse query = Return plan -> first_word query = Some (kind_word plan).
Proof.
  rewrite parse_by_first_word.
  destruct (first_word query) as [w |]; [| discriminate].
  destruct (String.eqb w "CREATE") eqn:E1.
  { apply String.eqb_eq in E1. subst w. intros H.
    rewrite (parse_create_table_kind _ _ H). reflexivity. }
  destruct (String.eqb w "INSERT") eqn:E2.
  { apply String.eqb_eq in E2. subst w. intros H.
    rewrite (parse_insert_kind _ _ H). reflexivity. }
  destruct (String.eqb w "SELECT") eqn:E3.
  { apply String.eqb_eq in E3. subst w. intros H.
    rewrite (parse_select_kind _ _ H). reflexivity. }
  destruct (String.eqb w "UPDATE") eqn:E4.
  { apply String.eqb_eq in E4. subst w. intros H.
    destruct (parsed_update_is_bare _ _ H) as [table ->]. reflexivity. }
  destruct (String.eqb w "DELETE") eqn:E5.
  { apply String.eqb_eq in E5. subst w. intros H.
    rewrite (parse_delete_kind _ _ H). reflexivity. }
  destruct (String.eqb w "SHOW") eqn:E6.
  { apply String.eqb_eq in E6. subst w. intros H.
    rewrite (parse_show_kind _ _ H). reflexivity. }
  destruct (String.eqb w "DESCRIBE") eqn:E7.
  { apply String.eqb_eq in E7. subst w. intros H.
    rewrite (parse_describe_kind _ _ H). reflexivity. }
  discriminate.
Qed.

Lemma execute_of_parse_error (query : string) (e : exn) (st : Engine) :
  parse query = Raise e -> execute query st = (Return (failure e), st).
Proof. intros H. unfold execute, guarded, bind, lift. rewrite H. reflexivity. Qed.

Lemma dispatch_returns (plan : ParsedQuery) (st : Engine) :
  exists r st', dispatch plan st = (Return r, st').
Proof.
  destruct plan; cbn [dispatch];
    unfold _execute_create_table, _execute_insert, _execute_select,
      _execute_select_join, _execute_update, _execute_delete,
      _execute_show_tables, _execute_describe;
    match goal with
    | |- exists r st', guarded ?body ?s = _ =>
        destruct (guarded_cases body s)
          as [(r & st' & _ & ->) | (e & st' & _ & ->)]; eauto
    end.
Qed.

Lemma execute_of_plan (query : string) (plan : ParsedQuery) (st : Engine) :
  parse query = Return plan -> execute query st = dispatch plan st.
Proof.
  intros H. unfold execute, guarded, bind, lift. rewrite H.
  destruct (dispatch_returns plan st) as (r & st' & ->). reflexivity.
Qed.

(** A plan that is no CREATE TABLE, INSERT or DELETE leaves the engine
    as it is; an UPDATE is taken without predicate, as the parser
    returns it. *)
Lemma dispatch_reads (plan : ParsedQuery) (st : Engine) :
  kind_word plan <> "CREATE" -> kind_word plan <> "INSERT" ->
  kind_word plan <> "DELETE" ->
  (forall table updates where_clause,
      plan = UPDATE table updates where_clause ->
      no_conditions where_clause = true) ->
  snd (dispatch plan st) = st.
Proof.
  intros H1 H2 H3 Hupdate. destruct plan; cbn [dispatch kind_word] in *;
    try congruence.
  - unfold _execute_select. rewrite guarded_state. unfold bind.
    destruct (select_rows table where_ st) as [[rows | e] st'] eqn:Hs;
      rewrite (select_rows_reads _ _ _ _ _ Hs); reflexivity.
  - unfold _execute_select_join. rewrite guarded_state.
    destruct (select_rows table1 None st) as [[rows1 | e] st1] eqn:Hs1;
      pose proof (select_rows_reads _ _ _ _ _ Hs1); subst st1.
    2:{ rewrite (run_bind_raise _ _ _ _ _ Hs1). reflexivity. }
    rewrite (run_bind _ _ _ _ _ Hs1).
    destruct (select_rows table2 None st) as [[rows2 | e] st2] eqn:Hs2;
      pose proof (select_rows_reads _ _ _ _ _ Hs2); subst st2.
    2:{ rewrite (run_bind_raise _ _ _ _ _ Hs2). reflexivity. }
    rewrite (run_bind _ _ _ _ _ Hs2).
    match goal with
    | |- snd (bind ?m _ st) = st =>
        assert (Hj : (exists joined, m st = (Return joined, st))
                     \/ (exists e, m st = (Raise e, st)))
    end.
    { destruct (no_conditions where_); [unfold ret; eauto |].
      destruct where_ as [w |]; [| unfold ret; eauto].
      unfold lift. destruct (filter_joined _ w); eauto. }
    destruct Hj as [[joined Hj] | [e Hj]].
    + rewrite (run_bind _ _ _ _ _ Hj). reflexivity.
    + rewrite (run_bind_raise _ _ _ _ _ Hj). reflexivity.
  - pose proof (Hupdate table updates where_ eq_refl) as Hnone.
    unfold _execute_update. rewrite guarded_state.
    destruct where_ as [[| c w] |]; try discriminate; reflexivity.
  - reflexivity.
  - unfold _execute_describe. rewrite guarded_state. unfold bind.
    destruct (get_table_schema table st) as [[schema | e] st'] eqn:Hs;
      rewrite (get_table_schema_reads _ _ _ _ Hs); reflexivity.
Qed.

(** X14. Only CREATE, INSERT and DELETE statements can change the
    engine. A statement whose first word is none of these three (a
    SELECT, with or without JOIN, an UPDATE, SHOW TABLES, DESCRIBE, or
    anything [parse] refuses) leaves tables, indexes and files as they
    were, in every state. *)
Theorem reading_statements_change_nothing (query : string) (st : Engine) :
  first_word query <> Some "CREATE" ->
  first_word query <> Some "INSERT" ->
  first_word query <> Some "DELETE" ->
  snd (execute query st) = st.
Proof.
  intros H1 H2 H3.
  destruct (parse query) as [plan | e] eqn:Hparse.
  - rewrite (execute_of_plan _ _ _ Hparse).
    pose proof (plan_of_first_word _ _ Hparse) as Hw.
    apply dispatch_reads; try (intros Hk; rewrite Hw, Hk in *; congruence).
    intros table updates where_clause ->.
    destruct (every_update_is_answered_with_the_safety_failure
                query table updates where_clause st Hparse) as [-> _].
    reflexivity.
  - rewrite (execute_of_parse_error _ _ _ Hparse). reflexivity.
Qed.

(** X15. No UPDATE statement ever updates a row. The SET group of the
    UPDATE pattern is lazy and nothing after it has to match, so it
    captures the empty text and the WHERE clause is never read: a
    statement whose first word is UPDATE either does not match the
    pattern, or parses to a plan with no assignment and no predicate,
    which the executor refuses. Either way [execute] answers with a
    failure and the engine is untouched. *)
Theorem update_statements_never_succeed (query : string) (st : Engine) :
  first_word query = Some "UPDATE" ->
  execute query st
  = (Return (failure (Exn ValueError "Invalid UPDATE syntax")), st)
  \/ execute query st
     = (Return (failure (Exn ValueError
                  "UPDATE without WHERE clause not allowed for safety")),
        st).
Proof.
  intros Hw. pose proof (parse_by_first_word query) as Hparse.
  cbv zeta in Hparse. rewrite Hw in Hparse. cbn in Hparse.
  destruct (parse_update_outcomes
              (Str.rstrip_char ";" (Str.strip query))) as [He | [table Hp]].
  - left. apply execute_of_parse_error. congruence.
  - right. rewrite Hp in Hparse.
    rewrite (execute_of_plan _ _ _ Hparse). reflexivity.
Qed.

Lemma lstrip_blank (s : string) :
  every_char Str.is_space s = true -> Str.lstrip_by Str.is_space s = "".
Proof.
  induction s as [| c s IH]; cbn [every_char Str.lstrip_by];
    [reflexivity |].
  destruct (Str.is_space c); [exact IH | discriminate].
Qed.

(** X16. What [execute] answers to a text that is no statement. A text
    of white space only, the empty text included, is answered with the
    failure [list index out of range]; a text whose first word is none
    of the seven statement words with [Unsupported query type: <word>],
    the word in upper case. The engine is untouched. *)
Theorem unknown_statements_are_refused (query : string) (st : Engine) :
  (every_char Str.is_space query = true ->
   execute query st
   = (Return (failure (Exn IndexError "list index out of range")), st))
  /\ (forall w,
        first_word query = Some w -> ~ In w statement_words ->
        execute query st
        = (Return (failure (Exn ValueError
                     ("Unsupported query type: " ++ w))), st)).
Proof.
  split.
  - intros Hblank. apply execute_of_parse_error.
    rewrite parse_by_first_word. unfold first_word, Str.strip.
    rewrite (lstrip_blank _ Hblank). reflexivity.
  - intros w Hw Hnot. apply execute_of_parse_error.
    rewrite parse_by_first_word, Hw.
    assert (Hk : forall k, In k statement_words -> String.eqb w k = false).
    { intros k Hin. apply String.eqb_neq. intros ->. contradiction. }
    rewrite !Hk by (cbn; tauto). reflexivity.
Qed.

End FirstWord.

(** ** Literals *)

Section Literals.
Context {PF : PyFloat}.
Import QueryParser.

Lemma string_app_assoc (a b c : string) :
  ((a ++ b) ++ c = a ++ (b ++ c))%string.
Proof. induction a as [| x a IH]; cbn; [reflexivity | rewrite IH; reflexivity]. Qed.

Lemma string_app_nil_r (a : string) : (a ++ "" = a)%string.
Proof. induction a as [| x a IH]; cbn; [reflexivity | rewrite IH; reflexivity]. Qed.

Lemma rev_onto_app (s : string) :
  forall acc, Str.rev_onto s acc = (Str.rev s ++ acc)%string.
Proof.
  unfold Str.rev. induction s as [| c s IH]; intros acc; cbn [Str.rev_onto].
  - reflexivity.
  - rewrite (IH (String c acc)), (IH (String c "")), string_app_assoc.
    reflexivity.
Qed.

Lemma rev_cons (c : ascii) (s : string) :
  Str.rev (String c s) = (Str.rev s ++ String c "")%string.
Proof. unfold Str.rev at 1. cbn [Str.rev_onto]. apply rev_onto_app. Qed.

Lemma rev_app (s t : string) :
  Str.rev (s ++ t) = (Str.rev t ++ Str.rev s)%string.
Proof.
  induction s as [| c s IH]; cbn [append].
  - rewrite string_app_nil_r. reflexivity.
  - rewrite !rev_cons, IH, string_app_assoc. reflexivity.
Qed.

Lemma rev_involutive (s : string) : Str.rev (Str.rev s) = s.
Proof.
  induction s as [| c s IH]; [reflexivity |].
  rewrite rev_cons, rev_app, IH. reflexivity.
Qed.

Lemma every_char_app (p : ascii -> bool) (s t : string) :
  every_char p (s ++ t) = every_char p s && every_char p t.
Proof.
  induction s as [| c s IH]; cbn; [reflexivity |].
  rewrite IH, andb_assoc. reflexivity.
Qed.

Lemma every_char_rev (p : ascii -> bool) (s : string) :
  every_char p (Str.rev s) = every_char p s.
Proof.
  induction s as [| c s IH]; [reflexivity |].
  rewrite rev_cons, every_char_app, IH. cbn. rewrite andb_true_r.
  apply andb_comm.
Qed.

Lemma lstrip_no_space (s : string) :
  every_char (fun c => negb (Str.is_space c)) s = true ->
  Str.lstrip_by Str.is_space s = s.
Proof.
  destruct s as [| c s]; cbn; [reflexivity |].
  destruct (Str.is_space c); [discriminate | reflexivity].
Qed.

(** A text without white space is its own [strip]. *)
Lemma strip_no_space (s : string) :
  every_char (fun c => negb (Str.is_space c)) s = true -> Str.strip s = s.
Proof.
  intros H. unfold Str.strip, Str.rstrip_by.
  rewrite (lstrip_no_space s H), lstrip_no_space, rev_involutive;
    [reflexivity |].
  rewrite every_char_rev. exact H.
Qed.

(** So is a text that begins and ends with a character that is not white
    space. *)
Lemma strip_between (c d : ascii) (s : string) :
  Str.is_space c = false -> Str.is_space d = false ->
  Str.strip (String c (s ++ String d ""))
  = String c (s ++ String d "").
Proof.
  intros Hc Hd.
  assert (Hrev : Str.rev (String c (s ++ String d ""))
                 = String d (Str.rev s ++ String c "")).
  { rewrite rev_cons, rev_app. reflexivity. }
  unfold Str.strip.
  assert (Hl : Str.lstrip_by Str.is_space (String c (s ++ String d ""))
               = String c (s ++ String d ""))
    by (cbn [Str.lstrip_by]; rewrite Hc; reflexivity).
  rewrite Hl. unfold Str.rstrip_by. rewrite Hrev.
  cbn [Str.lstrip_by]. rewrite Hd.
  rewrite rev_cons, rev_app, rev_involutive. reflexivity.
Qed.

Lemma remove_last_snoc (s : string) (c : ascii) :
  Str.remove_last (s ++ String c "") = s.
Proof.
  induction s as [| x s IH]; [reflexivity |].
  cbn [append].
  assert (Hcons : forall t, t <> ""%string ->
             Str.remove_last (String x t) = String x (Str.remove_last t)).
  { intros [| y t] Ht; [contradiction | reflexivity]. }
  rewrite Hcons, IH; [reflexivity |]. destruct s; discriminate.
Qed.

Lemma endswith_snoc (c : ascii) (s : string) :
  Str.endswith (String c "") (s ++ String c "") = true.
Proof.
  unfold Str.endswith. rewrite rev_app. cbn. rewrite Ascii.eqb_refl.
  reflexivity.
Qed.

Lemma quoted_literal (q : ascii) (s : string) :
  q = squote \/ q = dquote ->
  _parse_value (String q (s ++ String q "")) = VStr s.
Proof.
  intros Hq. unfold _parse_value.
  rewrite strip_between by (destruct Hq; subst; reflexivity).
  assert (Hnull : String.eqb (Str.upper (String q (s ++ String q "")))
                    "NULL" = false)
    by (destruct Hq; subst; reflexivity).
  rewrite Hnull.
  change (String q (s ++ String q ""))%string
    with (String q s ++ String q "")%string at 2 4.
  assert (Hquoted :
            (Str.startswith (str1 squote) (String q (s ++ String q ""))
             && Str.endswith (str1 squote) (String q s ++ String q "")
             || Str.startswith (str1 dquote) (String q (s ++ String q ""))
                && Str.endswith (str1 dquote) (String q s ++ String q ""))
            = true).
  { destruct Hq; subst q; unfold str1; rewrite endswith_snoc.
    - reflexivity.
    - cbn. reflexivity. }
  rewrite Hquoted. unfold Str.slice_1_m1. cbn [Str.drop].
  rewrite remove_last_snoc. reflexivity.
Qed.

(** Evaluate the tests of one digit character. *)
Ltac eval_digit :=
  repeat match goal with
         | |- context [Str.is_digit ?c] =>
             let b := eval vm_compute in (Str.is_digit c) in
             change (Str.is_digit c) with b
         | |- context [Str.digit_val ?c] =>
             let v := eval vm_compute in (Str.digit_val c) in
             change (Str.digit_val c) with v
         end;
  cbv iota.

Lemma digits_from_acc (l : Decimal.uint) :
  forall a : positive,
    Str.digits_from (Z.pos a) (NilEmpty.string_of_uint l)
    = Some (Z.pos (Pos.of_uint_acc l a)).
Proof.
  induction l; intros a; cbn [NilEmpty.string_of_uint Pos.of_uint_acc];
    [reflexivity | ..];
    cbn [Str.digits_from]; eval_digit;
    rewrite <- IHl; f_equal; lia.
Qed.

Lemma digits_from_zero (l : Decimal.uint) :
  Str.digits_from 0 (NilEmpty.string_of_uint l)
  = Some (Z.of_N (Pos.of_uint l)).
Proof.
  induction l; cbn [NilEmpty.string_of_uint Pos.of_uint];
    [reflexivity | ..];
    cbn [Str.digits_from]; eval_digit;
    [exact IHl | ..];
    cbn [Z.of_N]; rewrite <- digits_from_acc; reflexivity.
Qed.

Lemma digits_of_uint (d : Decimal.uint) :
  Str.digits (NilZero.string_of_uint d) = Some (Z.of_uint d).
Proof.
  unfold Z.of_uint.
  destruct d; cbn [NilZero.string_of_uint NilEmpty.string_of_uint];
    [reflexivity | ..];
    cbn [Str.digits]; eval_digit; cbn [Pos.of_uint Z.of_N];
    [apply digits_from_zero | ..]; apply digits_from_acc.
Qed.

Lemma uint_chars (d : Decimal.uint) :
  every_char Str.is_digit (NilEmpty.string_of_uint d) = true.
Proof. induction d; cbn; auto. Qed.

Lemma uint_chars_zero (d : Decimal.uint) :
  every_char Str.is_digit (NilZero.string_of_uint d) = true.
Proof.
  destruct d; [reflexivity | ..];
    match goal with
    | |- every_char _ (NilZero.string_of_uint ?x) = true =>
        exact (uint_chars x)
    end.
Qed.

Lemma uint_not_empty (d : Decimal.uint) :
  NilZero.string_of_uint d <> ""%string.
Proof. destruct d; discriminate. Qed.

(** The characters of a decimal numeral, seen by the tests of
    [_parse_value]. *)
Lemma numeral_char (c : ascii) :
  Str.is_digit c || Ascii.eqb c "-" = true ->
  Str.is_space c = false /\ Str.upper_char c = c
  /\ Ascii.eqb c "N" = false /\ Ascii.eqb c "T" = false
  /\ Ascii.eqb c "F" = false /\ Ascii.eqb squote c = false
  /\ Ascii.eqb dquote c = false /\ Ascii.eqb "." c = false
  /\ Ascii.eqb c "+" = false.
Proof.
  destruct c as [[] [] [] [] [] [] [] []]; cbn; intros H;
    try discriminate H; repeat split.
Qed.

Lemma numeral_chars (s : string) :
  every_char (fun c => Str.is_digit c || Ascii.eqb c "-") s = true ->
  every_char (fun c => negb (Str.is_space c)) s = true
  /\ Str.upper s = s
  /\ Str.contains "." s = false.
Proof.
  induction s as [| c s IH]; cbn [every_char]; [repeat split |].
  intros H. apply andb_prop in H. destruct H as [Hc Hs].
  destruct (numeral_char c Hc) as (H1 & H2 & _ & _ & _ & _ & _ & H3 & _).
  destruct (IH Hs) as (I1 & I2 & I3).
  split; [rewrite H1, I1; reflexivity |]. split.
  - unfold Str.upper in *. cbn [Str.map_chars]. rewrite H2, I2. reflexivity.
  - cbn [Str.contains Str.startswith]. rewrite H3, I3. reflexivity.
Qed.

Lemma every_char_weaken (p q : ascii -> bool) (s : string) :
  (forall c, p c = true -> q c = true) ->
  every_char p s = true -> every_char q s = true.
Proof.
  intros Hpq. induction s as [| c s IH]; cbn; [reflexivity |].
  intros H. apply andb_prop in H. destruct H as [Hc Hs].
  rewrite (Hpq c Hc), (IH Hs). reflexivity.
Qed.

Lemma of_Z_chars (z : Z) :
  every_char (fun c => Str.is_digit c || Ascii.eqb c "-") (Str.of_Z z) = true
  /\ Str.of_Z z <> ""%string.
Proof.
  assert (Hd : forall d,
             every_char (fun c => Str.is_digit c || Ascii.eqb c "-")
               (NilZero.string_of_uint d) = true).
  { intros d. apply (every_char_weaken Str.is_digit); [| apply uint_chars_zero].
    intros c ->. reflexivity. }
  unfold Str.of_Z. destruct z as [| p | p];
    cbn [Z.to_int NilZero.string_of_int].
  - split; [reflexivity | discriminate].
  - split; [apply Hd | apply uint_not_empty].
  - split; [cbn [every_char]; rewrite Hd; reflexivity | discriminate].
Qed.

(** A decimal numeral, with or without a minus sign, is read as the
    integer [int] gives for it, and as itself when [int] refuses it. *)
Lemma numeral_literal (s : string) :
  every_char (fun c => Str.is_digit c || Ascii.eqb c "-") s = true ->
  s <> ""%string ->
  _parse_value s
  = match Str.to_int s with
    | Some z => VInt z
    | None => VStr s
    end.
Proof.
  intros Hs Hne.
  destruct (numeral_chars s Hs) as (Hsp & Hup & Hdot).
  unfold _parse_value. rewrite (strip_no_space s Hsp), Hup, Hdot.
  destruct s as [| c s]; [contradiction |].
  cbn [every_char] in Hs. apply andb_prop in Hs. destruct Hs as [Hc _].
  destruct (numeral_char c Hc) as (_ & _ & HN & HT & HF & Hq & Hd & _).
  cbn [String.eqb Str.startswith str1]. rewrite HN, HT, HF, Hq, Hd.
  cbn [andb orb]. destruct (Str.to_int (String c s)); reflexivity.
Qed.

Lemma int_space_is_space (c : ascii) :
  Str.is_int_space c = true -> Str.is_space c = true.
Proof.
  destruct c as [[] [] [] [] [] [] [] []]; cbn; intros H;
    try discriminate H; reflexivity.
Qed.

Lemma lstrip_by_none (p : ascii -> bool) (s : string) :
  every_char (fun c => negb (p c)) s = true -> Str.lstrip_by p s = s.
Proof.
  destruct s as [| c s]; cbn; [reflexivity |].
  destruct (p c); [discriminate | reflexivity].
Qed.

(** A text without white space is its own numeral for [int]. *)
Lemma int_strip_no_space (s : string) :
  every_char (fun c => negb (Str.is_space c)) s = true ->
  Str.int_strip s = s.
Proof.
  intros H.
  assert (Hint : every_char (fun c => negb (Str.is_int_space c)) s = true).
  { revert H. apply every_char_weaken. intros c Hc.
    destruct (Str.is_int_space c) eqn:E; [| reflexivity].
    rewrite (int_space_is_space c E) in Hc. discriminate. }
  unfold Str.int_strip, Str.rstrip_by.
  rewrite (lstrip_by_none _ s Hint), lstrip_by_none, rev_involutive;
    [reflexivity |].
  rewrite every_char_rev. exact Hint.
Qed.

Lemma unsigned_numeral {A} (s : string) (a b c : string -> A) :
  every_char Str.is_digit s = true ->
  match s with
  | String "-" s' => a s'
  | String "+" s' => b s'
  | s' => c s'
  end = c s.
Proof.
  destruct s as [| x s]; [reflexivity |]. cbn [every_char].
  intros H. apply andb_prop in H. destruct H as [Hx _].
  destruct x as [[] [] [] [] [] [] [] []]; try discriminate Hx;
    reflexivity.
Qed.

Lemma digits_no_space (s : string) :
  every_char Str.is_digit s = true ->
  every_char (fun c => negb (Str.is_space c)) s = true.
Proof.
  apply every_char_weaken. intros c Hc.
  destruct (numeral_char c) as [-> _]; [rewrite Hc |]; reflexivity.
Qed.

(** [int] of the decimal numeral of an integer: the integer when the
    numeral has no more digits than the limit, a [ValueError] when it
    has more. *)
Lemma to_int_of_Z (z : Z) :
  Str.to_int (Str.of_Z z)
  = if (Str.max_str_digits <? Str.count_digits (Str.of_Z z))%nat
    then None else Some z.
Proof.
  destruct (of_Z_chars z) as [Hc _].
  destruct (numeral_chars _ Hc) as (Hsp & _).
  unfold Str.to_int. rewrite (int_strip_no_space _ Hsp). cbv zeta.
  destruct (Str.max_str_digits <? Str.count_digits (Str.of_Z z))%nat;
    [reflexivity |].
  unfold Str.of_Z. destruct z as [| p | p];
    cbn [Z.to_int NilZero.string_of_int].
  - reflexivity.
  - rewrite unsigned_numeral by apply uint_chars_zero.
    rewrite digits_of_uint. unfold Z.of_uint.
    rewrite Unsigned.of_to. reflexivity.
  - rewrite digits_of_uint. unfold Z.of_uint.
    rewrite Unsigned.of_to. reflexivity.
Qed.

(** X17. Literals are read back. A text between single or between
    double quotes is read as the text inside, whatever it holds (a
    quote, a comma, NULL, digits); the decimal numeral of an integer is
    read as that integer when it has at most 4300 digits, the most
    [int] converts, and as the text itself when it has more; and a text
    that is NULL up to case and surrounding white space is read as
    [None]. *)
Theorem literals_are_read_back (s : string) (z : Z) :
  _parse_value ("'" ++ s ++ "'") = VStr s
  /\ _parse_value (String dquote (s ++ String dquote "")) = VStr s
  /\ (Str.count_digits (Str.of_Z z) <= Str.max_str_digits ->
      _parse_value (Str.of_Z z) = VInt z)
  /\ (Str.max_str_digits < Str.count_digits (Str.of_Z z) ->
      _parse_value (Str.of_Z z) = VStr (Str.of_Z z))
  /\ (String.eqb (Str.upper (Str.strip s)) "NULL" = true ->
      _parse_value s = VNone).
Proof.
  split; [apply (quoted_literal squote); left; reflexivity |].
  split; [apply (quoted_literal dquote); right; reflexivity |].
  destruct (of_Z_chars z) as [Hc Hne].
  pose proof (numeral_literal _ Hc Hne) as Hread.
  rewrite to_int_of_Z in Hread.
  split; [| split].
  - intros H. rewrite (proj2 (Nat.ltb_ge _ _) H) in Hread. exact Hread.
  - intros H. rewrite (proj2 (Nat.ltb_lt _ _) H) in Hread. exact Hread.
  - intros H. unfold _parse_value. rewrite H. reflexivity.
Qed.

End Literals.

(** ** Predicates and declarations as the parser builds them *)

Section ParsedShapes.
Context {PF : PyFloat}.
Import QueryParser.

Lemma keys_set_nodup {V} (k : string) (v : V) (d : list (string * V)) :
  NoDup (Dict.keys d) -> NoDup (Dict.keys (Dict.set String.eqb k v d)).
Proof.
  intros H. destruct (Dict.get String.eqb k d) as [v0 |] eqn:E.
  - rewrite (keys_set_present _ _ _ _ E). exact H.
  - rewrite (keys_set_absent _ _ _ E).
    apply NoDup_app; [exact H | repeat constructor; intros [] |].
    intros x Hx [<- | []].
    destruct (get_of_key _ _ Hx) as [v' Hv']. congruence.
Qed.

Lemma in_set {V} (k k' : string) (v v' : V) (d : list (string * V)) :
  In (k', v') (Dict.set String.eqb k v d) ->
  (k' = k /\ v' = v) \/ In (k', v') d.
Proof.
  induction d as [| [k0 v0] d IH]; cbn.
  - intros [H | []]. inversion H. auto.
  - destruct (String.eqb k k0) eqn:E; cbn.
    + apply String.eqb_eq in E. subst k0.
      intros [H | H]; [inversion H; auto | auto].
    + intros [H | H]; [auto |]. destruct (IH H); auto.
Qed.

Lemma where_condition_shape (part : string) (conditions : Where) :
  where_condition part conditions = conditions
  \/ exists c condition,
       where_condition part conditions
       = Dict.set String.eqb c condition conditions
       /\ one_test condition.
Proof.
  unfold where_condition.
  destruct (find _ operators) as [op |] eqn:Hfind; [| left; reflexivity].
  apply find_some in Hfind. destruct Hfind as [Hop _].
  destruct (Str.split_once op (Str.strip part)) as [[col value] |];
    [| left; reflexivity].
  right. destruct (String.eqb op "=") eqn:E.
  - eexists _, _. split; [reflexivity | exact I].
  - eexists _, _. split; [reflexivity |].
    exists op, (_parse_value (Str.strip value)).
    split; [reflexivity |]. split; [exact Hop |].
    apply String.eqb_neq. exact E.
Qed.

(** X18. A parsed predicate holds one test per column. Whatever the
    WHERE text, the dictionary [_parse_where_clause] returns names each
    column once, with a plain literal (for [=]) or with exactly one of
    the other five operators: a later conjunct on a column replaces the
    earlier one, so of [id > 1 AND id < 5] only [id < 5] is kept. *)
Theorem parsed_predicate_has_one_test_per_column (where_str : string) :
  NoDup (Dict.keys (_parse_where_clause where_str))
  /\ forall c condition,
       In (c, condition) (_parse_where_clause where_str) ->
       one_test condition.
Proof.
  unfold _parse_where_clause.
  generalize (Re.split and_pattern where_str). intros parts.
  assert (Hinv : forall conditions : Where,
             NoDup (Dict.keys conditions)
             /\ (forall c condition,
                   In (c, condition) conditions -> one_test condition) ->
             NoDup (Dict.keys
                      (fold_left (fun conds part => where_condition part conds)
                                 parts conditions))
             /\ (forall c condition,
                   In (c, condition)
                      (fold_left
                         (fun conds part => where_condition part conds)
                         parts conditions) ->
                   one_test condition)).
  { induction parts as [| part parts IH]; intros conditions H;
      cbn [fold_left]; [exact H |].
    apply IH. destruct H as [Hnd Hall].
    destruct (where_condition_shape part conditions)
      as [-> | (c & condition & -> & Hone)]; [auto |].
    split; [apply keys_set_nodup; exact Hnd |].
    intros c' condition' Hin.
    destruct (in_set _ _ _ _ _ Hin) as [[_ ->] | Hin']; eauto. }
  apply Hinv. split; [constructor | intros c condition []].
Qed.

Lemma column_definition_shape (col_def : string) (columns columns' : Columns) :
  column_definition col_def columns = Return columns' ->
  exists name def,
    columns' = Dict.set String.eqb name def columns /\ key_flags def.
Proof.
  unfold column_definition.
  destruct (Str.split_ws (Str.strip col_def)) as [| name [| type rest]];
    try discriminate.
  intros H. inversion H. eexists _, _. split; [reflexivity |].
  unfold key_flags. cbn. intros ->.
  split; [reflexivity | apply andb_false_r].
Qed.

Lemma column_definitions_shape (col_defs : list string) :
  forall columns columns' : Columns,
    column_definitions col_defs columns = Return columns' ->
    NoDup (Dict.keys columns) ->
    (forall name def, In (name, def) columns -> key_flags def) ->
    NoDup (Dict.keys columns')
    /\ forall name def, In (name, def) columns' -> key_flags def.
Proof.
  induction col_defs as [| col_def col_defs IH];
    intros columns columns' H Hnd Hall.
  - inversion H; subst. auto.
  - cbn [column_definitions] in H.
    destruct (column_definition col_def columns) as [columns1 | e] eqn:E;
      [| discriminate].
    cbn [obind] in H.
    destruct (column_definition_shape _ _ _ E) as (name & def & -> & Hflags).
    apply (IH _ _ H); [apply keys_set_nodup; exact Hnd |].
    intros name' def' Hin.
    destruct (in_set _ _ _ _ _ Hin) as [[_ ->] | Hin']; eauto.
Qed.

(** X19. The declarations of a CREATE TABLE plan. Whatever statement
    parses to a CREATE TABLE plan, its columns have distinct names, and
    a column flagged PRIMARY KEY is NOT NULL and carries no UNIQUE
    flag. *)
Theorem created_columns_are_well_formed (query table : string)
    (columns : Columns) :
  parse query = Return (CREATE_TABLE table columns) ->
  NoDup (Dict.keys columns)
  /\ forall name def, In (name, def) columns -> key_flags def.
Proof.
  intros Hparse. pose proof (plan_of_first_word _ _ Hparse) as Hw.
  rewrite parse_by_first_word, Hw in Hparse. cbn in Hparse.
  unfold _parse_create_table in Hparse.
  destruct (Re.rmatch create_table_pattern _) as [m |]; [| discriminate].
  destruct (_parse_column_definitions (group_text 2 m)) as [cols | e] eqn:E;
    [| discriminate].
  cbn [obind] in Hparse. inversion Hparse; subst cols.
  apply (column_definitions_shape _ _ _ E); [constructor | intros ? ? []].
Qed.

End ParsedShapes.

(** ** Splitting at commas *)

Section Commas.
Context {PF : PyFloat}.
Import QueryParser.

Lemma split_char_not_nil (sep : ascii) (s : string) :
  Str.split_char sep s <> [].
Proof.
  destruct s as [| c s]; cbn; [discriminate |].
  destruct (Ascii.eqb c sep); [discriminate |].
  destruct (Str.split_char sep s); discriminate.
Qed.

Lemma drop_blank_last_cons (x : string) (l : list string) :
  l <> [] ->
  x :: (if String.eqb (last l "") "" then removelast l else l)
  = if String.eqb (last (x :: l) "") "" then removelast (x :: l)
    else x :: l.
Proof.
  destruct l as [| y l]; [contradiction |]. intros _.
  cbn [last removelast]. destruct (String.eqb _ _); reflexivity.
Qed.

(** The fields still to come, the text read so far put before the first
    of them. *)
Lemma split_by_comma_plain (text : string) :
  forall (parts : list string) (current : string) (quote : option ascii),
    every_char plain_char text = true ->
    split_by_comma_loop text parts current false quote 0
    = parts
      ++ (let fields :=
            map Str.strip
                (match Str.split_char "," text with
                 | w :: ws => (current ++ w)%string :: ws
                 | [] => [current]
                 end) in
          if String.eqb (last fields "") "" then removelast fields
          else fields).
Proof.
  induction text as [| c text IH]; intros parts current quote Hplain.
  - cbn [split_by_comma_loop Str.split_char map].
    rewrite string_app_nil_r. cbn [last removelast].
    destruct (String.eqb (Str.strip current) ""); cbn [negb];
      [rewrite app_nil_r |]; reflexivity.
  - cbn [every_char] in Hplain. apply andb_prop in Hplain.
    destruct Hplain as [Hc Htext]. unfold plain_char in Hc.
    apply negb_true_iff in Hc.
    apply orb_false_elim in Hc. destruct Hc as [Hc Hclose].
    apply orb_false_elim in Hc. destruct Hc as [Hc Hopen].
    cbn [split_by_comma_loop]. rewrite Hc, Hopen, Hclose.
    cbn [andb negb]. rewrite andb_false_r. cbn [Str.split_char].
    destruct (Ascii.eqb c ",") eqn:Hcomma; cbn [andb Z.eqb].
    + rewrite (IH _ _ _ Htext), <- app_assoc. f_equal.
      pose proof (split_char_not_nil "," text) as Hne.
      destruct (Str.split_char "," text) as [| w ws]; [contradiction |].
      rewrite string_app_nil_r. cbn [append map app].
      apply (drop_blank_last_cons (Str.strip current)
               (Str.strip w :: map Str.strip ws)).
      discriminate.
    + rewrite (IH _ _ _ Htext). f_equal.
      destruct (Str.split_char "," text) as [| w ws].
      * unfold add_char, str1. reflexivity.
      * unfold add_char, str1. rewrite string_app_assoc. reflexivity.
Qed.

(** X20. On a text without quotes and parentheses, [_split_by_comma] is
    [split(',')] followed by [strip] of every field, the last field
    dropped when it is blank; an empty or blank text has no field. *)
Theorem split_by_comma_on_plain_text (text : string) :
  every_char plain_char text = true ->
  _split_by_comma text = trimmed_fields text.
Proof.
  intros H. unfold _split_by_comma, trimmed_fields.
  rewrite (split_by_comma_plain text [] "" None H). cbn [app].
  pose proof (split_char_not_nil "," text) as Hne.
  destruct (Str.split_char "," text) as [| w ws]; [contradiction |].
  reflexivity.
Qed.

End Commas.

(** ** The inventory application *)

Section Application.
Context {PF : PyFloat}.
Import QueryParser Inventory.

(** Inside single quotes the loop of [_split_by_comma] reads an escaped
    text to its end and is inside the quotes again. *)
Lemma escaped_inside_quotes (s : string) :
  forall (tail : string) (parts : list string) (current : string)
         (depth : Z),
    split_by_comma_loop (escape_string (Some s) ++ tail) parts current
                        true (Some squote) depth
    = split_by_comma_loop tail parts (current ++ escape_string (Some s))
                          true (Some squote) depth.
Proof.
  induction s as [| c s IH]; intros tail parts current depth.
  - cbn. rewrite string_app_nil_r. reflexivity.
  - cbn [escape_string replace_char] in *.
    destruct (Ascii.eqb c "'") eqn:E.
    + cbn [append split_by_comma_loop]. cbn -[split_by_comma_loop append].
      rewrite IH. unfold add_char, str1.
      rewrite !string_app_assoc. reflexivity.
    + cbn [append split_by_comma_loop].
      unfold same_quote, squote. rewrite E.
      cbn [negb andb]. rewrite !andb_false_r. cbn [andb].
      rewrite IH. unfold add_char, str1.
      rewrite string_app_assoc. reflexivity.
Qed.

Lemma escaped_length (s : string) :
  String.length s <= String.length (escape_string (Some s))
  /\ (Str.contains "'" s = true ->
      String.length s < String.length (escape_string (Some s)))
  /\ (Str.contains "'" s = false -> escape_string (Some s) = s).
Proof.
  cbn [escape_string]. induction s as [| c s (IH1 & IH2 & IH3)].
  - cbn. split; [lia |]. split; [discriminate | reflexivity].
  - cbn [replace_char Str.contains Str.startswith].
    rewrite (Ascii.eqb_sym "'" c).
    destruct (Ascii.eqb c "'"); cbn [andb orb append String.length].
    + split; [lia |]. split; [intros _; lia | discriminate].
    + split; [lia |]. split.
      * intros H. apply IH2 in H. lia.
      * intros H. rewrite (IH3 H). reflexivity.
Qed.

(** X21. A text escaped by [escape_string] and put between single quotes
    is read by the parser as one value, whatever commas, quotes or
    parentheses it holds; that value is the escaped text, every single
    quote doubled, since the parser undoes no escape. It is the
    original text exactly when that holds no single quote. *)
Theorem escaped_text_is_one_value (s : string) :
  _parse_values ("'" ++ escape_string (Some s) ++ "'")
  = [VStr (escape_string (Some s))]
  /\ (Str.contains "'" s = false -> escape_string (Some s) = s)
  /\ (Str.contains "'" s = true ->
      String.length s < String.length (escape_string (Some s))).
Proof.
  split; [| split; apply escaped_length].
  unfold _parse_values, _split_by_comma.
  change ("'" ++ escape_string (Some s) ++ "'")%string
    with (String "'" (escape_string (Some s) ++ "'")).
  cbn [split_by_comma_loop]. cbn -[split_by_comma_loop append escape_string].
  rewrite escaped_inside_quotes.
  cbn [split_by_comma_loop]. cbn -[append escape_string Str.strip String.eqb map _parse_value].
  unfold add_char, str1. cbn [append].
  rewrite strip_between by reflexivity. cbn [String.eqb negb app map].
  rewrite strip_between by reflexivity.
  rewrite (quoted_literal squote); [reflexivity | left; reflexivity].
Qed.

Import StorageEngine QueryExecutor.

Lemma create_table_returns (table_name : string) (columns : Columns)
    (st : Engine) :
  Dict.mem String.eqb table_name (tables st) = false ->
  List.length (primary_keys_of columns) <= 1 ->
  exists st',
    create_table table_name columns st = (Return true, st')
    /\ created table_name columns st st'.
Proof.
  intros Hmem Hone.
  destruct (create_table table_name columns st) as [o st'] eqn:E.
  exists st'.
  destruct (create_table_effect _ _ _ _ _ E) as [(e & -> & ->) | [-> H]];
    [| split; [reflexivity | exact H]].
  exfalso. revert E. unfold create_table.
  rewrite (run_bind _ _ _ _ _
             (eq_refl : read tables st = (Return (tables st), st))).
  rewrite Hmem. fold (primary_keys_of columns).
  rewrite (proj2 (Nat.ltb_ge _ _) Hone).
  unfold store_table at 1, modify at 1, bind at 1.
  unfold store_table_indexes at 1, modify at 1, bind at 1.
  match goal with
  | |- bind (for_each _ ?keys) _ ?s = _ -> _ =>
      destruct (store_index_loop_exact table_name keys s [])
        as (st3 & Hrun & _); [cbn; apply get_set_same |]
  end.
  rewrite (run_bind _ _ _ _ _ Hrun). discriminate.
Qed.

Lemma execute_creates (query table_name : string) (columns : Columns)
    (st : Engine) :
  parse query = Return (CREATE_TABLE table_name columns) ->
  Dict.mem String.eqb table_name (tables st) = false ->
  List.length (primary_keys_of columns) <= 1 ->
  exists r st',
    execute query st = (Return r, st')
    /\ created table_name columns st st'.
Proof.
  intros Hparse Hmem Hone. rewrite (execute_of_plan _ _ _ Hparse).
  cbn [dispatch]. unfold _execute_create_table, guarded.
  destruct (create_table_returns _ _ _ Hmem Hone) as (st' & Hrun & Hc).
  rewrite (run_bind _ _ _ _ _ Hrun). unfold ret. eauto.
Qed.

Lemma listed_keys {V} (k : string) (d : list (string * V)) :
  existsb (String.eqb k) (Dict.keys d) = Dict.mem String.eqb k d.
Proof.
  unfold Dict.mem, Dict.keys.
  induction d as [| [k' v] d IH]; cbn; [reflexivity |].
  destruct (String.eqb k k'); [reflexivity | exact IH].
Qed.

Lemma parse_create_categories :
  exists columns,
    parse create_categories = Return (CREATE_TABLE "categories" columns)
    /\ Dict.keys columns = ["id"; "name"; "description"]
    /\ primary_keys_of columns = ["id"]
    /\ unique_keys_of columns = [].
Proof. eexists. vm_compute. repeat split. Qed.

Lemma parse_create_products :
  exists columns,
    parse create_products = Return (CREATE_TABLE "products" columns)
    /\ Dict.keys columns
       = ["id"; "name"; "description"; "price"; "quantity"; "category_id";
          "sku"; "created_at"]
    /\ primary_keys_of columns = ["id"]
    /\ unique_keys_of columns = ["sku"].
Proof. eexists. vm_compute. repeat split. Qed.

Lemma initialize_schema_steps (st : Engine) :
  initialize_schema st
  = attempt
      (bind (if Dict.mem String.eqb "categories" (tables st)
             then ret tt
             else bind (execute create_categories) (fun _ => ret tt))
         (fun _ =>
            if Dict.mem String.eqb "products" (tables st)
            then ret tt
            else bind (execute create_products) (fun _ => ret tt))) st.
Proof.
  unfold initialize_schema, attempt.
  rewrite (run_bind _ _ _ _ _
             (eq_refl : show_tables st
                        = (Return [("success", PBool true);
                                   ("tables",
                                    PNames (Dict.keys (tables st)));
                                   ("count",
                                    PInt (List.length
                                            (Dict.keys (tables st))))],
                           st))).
  change (listed _) with (Dict.keys (tables st)).
  rewrite !listed_keys.
  destruct (Dict.mem String.eqb "categories" (tables st)),
           (Dict.mem String.eqb "products" (tables st)); reflexivity.
Qed.

Lemma initialize_schema_tables (st : Engine) (cc cp : Columns) :
  parse create_categories = Return (CREATE_TABLE "categories" cc) ->
  parse create_products = Return (CREATE_TABLE "products" cp) ->
  List.length (primary_keys_of cc) <= 1 ->
  List.length (primary_keys_of cp) <= 1 ->
  exists st',
    initialize_schema st = (Return tt, st')
    /\ tables st'
       = with_table "products" cp (with_table "categories" cc (tables st))
    /\ (Dict.mem String.eqb "categories" (tables st) = true ->
        Dict.mem String.eqb "products" (tables st) = true -> st' = st).
Proof.
  intros Hcc Hcp H1 H2. rewrite initialize_schema_steps.
  unfold attempt, with_table.
  destruct (Dict.mem String.eqb "categories" (tables st)) eqn:Hc.
  - rewrite (run_bind _ _ _ _ _ (eq_refl : ret tt st = (Return tt, st))).
    destruct (Dict.mem String.eqb "products" (tables st)) eqn:Hp.
    + exists st. cbn. auto.
    + destruct (execute_creates _ _ _ st Hcp Hp H2)
        as (r & st2 & Hrun & _ & Htabs & _).
      rewrite (run_bind _ _ _ _ _ Hrun). exists st2. cbn.
      split; [reflexivity |]. split; [exact Htabs | discriminate].
  - destruct (execute_creates _ _ _ st Hcc Hc H1)
      as (r & st1 & Hrun & _ & Htabs & _).
    rewrite (run_bind _ _ _ _ _
               (run_bind _ (fun _ => ret tt) _ _ _ Hrun)).
    assert (Hsame : Dict.mem String.eqb "products" (tables st1)
                    = Dict.mem String.eqb "products" (tables st)).
    { unfold Dict.mem. rewrite Htabs.
      rewrite get_set_other by discriminate. reflexivity. }
    rewrite <- Htabs, <- Hsame.
    destruct (Dict.mem String.eqb "products" (tables st1)) eqn:Hp.
    + exists st1. cbn. split; [reflexivity |].
      split; [reflexivity | discriminate].
    + destruct (execute_creates _ _ _ st1 Hcp Hp H2)
        as (r2 & st2 & Hrun2 & _ & Htabs2 & _).
      rewrite (run_bind _ _ _ _ _ Hrun2). exists st2. cbn.
      split; [reflexivity |]. split; [exact Htabs2 | discriminate].
Qed.

Lemma with_table_mem (name : string) (columns : Columns)
    (d : list (string * Table)) :
  Dict.mem String.eqb name (with_table name columns d) = true.
Proof.
  unfold with_table.
  destruct (Dict.mem String.eqb name d) eqn:E; [exact E |].
  unfold Dict.mem. rewrite get_set_same. reflexivity.
Qed.

Lemma with_table_other (name k : string) (columns : Columns)
    (d : list (string * Table)) :
  k <> name ->
  Dict.get String.eqb k (with_table name columns d)
  = Dict.get String.eqb k d.
Proof.
  intros Hne. unfold with_table.
  destruct (Dict.mem String.eqb name d); [reflexivity |].
  apply get_set_other. exact Hne.
Qed.

Lemma with_table_keeps (name k : string) (columns : Columns)
    (d : list (string * Table)) (table : Table) :
  Dict.get String.eqb k d = Some table ->
  Dict.get String.eqb k (with_table name columns d) = Some table.
Proof.
  intros Hget. unfold with_table.
  destruct (Dict.mem String.eqb name d) eqn:E; [exact Hget |].
  rewrite get_set_other; [exact Hget |].
  intros ->. apply mem_get_none in E. congruence.
Qed.

Lemma with_table_new (name : string) (columns : Columns)
    (d : list (string * Table)) :
  Dict.mem String.eqb name d = false ->
  Dict.get String.eqb name (with_table name columns d)
  = Some (new_table columns).
Proof.
  intros E. unfold with_table. rewrite E. apply get_set_same.
Qed.

(** X22. [initialize_schema] ends, whatever the engine holds, with both
    [categories] and [products] among the tables. A table that was
    there, under any name, is kept with its rows; a missing one of the
    two is created empty with the key [id]; and a second run changes
    nothing. *)
Theorem schema_is_initialized_once (st : Engine) :
  exists st',
    initialize_schema st = (Return tt, st')
    /\ Dict.mem String.eqb "categories" (tables st') = true
    /\ Dict.mem String.eqb "products" (tables st') = true
    /\ (forall name table,
           Dict.get String.eqb name (tables st) = Some table ->
           Dict.get String.eqb name (tables st') = Some table)
    /\ (forall name,
           name <> "categories" -> name <> "products" ->
           Dict.get String.eqb name (tables st')
           = Dict.get String.eqb name (tables st))
    /\ (forall name,
           name = "categories" \/ name = "products" ->
           Dict.mem String.eqb name (tables st) = false ->
           exists table,
             Dict.get String.eqb name (tables st') = Some table
             /\ tbl_rows table = []
             /\ tbl_primary_key table = Some "id")
    /\ initialize_schema st' = (Return tt, st').
Proof.
  destruct parse_create_categories as (cc & Hcc & _ & Hkc & _).
  destruct parse_create_products as (cp & Hcp & _ & Hkp & _).
  assert (H1 : List.length (primary_keys_of cc) <= 1)
    by (rewrite Hkc; cbn; lia).
  assert (H2 : List.length (primary_keys_of cp) <= 1)
    by (rewrite Hkp; cbn; lia).
  destruct (initialize_schema_tables st cc cp Hcc Hcp H1 H2)
    as (st' & Hrun & Htabs & _).
  exists st'. split; [exact Hrun |].
  assert (Hc : Dict.mem String.eqb "categories" (tables st') = true).
  { rewrite Htabs. unfold Dict.mem.
    rewrite with_table_other by discriminate.
    apply (with_table_mem "categories"). }
  assert (Hp : Dict.mem String.eqb "products" (tables st') = true).
  { rewrite Htabs. apply with_table_mem. }
  split; [exact Hc |]. split; [exact Hp |]. split; [| split; [| split]].
  - intros name table Hget. rewrite Htabs.
    apply with_table_keeps, with_table_keeps, Hget.
  - intros name Hnc Hnp. rewrite Htabs.
    rewrite !with_table_other by assumption. reflexivity.
  - intros name [-> | ->] Hmem; rewrite Htabs.
    + rewrite with_table_other by discriminate.
      rewrite with_table_new by exact Hmem.
      eexists. split; [reflexivity |]. split; [reflexivity |].
      cbn [new_table tbl_primary_key]. rewrite Hkc. reflexivity.
    + assert (Hmem' : Dict.mem String.eqb "products"
                        (with_table "categories" cc (tables st)) = false).
      { unfold Dict.mem. rewrite with_table_other by discriminate.
        exact Hmem. }
      rewrite with_table_new by exact Hmem'.
      eexists. split; [reflexivity |]. split; [reflexivity |].
      cbn [new_table tbl_primary_key]. rewrite Hkp. reflexivity.
  - destruct (initialize_schema_tables st' cc cp Hcc Hcp H1 H2)
      as (st2 & Hrun2 & _ & Hsame).
    rewrite Hrun2, (Hsame Hc Hp). reflexivity.
Qed.

End Application.

(** ** Joins *)

Section Joins.
Context {PF : PyFloat}.
Import QueryExecutor.

Lemma prefix_injective (t c c' : string) :
  (t ++ "." ++ c)%string = (t ++ "." ++ c')%string -> c = c'.
Proof.
  induction t as [| a t IH]; cbn; intros H; inversion H; auto.
Qed.

Lemma add_prefixed_cons (t : string) (c : string) (v : Value)
    (row acc : Row) :
  add_prefixed t ((c, v) :: row) acc
  = add_prefixed t row
      (if negb (Str.startswith "_" c)
       then Dict.set String.eqb (t ++ "." ++ c)%string v acc
       else acc).
Proof. reflexivity. Qed.

Lemma in_keys_set {V} (k k' : string) (v : V) (d : list (string * V)) :
  In k' (Dict.keys (Dict.set String.eqb k v d)) ->
  k' = k \/ In k' (Dict.keys d).
Proof.
  destruct (Dict.get String.eqb k d) as [v0 |] eqn:E.
  - rewrite (keys_set_present _ _ _ _ E). auto.
  - rewrite (keys_set_absent _ _ _ E). intros H.
    apply in_app_or in H. destruct H as [H | [<- | []]]; auto.
Qed.

Lemma add_prefixed_keys (t : string) (row : Row) :
  forall (acc : Row) (k : string),
    In k (Dict.keys (add_prefixed t row acc)) ->
    In k (Dict.keys acc)
    \/ exists c,
         Str.startswith "_" c = false
         /\ k = (t ++ "." ++ c)%string /\ In c (Dict.keys row).
Proof.
  induction row as [| [c v] row IH]; intros acc k Hin; [left; exact Hin |].
  rewrite add_prefixed_cons in Hin. apply IH in Hin.
  destruct Hin as [Hin | (c' & Hv & -> & Hc')].
  - destruct (Str.startswith "_" c) eqn:Hc; cbn [negb] in Hin;
      [left; exact Hin |].
    apply in_keys_set in Hin. destruct Hin as [-> | Hin]; [| left; exact Hin].
    right. exists c. cbn. auto.
  - right. exists c'. cbn. auto.
Qed.

Lemma add_prefixed_other (t : string) (row : Row) (k : string) :
  forall acc : Row,
    (forall c, In c (Dict.keys row) -> Str.startswith "_" c = false ->
               (t ++ "." ++ c)%string <> k) ->
    Dict.get String.eqb k (add_prefixed t row acc)
    = Dict.get String.eqb k acc.
Proof.
  induction row as [| [c v] row IH]; intros acc Hother; [reflexivity |].
  rewrite add_prefixed_cons.
  rewrite IH by (intros c' Hc'; apply Hother; cbn; auto).
  destruct (Str.startswith "_" c) eqn:Hc; cbn [negb]; [reflexivity |].
  apply get_set_other. intros ->.
  apply (Hother c); cbn; auto.
Qed.

Lemma add_prefixed_get (t : string) (row : Row) (c : string) (v : Value) :
  forall acc : Row,
    NoDup (Dict.keys row) ->
    Str.startswith "_" c = false ->
    Dict.get String.eqb c row = Some v ->
    Dict.get String.eqb (t ++ "." ++ c)%string (add_prefixed t row acc)
    = Some v.
Proof.
  induction row as [| [c0 v0] row IH]; intros acc Hnd Hc Hget;
    [discriminate |].
  cbn in Hnd. inversion Hnd as [| ? ? Hnotin Hnd']; subst.
  rewrite add_prefixed_cons. cbn [Dict.get] in Hget.
  destruct (String.eqb c c0) eqn:E.
  - apply String.eqb_eq in E. subst c0. inversion Hget; subst v0.
    rewrite Hc. cbn [negb].
    rewrite add_prefixed_other; [apply get_set_same |].
    intros c' Hc' _ Heq. apply prefix_injective in Heq. subst c'.
    exact (Hnotin Hc').
  - apply IH; assumption.
Qed.

Lemma flat_map_ones {A B} (f : A -> list B) (l : list A) :
  (forall x, In x l -> List.length (f x) = 1) ->
  List.length (flat_map f l) = List.length l.
Proof.
  induction l as [| x l IH]; intros H; [reflexivity |].
  cbn [flat_map]. rewrite length_app, (H x) by (left; reflexivity).
  rewrite IH by (intros y Hy; apply H; right; exact Hy). reflexivity.
Qed.

Lemma flat_map_same_length {A B} (f : A -> list B) (l : list A) (n : nat) :
  (forall x, In x l -> List.length (f x) = n) ->
  List.length (flat_map f l) = List.length l * n.
Proof.
  induction l as [| x l IH]; intros H; [reflexivity |].
  cbn [flat_map List.length]. rewrite length_app, (H x) by (left; reflexivity).
  rewrite IH by (intros y Hy; apply H; right; exact Hy). lia.
Qed.

(** X23. A row of a join comes from a pair of rows that meets the ON
    condition, and every such pair gives one. Its columns are columns of
    the two rows under their table's prefix, none whose name starts with
    an underscore, so never [_row_id]. Under the second table's prefix
    it holds the second row's values; under the first table's prefix the
    first row's, unless the second row writes the same name, as in the
    join of a table with itself. *)
Theorem joined_rows_hold_prefixed_columns (table1 table2 : string)
    (condition : string * string) (rows1 rows2 : list Row)
    (joined_row : Row) :
  (forall row, In row rows1 \/ In row rows2 -> NoDup (Dict.keys row)) ->
  In joined_row (join_rows table1 table2 condition rows1 rows2)
  <-> exists row1 row2,
        In row1 rows1 /\ In row2 rows2
        /\ _evaluate_join_condition row1 row2 condition table1 table2
           = true
        /\ joined_row
           = add_prefixed table2 row2 (add_prefixed table1 row1 [])
        /\ (forall k,
               In k (Dict.keys joined_row) ->
               exists c,
                 Str.startswith "_" c = false
                 /\ ((k = (table1 ++ "." ++ c)%string
                      /\ In c (Dict.keys row1))
                     \/ (k = (table2 ++ "." ++ c)%string
                         /\ In c (Dict.keys row2))))
        /\ (forall c v,
               Str.startswith "_" c = false ->
               Dict.get String.eqb c row2 = Some v ->
               Dict.get String.eqb (table2 ++ "." ++ c)%string joined_row
               = Some v)
        /\ (forall c v,
               Str.startswith "_" c = false ->
               Dict.get String.eqb c row1 = Some v ->
               (forall c', In c' (Dict.keys row2) ->
                           Str.startswith "_" c' = false ->
                           (table2 ++ "." ++ c')%string
                           <> (table1 ++ "." ++ c)%string) ->
               Dict.get String.eqb (table1 ++ "." ++ c)%string joined_row
               = Some v).
Proof.
  intros Hdicts. unfold join_rows. rewrite in_flat_map. split.
  - intros (row1 & H1 & Hin). apply in_flat_map in Hin.
    destruct Hin as (row2 & H2 & Hin).
    destruct (_evaluate_join_condition row1 row2 condition table1 table2)
      eqn:Hon; [| destruct Hin].
    destruct Hin as [<- | []].
    exists row1, row2.
    split; [exact H1 |]. split; [exact H2 |]. split; [exact Hon |].
    split; [reflexivity |]. split; [| split].
    + intros k Hk. apply add_prefixed_keys in Hk.
      destruct Hk as [Hk | (c & Hc & -> & Hin)]; [| exists c; auto].
      apply add_prefixed_keys in Hk.
      destruct Hk as [[] | (c & Hc & -> & Hin)]. exists c. auto.
    + intros c v Hc Hget. apply add_prefixed_get; auto.
    + intros c v Hc Hget Hother.
      rewrite add_prefixed_other by exact Hother.
      apply add_prefixed_get; auto.
  - intros (row1 & row2 & H1 & H2 & Hon & -> & _).
    exists row1. split; [exact H1 |]. apply in_flat_map.
    exists row2. split; [exact H2 |]. rewrite Hon. left. reflexivity.
Qed.

(** X24. An ON condition whose two columns no row holds is met by every
    pair of rows, both sides being [None]: the join is the whole
    product of the two tables. *)
Theorem join_on_missing_columns_is_the_product (table1 table2 : string)
    (condition : string * string) (rows1 rows2 : list Row) :
  (forall row, In row rows1 \/ In row rows2 ->
     Dict.get String.eqb (snd (qualified (fst condition) table1)) row
     = None
     /\ Dict.get String.eqb (snd (qualified (snd condition) table2)) row
        = None) ->
  List.length (join_rows table1 table2 condition rows1 rows2)
  = List.length rows1 * List.length rows2.
Proof.
  intros Hmissing. unfold join_rows.
  apply flat_map_same_length. intros row1 H1.
  apply flat_map_ones. intros row2 H2.
  assert (Hon : _evaluate_join_condition row1 row2 condition table1 table2
                = true).
  { unfold _evaluate_join_condition.
    destruct (qualified (fst condition) table1) as [lt lc] eqn:El.
    destruct (qualified (snd condition) table2) as [rt rc] eqn:Er.
    cbn [snd] in Hmissing. unfold row_get.
    destruct (Hmissing row1 (or_introl H1)) as [-> ->].
    destruct (Hmissing row2 (or_intror H2)) as [-> ->].
    destruct (String.eqb lt table1), (String.eqb rt table2); reflexivity. }
  rewrite Hon. reflexivity.
Qed.

End Joins.

(** ** Indexes read back from the file *)

Section Reloaded.
Context {PF : PyFloat}.
Import StorageEngine.

Lemma keys_of_set_by {K V} (eqb : K -> K -> bool) (k k' : K) (v : V)
    (d : list (K * V)) :
  In k' (map fst (Dict.set eqb k v d)) -> k' = k \/ In k' (map fst d).
Proof.
  induction d as [| [k0 v0] d IH]; cbn.
  - intros [<- | []]. left. reflexivity.
  - destruct (eqb k k0); cbn.
    + intros H. right. exact H.
    + intros [<- | H]; [right; left; reflexivity |].
      destruct (IH H) as [-> | Hin]; [left | right; right]; auto.
Qed.

(** The keys of an index that was read back are texts. *)
Lemma loaded_keys_are_texts (index : Index) (k : Value) :
  In k (map fst (loaded_index index)) -> exists s, k = VStr s.
Proof.
  unfold loaded_index.
  assert (Hinv : forall loaded : Index,
             (forall k, In k (map fst loaded) -> exists s, k = VStr s) ->
             forall k,
               In k (map fst
                       (fold_left
                          (fun loaded kv =>
                             Dict.set py_eq (VStr (json_key (fst kv)))
                                      (snd kv) loaded)
                          index loaded)) ->
               exists s, k = VStr s).
  { induction index as [| kv index IH]; intros loaded Hl k0 Hin;
      [exact (Hl k0 Hin) |].
    cbn [fold_left] in Hin. apply (IH _ (fun k1 H1 =>
      match keys_of_set_by _ _ _ _ _ H1 with
      | or_introl E => ex_intro _ _ E
      | or_intror H2 => Hl k1 H2
      end) k0 Hin). }
  apply Hinv. intros k0 [].
Qed.

Lemma get_among_texts (index : Index) (z : Z) :
  (forall k, In k (map fst index) -> exists s, k = VStr s) ->
  Dict.get py_eq (VInt z) index = None.
Proof.
  induction index as [| [k n] index IH]; intros Hk; [reflexivity |].
  cbn [Dict.get].
  destruct (Hk k (or_introl eq_refl)) as [s ->].
  change (py_eq (VInt z) (VStr s)) with false. cbv iota.
  apply IH. intros k0 H0. apply Hk. right. exact H0.
Qed.

(** So an index that was read back finds no number. *)
Lemma loaded_index_finds_no_number (index : Index) (z : Z) :
  Dict.mem py_eq (VInt z) (loaded_index index) = false.
Proof.
  unfold Dict.mem.
  rewrite get_among_texts; [reflexivity |].
  apply loaded_keys_are_texts.
Qed.

End Reloaded.

(** * The properties at concrete databases *)

Section Runs.
Import Scenario.

Lemma categories_db_is_run :
  categories_db = snd (run_all categories_statements empty_engine).
Proof. vm_compute. reflexivity. Qed.

Lemma notes_db_is_run :
  notes_db = snd (run_all notes_statements empty_engine).
Proof. vm_compute. reflexivity. Qed.

Lemma items_db_is_run :
  items_db = snd (run_all items_statements empty_engine).
Proof. vm_compute. reflexivity. Qed.

Lemma zeros_db_is_run :
  (zeros_results, zeros_db) = run_all zeros_statements empty_engine.
Proof. vm_compute. reflexivity. Qed.

(** C1, the claim as stated fails: a row whose [note] is NULL satisfies
    [note = NULL] and [note != 'b'], in the single-table matcher, in the
    matcher for joined rows, and through [execute]. *)
Lemma null_satisfies_equality_tests :
  let row := [("id", VInt 1); ("note", VNone); ("_row_id", VInt 0)] in
  let joined := [("t.id", VInt 1); ("t.note", VNone)] in
  row_get "note" row = VNone
  /\ _matches_where_clause row [("note", CLit VNone)] = Return true
  /\ _matches_where_clause row [("note", COps [("!=", VStr "b")])]
     = Return true
  /\ join_row_value "note" joined = VNone
  /\ _matches_where_clause_join joined [("note", CLit VNone)] = Return true
  /\ rows_of "t" notes_db
     = [row; [("id", VInt 2); ("note", VStr "b"); ("_row_id", VInt 1)]]
  /\ fst (execute "SELECT id FROM t WHERE note = NULL" notes_db)
     = Return (rows_result [[("id", VInt 1)]])
  /\ fst (execute "SELECT id FROM t WHERE note != 'b'" notes_db)
     = Return (rows_result [[("id", VInt 1)]]).
Proof. vm_compute. repeat split; reflexivity. Qed.

Lemma null_comparison_semantics_witness :
  let row := [("id", VInt 1); ("note", VNone); ("_row_id", VInt 0)] in
  let where_clause :=
    [("id", CLit (VInt 1)); ("note", COps [(">", VStr "a")])] in
  ordering_operator ">"
  /\ has_test "note" ">" (VStr "a") where_clause
  /\ row_get "note" row = VNone
  /\ _matches_where_clause row where_clause <> Return true
  /\ _matches_where_clause row [("note", COps [("!=", VStr "a")])]
     = Return true.
Proof.
  intros row where_clause.
  assert (Hop : ordering_operator ">") by (left; reflexivity).
  assert (Htest : has_test "note" ">" (VStr "a") where_clause).
  { exists [(">", VStr "a")].
    split; [right; left; reflexivity | left; reflexivity]. }
  destruct (proj1 null_comparison_semantics row "note")
    as (Hord & Heq & _).
  destruct (Heq (VStr "a") eq_refl) as (_ & _ & Hne).
  split; [exact Hop |]. split; [exact Htest |]. split; [reflexivity |].
  split; [| exact Hne].
  exact (Hord where_clause ">" (VStr "a") Hop Htest (or_introl eq_refl)).
Defined.

(** C2, the claim as stated fails: the parser returns a plan for an
    UPDATE that has no WHERE clause. *)
Lemma parser_accepts_update_without_where :
  QueryParser.parse "UPDATE categories SET name = 'x'"
  = Return (UPDATE "categories" [] None).
Proof. vm_compute. reflexivity. Qed.

Lemma unqualified_update_stopped_by_executor_witness :
  QueryParser.parse "UPDATE categories SET name = 'x'"
  = Return (UPDATE "categories" [] None)
  /\ execute "UPDATE categories SET name = 'x'" categories_db
     = (Return (failure (Exn ValueError
                  "UPDATE without WHERE clause not allowed for safety")),
        categories_db).
Proof.
  assert (Hparse : QueryParser.parse "UPDATE categories SET name = 'x'"
                   = Return (UPDATE "categories" [] None))
    by (vm_compute; reflexivity).
  split; [exact Hparse |].
  exact (proj2 (unqualified_update_stopped_by_executor
                  "UPDATE categories SET name = 'x'" categories_db)
           "categories" [] None Hparse eq_refl).
Defined.

(** C3 at its failing input: both INSERTs of the value 0 into the
    UNIQUE column [code] succeed, and the table ends with two rows
    whose [code] is 0. *)
Theorem unique_column_accepts_a_second_zero :
  zeros_results
  = [Return [("success", PBool true);
             ("message", PStr "Table 'items' created successfully")];
     Return [("success", PBool true);
             ("message", PStr "Row inserted with ID 0");
             ("row_id", PInt 0)];
     Return [("success", PBool true);
             ("message", PStr "Row inserted with ID 1");
             ("row_id", PInt 1)]]
  /\ rows_of "items" zeros_db
     = [[("id", VInt 1); ("code", VInt 0); ("_row_id", VInt 0)];
        [("id", VInt 2); ("code", VInt 0); ("_row_id", VInt 1)]]
  /\ truthy (VInt 0) = false.
Proof. vm_compute. repeat split; reflexivity. Qed.

(** C4 at its failing inputs. After the two INSERTs of 0 the index of
    [code] maps 0 to row 1 only, though row 0 holds 0 as well; and
    [update_rows] with the value [None] for the UNIQUE column records
    [None] in the index, which [insert_row] and [_rebuild_indexes] never
    do. *)
Theorem index_is_not_the_map_of_the_rows :
  (index_of "items" "code" zeros_db = [(VInt 0, 1)]
   /\ map (row_get "code") (rows_of "items" zeros_db) = [VInt 0; VInt 0])
  /\
  (update_rows "items" [("code", VNone)] [("id", CLit (VInt 1))] items_db
   = (Return 1, items_code_null)
   /\ index_of "items" "code" items_code_null
      = [(VInt 20, 1); (VNone, 0)]
   /\ map (row_get "code") (rows_of "items" items_code_null)
      = [VNone; VInt 20]).
Proof. vm_compute. repeat split; reflexivity. Qed.

Lemma categories_reloaded_is_run :
  categories_reloaded
  = StorageEngine.__init__ (snd (run_all categories_statements empty_engine)).
Proof. vm_compute. reflexivity. Qed.

(** C6 at its failing input. An index read back from [indexes.json]
    has texts for keys and finds no number. After a restart the index
    of the primary key of [categories] holds the text ["1"] where the
    engine that wrote the files held the number [1]; the primary-key
    check of [insert_row] looks up the number, finds nothing, and the
    second row with [id = 1] is stored. *)
Theorem reloaded_index_misses_the_primary_key :
  (forall (index : Index) (z : Z),
      Dict.mem py_eq (VInt z) (StorageEngine.loaded_index index) = false)
  /\ rows_of "categories" categories_reloaded
     = [[("id", VInt 1); ("name", VStr "Books"); ("_row_id", VInt 0)]]
  /\ index_of "categories" "id" categories_db = [(VInt 1, 0)]
  /\ index_of "categories" "id" categories_reloaded = [(VStr "1", 0)]
  /\ fst (execute "INSERT INTO categories VALUES (1, 'Other')"
            categories_reloaded)
     = Return [("success", PBool true);
               ("message", PStr "Row inserted with ID 1");
               ("row_id", PInt 1)]
  /\ rows_of "categories"
       (snd (execute "INSERT INTO categories VALUES (1, 'Other')"
               categories_reloaded))
     = [[("id", VInt 1); ("name", VStr "Books"); ("_row_id", VInt 0)];
        [("id", VInt 1); ("name", VStr "Other"); ("_row_id", VInt 1)]].
Proof.
  split; [exact loaded_index_finds_no_number |].
  vm_compute. repeat split; reflexivity.
Qed.


(** C7, the claim as stated fails: a projection list that names
    [_row_id] gets it back. *)
Lemma select_of_row_id_returns_it :
  fst (execute "SELECT _row_id, name FROM categories" categories_db)
  = Return (rows_result [[("_row_id", VInt 0); ("name", VStr "Books")]]).
Proof. vm_compute. reflexivity. Qed.

Lemma row_id_in_select_output_witness :
  select_rows "categories" None categories_db
  = (Return (rows_of "categories" categories_db), categories_db)
  /\ _execute_select ["*"] "categories" None categories_db
     = (Return (rows_result [[("id", VInt 1); ("name", VStr "Books")]]),
        categories_db)
  /\ Dict.mem String.eqb "_row_id"
       (project_row ["name"] [("id", VInt 1); ("name", VStr "Books");
                              ("_row_id", VInt 0)]) = false.
Proof.
  assert (Hsel : select_rows "categories" None categories_db
                 = (Return (rows_of "categories" categories_db),
                    categories_db)) by (vm_compute; reflexivity).
  split; [exact Hsel |].
  destruct (row_id_in_select_output ["*"] "categories" None _ _ _ Hsel)
    as (out & Hrun & _ & _).
  destruct (row_id_in_select_output ["name"] "categories" None _ _ _ Hsel)
    as (out' & _ & _ & Hlist).
  destruct (Hlist eq_refl) as [_ Hrow].
  split; [vm_compute; reflexivity |].
  rewrite Hrow. reflexivity.
Defined.

Lemma explicit_projection_copies_present_fields_witness :
  is_star ["name"; "price"] = false
  /\ select_rows "categories" None categories_db
     = (Return [[("id", VInt 1); ("name", VStr "Books");
                 ("_row_id", VInt 0)]], categories_db)
  /\ execute "SELECT name, price FROM categories" categories_db
     = (Return [("success", PBool true);
                ("rows", PRows [[("name", VStr "Books")]]);
                ("count", PInt 1)], categories_db)
  /\ exists out : list Row,
       _execute_select ["name"; "price"] "categories" None categories_db
       = (Return [("success", PBool true);
                  ("rows", PRows out);
                  ("count", PInt 1)], categories_db)
       /\ Forall2
            (fun row out_row =>
               forall col,
                 Dict.get String.eqb col out_row
                 = if existsb (String.eqb col) ["name"; "price"]
                   then Dict.get String.eqb col row else None)
            [[("id", VInt 1); ("name", VStr "Books"); ("_row_id", VInt 0)]]
            out.
Proof.
  assert (Hsel : select_rows "categories" None categories_db
                 = (Return [[("id", VInt 1); ("name", VStr "Books");
                             ("_row_id", VInt 0)]], categories_db))
    by (vm_compute; reflexivity).
  split; [reflexivity |]. split; [exact Hsel |].
  split; [vm_compute; reflexivity |].
  exact (explicit_projection_copies_present_fields ["name"; "price"]
           "categories" None _ _ _ eq_refl Hsel).
Defined.

(** C9, the claim as stated fails: an UPDATE whose WHERE text holds no
    operator updates no row; it is answered with the safety failure and
    the engine is as before. *)
Lemma update_with_operator_free_where_changes_nothing :
  conjuncts "anything" = ["anything"]
  /\ QueryParser._parse_where_clause "anything" = []
  /\ execute "UPDATE categories SET name = 'x' WHERE anything" categories_db
     = (Return (failure (Exn ValueError
                  "UPDATE without WHERE clause not allowed for safety")),
        categories_db)
  /\ _execute_update "categories" [("name", VStr "x")]
       (Some (QueryParser._parse_where_clause "anything")) categories_db
     = (Return (failure (Exn ValueError
                  "UPDATE without WHERE clause not allowed for safety")),
        categories_db)
  /\ rows_of "categories" categories_db
     = [[("id", VInt 1); ("name", VStr "Books"); ("_row_id", VInt 0)]].
Proof. vm_compute. repeat split; reflexivity. Qed.

Lemma operator_free_where_clause_witness :
  Forall operator_free (conjuncts "anything")
  /\ QueryParser.parse "DELETE FROM categories WHERE anything"
     = Return (DELETE "categories" (Some []))
  /\ rows_of "categories"
       (snd (execute "DELETE FROM categories WHERE anything" categories_db))
     = []
  /\ fst (_execute_update "categories" [("name", VStr "x")]
            (Some (QueryParser._parse_where_clause "anything"))
            categories_db)
     = Return (failure (Exn ValueError
                 "UPDATE without WHERE clause not allowed for safety")).
Proof.
  assert (Hfree : Forall operator_free (conjuncts "anything")).
  { constructor; [| constructor].
    intros op Hop. simpl in Hop.
    destruct Hop as [<- | [<- | [<- | [<- | [<- | [<- | []]]]]]];
      reflexivity. }
  destruct (operator_free_where_clause "anything" "categories"
              categories_db _ _ Hfree eq_refl eq_refl)
    as (_ & _ & _ & _ & Hupdate).
  split; [exact Hfree |].
  split; [vm_compute; reflexivity |].
  split; [vm_compute; reflexivity |].
  rewrite Hupdate. reflexivity.
Defined.

Lemma update_rows_keeps_partial_updates_witness :
  update_rows "items" [("code", VInt 99)] [("id", COps [(">", VInt 0)])]
    items_db
  = (Raise (Exn ValueError "Constraint violation: 99 already exists"),
     items_half_updated)
  /\ same_files items_db items_half_updated
  /\ map (row_get "code") (rows_of "items" items_db) = [VInt 10; VInt 20]
  /\ map (row_get "code") (rows_of "items" items_half_updated)
     = [VInt 99; VInt 20]
  /\ index_of "items" "code" items_half_updated
     = [(VInt 20, 1); (VInt 99, 0)]
  /\ map (fun t => map (row_get "code") (tbl_rows (snd t)))
         (tables_json items_half_updated)
     = [[VInt 10; VInt 20]].
Proof.
  assert (Hrun : update_rows "items" [("code", VInt 99)]
                   [("id", COps [(">", VInt 0)])] items_db
                 = (Raise (Exn ValueError
                             "Constraint violation: 99 already exists"),
                    items_half_updated)) by (vm_compute; reflexivity).
  destruct (update_rows_keeps_partial_updates "items" _ _ items_db _ _ _ _
              eq_refl eq_refl Hrun) as [Hfiles _].
  split; [exact Hrun |]. split; [exact Hfiles |].
  vm_compute. repeat split; reflexivity.
Defined.

Lemma categories_db_is_built : built categories_db.
Proof. rewrite categories_db_is_run. apply run_all_built. apply built_empty. Qed.

Lemma notes_db_is_built : built notes_db.
Proof. rewrite notes_db_is_run. apply run_all_built. apply built_empty. Qed.

Lemma items_db_is_built : built items_db.
Proof. rewrite items_db_is_run. apply run_all_built. apply built_empty. Qed.

Lemma failed_statement_changes_nothing_witness :
  snd (execute "INSERT INTO categories VALUES (1, 'Other')" categories_db)
  = categories_db.
Proof.
  apply (failed_statement_changes_nothing
           "INSERT INTO categories VALUES (1, 'Other')" categories_db _
           (failure (Exn ValueError
                       "Primary key violation: 1 already exists"))).
  - exact categories_db_is_built.
  - vm_compute. reflexivity.
  - reflexivity.
Defined.

Lemma statements_keep_the_tables_witness :
  exists table',
    Dict.get String.eqb "categories"
      (tables (snd (run_all ["DELETE FROM categories WHERE id = 1";
                             "INSERT INTO categories VALUES (7, 'Games')"]
                      categories_db)))
    = Some table'
    /\ tbl_columns table'
       = [("id", {| col_type := "INT"; not_null := true;
                    primary_key := true; unique := false |});
          ("name", {| col_type := "VARCHAR(100)"; not_null := true;
                      primary_key := false; unique := false |})].
Proof.
  destruct (statements_keep_the_tables
              ["DELETE FROM categories WHERE id = 1";
               "INSERT INTO categories VALUES (7, 'Games')"]
              categories_db "categories" _ categories_db_is_built eq_refl)
    as (table' & Hget & Hcols & _).
  exists table'. split; [exact Hget | exact Hcols].
Defined.

Lemma row_ids_are_the_positions_witness :
  values_in "_row_id" (rows_of "items" items_db) = [VInt 0; VInt 1].
Proof.
  exact (row_ids_are_the_positions items_db items_db_is_built "items" _
           eq_refl).
Defined.


Lemma select_rows_filters_witness :
  select_rows "t" (Some [("id", COps [(">", VInt 1)])]) notes_db
  = (Return [[("id", VInt 2); ("note", VStr "b"); ("_row_id", VInt 1)]],
     notes_db).
Proof.
  destruct (select_rows_filters "t" (Some [("id", COps [(">", VInt 1)])])
              notes_db _ eq_refl) as (_ & _ & Hret & _).
  rewrite Hret; [reflexivity |].
  intros row [<- | [<- | []]]; eexists; reflexivity.
Defined.





Lemma validated_value_has_the_declared_type_witness :
  _validate_type (VStr " 42 ") "INT" = Return (VInt 42)
  /\ exists z, VInt 42 = VInt z /\ py_int (VStr " 42 ") = Return z.
Proof.
  split; [reflexivity |].
  destruct (validated_value_has_the_declared_type (VStr " 42 ") "INT")
    as (_ & H & _).
  destruct (H (VInt 42) eq_refl eq_refl) as (Hint & _).
  exact (Hint eq_refl).
Defined.

Lemma validated_row_has_the_declared_columns_witness :
  validate_row
    [("id", {| col_type := "INT"; not_null := true;
               primary_key := true; unique := false |});
     ("note", {| col_type := "VARCHAR(10)"; not_null := false;
                 primary_key := false; unique := false |})]
    [("id", VStr "3"); ("colour", VStr "red")] []
  = Return [("id", VInt 3); ("note", VNone)]
  /\ Dict.keys [("id", VInt 3); ("note", VNone)] = ["id"; "note"].
Proof.
  split; [reflexivity |].
  refine (proj1 (validated_row_has_the_declared_columns
                   [("id", {| col_type := "INT"; not_null := true;
                              primary_key := true; unique := false |});
                    ("note", {| col_type := "VARCHAR(10)"; not_null := false;
                                primary_key := false; unique := false |})]
                   [("id", VStr "3"); ("colour", VStr "red")]
                   [("id", VInt 3); ("note", VNone)] _ eq_refl)).
  repeat constructor; cbn; intuition discriminate.
Defined.


Lemma primary_key_values_stay_distinct_witness :
  py_eq (row_get "id" [("id", VInt 2); ("code", VInt 20); ("_row_id", VInt 1)])
        (row_get "id" [("id", VInt 1); ("code", VInt 10); ("_row_id", VInt 0)])
  = false.
Proof.
  destruct (primary_key_values_stay_distinct items_db "items" _ "id"
              items_db_is_built eq_refl eq_refl) as [Hdistinct _].
  apply (Hdistinct 0 1); [reflexivity | reflexivity | lia | |]; reflexivity.
Defined.

Lemma reading_statements_change_nothing_witness :
  snd (execute "SELECT * FROM categories WHERE id = 1" categories_db)
  = categories_db.
Proof.
  apply reading_statements_change_nothing; vm_compute; discriminate.
Defined.

Lemma update_statements_never_succeed_witness :
  execute "UPDATE categories SET name = 'Films' WHERE id = 1" categories_db
  = (Return (failure (Exn ValueError
               "UPDATE without WHERE clause not allowed for safety")),
     categories_db).
Proof.
  destruct (update_statements_never_succeed
              "UPDATE categories SET name = 'Films' WHERE id = 1"
              categories_db eq_refl) as [H | H].
  - vm_compute in H. discriminate.
  - exact H.
Defined.

Lemma unknown_statements_are_refused_witness :
  execute "   " categories_db
  = (Return (failure (Exn IndexError "list index out of range")),
     categories_db)
  /\ execute "drop table categories;" categories_db
     = (Return (failure (Exn ValueError "Unsupported query type: DROP")),
        categories_db).
Proof.
  destruct (unknown_statements_are_refused "   " categories_db)
    as [Hblank _].
  destruct (unknown_statements_are_refused "drop table categories;"
              categories_db) as [_ Hword].
  split.
  - apply Hblank. reflexivity.
  - apply (Hword "DROP"); [reflexivity |].
    cbn. intuition discriminate.
Defined.

Lemma literals_are_read_back_witness :
  QueryParser._parse_value "'a, b'" = VStr "a, b"
  /\ Str.count_digits "-42" <= Str.max_str_digits
  /\ QueryParser._parse_value "-42" = VInt (-42)
  /\ Str.max_str_digits < Str.count_digits (Str.of_Z (10 ^ 4300))
  /\ QueryParser._parse_value (Str.of_Z (10 ^ 4300))
     = VStr (Str.of_Z (10 ^ 4300))
  /\ QueryParser._parse_value " null " = VNone.
Proof.
  assert (Hfew : Str.count_digits "-42" <= Str.max_str_digits)
    by (apply Nat.leb_le; vm_compute; reflexivity).
  assert (Hmany : Str.max_str_digits
                  < Str.count_digits (Str.of_Z (10 ^ 4300)))
    by (apply Nat.ltb_lt; vm_compute; reflexivity).
  destruct (literals_are_read_back "a, b" (-42)) as (Hq & _ & Hz & _).
  destruct (literals_are_read_back "a, b" (10 ^ 4300))
    as (_ & _ & _ & Hbig & _).
  destruct (literals_are_read_back " null " 0) as (_ & _ & _ & _ & Hnull).
  split; [exact Hq |]. split; [exact Hfew |]. split; [exact (Hz Hfew) |].
  split; [exact Hmany |]. split; [exact (Hbig Hmany) |].
  apply Hnull. reflexivity.
Defined.

Lemma parsed_predicate_has_one_test_per_column_witness :
  QueryParser._parse_where_clause "id > 1 AND id < 5"
  = [("id", COps [("<", VInt 5)])]
  /\ one_test (COps [("<", VInt 5)]).
Proof.
  split; [reflexivity |].
  apply (proj2 (parsed_predicate_has_one_test_per_column
                  "id > 1 AND id < 5") "id").
  left. reflexivity.
Defined.

Lemma created_columns_are_well_formed_witness :
  QueryParser.parse "CREATE TABLE t (id INT PRIMARY KEY UNIQUE, name VARCHAR(10))"
  = Return
      (CREATE_TABLE "t"
         [("id", {| col_type := "INT"; not_null := true;
                    primary_key := true; unique := false |});
          ("name", {| col_type := "VARCHAR(10)"; not_null := false;
                      primary_key := false; unique := false |})])
  /\ NoDup ["id"; "name"].
Proof.
  split; [vm_compute; reflexivity |].
  refine (proj1 (created_columns_are_well_formed
                   "CREATE TABLE t (id INT PRIMARY KEY UNIQUE, name VARCHAR(10))"
                   "t"
                   [("id", {| col_type := "INT"; not_null := true;
                              primary_key := true; unique := false |});
                    ("name", {| col_type := "VARCHAR(10)"; not_null := false;
                                primary_key := false; unique := false |})]
                   _)).
  vm_compute. reflexivity.
Defined.

Lemma split_by_comma_on_plain_text_witness :
  QueryParser._split_by_comma " a, b ,, c ," = ["a"; "b"; ""; "c"].
Proof.
  apply (split_by_comma_on_plain_text " a, b ,, c ,"). reflexivity.
Defined.

Lemma escaped_text_is_one_value_witness :
  QueryParser._parse_values "'O''Neil, Pat'" = [VStr "O''Neil, Pat"]
  /\ Inventory.escape_string (Some "plain") = "plain".
Proof.
  destruct (escaped_text_is_one_value "O'Neil, Pat") as (H & _).
  destruct (escaped_text_is_one_value "plain") as (_ & Hp & _).
  split; [exact H | apply Hp; reflexivity].
Defined.

Lemma schema_is_initialized_once_witness :
  exists st',
    Inventory.initialize_schema categories_db = (Return tt, st')
    /\ Dict.get String.eqb "categories" (tables st')
       = Dict.get String.eqb "categories" (tables categories_db)
    /\ Dict.mem String.eqb "products" (tables st') = true
    /\ Inventory.initialize_schema st' = (Return tt, st').
Proof.
  destruct (schema_is_initialized_once categories_db)
    as (st' & Hrun & _ & Hp & Hkeep & _ & _ & Hagain).
  exists st'. split; [exact Hrun |].
  split; [| split; [exact Hp | exact Hagain]].
  destruct (Dict.get String.eqb "categories" (tables categories_db))
    as [table |] eqn:E; [exact (Hkeep _ _ E) |].
  vm_compute in E. discriminate E.
Defined.

Lemma joined_rows_hold_prefixed_columns_witness :
  NoDup ["_row_id"; "id"; "name"]
  /\ NoDup ["_row_id"; "id"; "category_id"]
  /\ QueryExecutor.join_rows "categories" "products"
       ("categories.id", "products.category_id")
       [[("_row_id", VInt 0); ("id", VInt 1); ("name", VStr "tools")]]
       [[("_row_id", VInt 0); ("id", VInt 7); ("category_id", VInt 1)]]
     = [[("categories.id", VInt 1); ("categories.name", VStr "tools");
         ("products.id", VInt 7); ("products.category_id", VInt 1)]]
  /\ Dict.get String.eqb "products.id"
       [("categories.id", VInt 1); ("categories.name", VStr "tools");
        ("products.id", VInt 7); ("products.category_id", VInt 1)]
     = Some (VInt 7).
Proof.
  assert (H1 : NoDup ["_row_id"; "id"; "name"]).
  { repeat constructor; cbn; intuition discriminate. }
  assert (H2 : NoDup ["_row_id"; "id"; "category_id"]).
  { repeat constructor; cbn; intuition discriminate. }
  split; [exact H1 |]. split; [exact H2 |]. split; [reflexivity |].
  destruct (proj1 (joined_rows_hold_prefixed_columns
                     "categories" "products"
                     ("categories.id", "products.category_id")
                     [[("_row_id", VInt 0); ("id", VInt 1);
                       ("name", VStr "tools")]]
                     [[("_row_id", VInt 0); ("id", VInt 7);
                       ("category_id", VInt 1)]]
                     [("categories.id", VInt 1);
                      ("categories.name", VStr "tools");
                      ("products.id", VInt 7);
                      ("products.category_id", VInt 1)]
                     ltac:(intros row [[<- | []] | [<- | []]];
                           [exact H1 | exact H2]))
                  (or_introl eq_refl))
    as (row1 & row2 & _ & [<- | []] & _ & _ & _ & Hright & _).
  apply (Hright "id" (VInt 7)); reflexivity.
Defined.

Lemma join_on_missing_columns_is_the_product_witness :
  List.length
    (QueryExecutor.join_rows "categories" "products"
       ("categories.ident", "products.category")
       [[("_row_id", VInt 0); ("id", VInt 1)];
        [("_row_id", VInt 1); ("id", VInt 2)]]
       [[("_row_id", VInt 0); ("id", VInt 7); ("category_id", VInt 1)]])
  = 2.
Proof.
  apply (join_on_missing_columns_is_the_product "categories" "products"
           ("categories.ident", "products.category")
           [[("_row_id", VInt 0); ("id", VInt 1)];
            [("_row_id", VInt 1); ("id", VInt 2)]]
           [[("_row_id", VInt 0); ("id", VInt 7);
             ("category_id", VInt 1)]]).
  intros row [[<- | [<- | []]] | [<- | []]]; split; reflexivity.
Defined.

End Runs.
